(** * Chatbot.tsx: a shallow embedding of the chat widget and its properties

    The component of [src/Chatbot.tsx] is embedded in five layers:

    - [JsString]: the string primitives of the JavaScript runtime that the
      component calls ([toLowerCase], [trim], [includes], [split],
      [startsWith], [replace] with a string and with the three regular
      expressions of the source);
    - [JsValue], [Json], [Calc]: runtime values, [JSON.stringify] and
      [JSON.parse], and the arithmetic fragment of the expressions that
      [Function(...)()] evaluates;
    - [Chatbot]: the component itself: [createMessage],
      [parseNaturalLanguage], [handleSend], the timer callback and the
      storage initialiser, written as programs over the effects the source
      performs;
    - [View]: what the JSX renders, [handleKeyPress] and [onChange], and
      the events that the rendered component admits;
    - the theorems.

    Strings are sequences of code units below 256 (Latin-1), the alphabet
    of Rocq's [string]; on that alphabet the primitives below are the
    runtime's, code unit for code unit. *)

From Stdlib Require Import String Ascii List ZArith NArith Lia Bool.
From Stdlib Require Import Decimal DecimalFacts DecimalN Sorted.
Import ListNotations.

Local Open Scope string_scope.
Local Open Scope list_scope.

(* ================================================================== *)
(** ** String primitives of the runtime *)
(* ================================================================== *)

Module JsString.

Definition code (c : ascii) : nat := nat_of_ascii c.

Definition between (lo hi n : nat) : bool := (lo <=? n)%nat && (n <=? hi)%nat.

(** [String.prototype.toLowerCase] on one code unit: A-Z, and the
    Latin-1 capitals U+00C0..U+00DE without the multiplication sign. *)
Definition lowerChar (c : ascii) : ascii :=
  let n := code c in
  if between 65 90 n then ascii_of_nat (n + 32)
  else if between 192 222 n && negb (n =? 215)%nat then ascii_of_nat (n + 32)
  else c.

Fixpoint toLowerCase (s : string) : string :=
  match s with
  | EmptyString => EmptyString
  | String c s' => String (lowerChar c) (toLowerCase s')
  end.

(** WhiteSpace and LineTerminator code units below 256: TAB, LF, VT, FF,
    CR, SP and NBSP. *)
Definition isWhiteSpace (c : ascii) : bool :=
  let n := code c in
  between 9 13 n || (n =? 32)%nat || (n =? 160)%nat.

Definition isEmpty (s : string) : bool :=
  match s with EmptyString => true | _ => false end.

Fixpoint trimStart (s : string) : string :=
  match s with
  | EmptyString => EmptyString
  | String c s' => if isWhiteSpace c then trimStart s' else s
  end.

Fixpoint trimEnd (s : string) : string :=
  match s with
  | EmptyString => EmptyString
  | String c s' =>
      let r := trimEnd s' in
      if isWhiteSpace c && isEmpty r then EmptyString else String c r
  end.

Definition trim (s : string) : string := trimEnd (trimStart s).

(** [s.startsWith(p)] *)
Definition startsWith (p s : string) : bool := String.prefix p s.

Fixpoint drop (n : nat) (s : string) : string :=
  match n, s with
  | O, _ => s
  | S _, EmptyString => EmptyString
  | S k, String _ s' => drop k s'
  end.

(** [s.includes(p)] *)
Fixpoint includes (p s : string) : bool :=
  startsWith p s ||
  match s with
  | EmptyString => false
  | String _ s' => includes p s'
  end.

(** [s.split(sep)] for a non-empty separator: a left-to-right scan for
    non-overlapping occurrences.  [skip] counts the code units of the
    occurrence just found that are still to be passed over, [acc] holds
    the current piece in reverse. *)
Fixpoint splitGo (sep : string) (skip : nat) (acc : list ascii) (s : string)
  : list string :=
  match s with
  | EmptyString => [string_of_list_ascii (List.rev acc)]
  | String c s' =>
      match skip with
      | S k => splitGo sep k acc s'
      | O =>
          if startsWith sep s
          then string_of_list_ascii (List.rev acc)
                 :: splitGo sep (String.length sep - 1) [] s'
          else splitGo sep 0 (c :: acc) s'
      end
  end.

Definition split (sep s : string) : list string := splitGo sep 0 [] s.

(** [s.replace(pat, '')] with a string pattern: the first occurrence
    only. *)
Fixpoint replaceFirst (pat s : string) : string :=
  if startsWith pat s then drop (String.length pat) s
  else match s with
       | EmptyString => EmptyString
       | String c s' => String c (replaceFirst pat s')
       end.

(** [s.replace(/[?.,]/g, '')] *)
Definition isPunct (c : ascii) : bool :=
  let n := code c in (n =? 63)%nat || (n =? 46)%nat || (n =? 44)%nat.

Fixpoint stripPunct (s : string) : string :=
  match s with
  | EmptyString => EmptyString
  | String c s' => if isPunct c then stripPunct s' else String c (stripPunct s')
  end.

(** Canonicalize of the [i] flag (no [u] flag): a code unit goes to its
    upper case, unless that is more than one code unit or takes a code
    unit of 128 or more below 128.  The patterns of the source are made of a-z
    and the space, and below 256 only a-z and A-Z canonicalize into A-Z,
    so comparing after folding a-z onto A-Z is the runtime's test. *)
Definition canon (c : ascii) : ascii :=
  let n := code c in
  if between 97 122 n then ascii_of_nat (n - 32) else c.

Fixpoint matchCI (pat s : string) : bool :=
  match pat, s with
  | EmptyString, _ => true
  | String _ _, EmptyString => false
  | String p pat', String c s' =>
      Ascii.eqb (canon p) (canon c) && matchCI pat' s'
  end.

(** The first alternative of [alts] that matches at the head of [s]. *)
Fixpoint firstAlt (alts : list string) (s : string) : option string :=
  match alts with
  | [] => None
  | p :: alts' => if matchCI p s then Some p else firstAlt alts' s
  end.

(** [s.replace(/a1|a2|.../gi, '')] for non-empty literal alternatives:
    at each position the alternatives are tried in order, a match is
    dropped and the scan resumes after it. *)
Fixpoint removeAllGo (alts : list string) (skip : nat) (s : string) : string :=
  match s with
  | EmptyString => EmptyString
  | String c s' =>
      match skip with
      | S k => removeAllGo alts k s'
      | O =>
          match firstAlt alts s with
          | Some p => removeAllGo alts (String.length p - 1) s'
          | None => String c (removeAllGo alts 0 s')
          end
      end
  end.

Definition removeAllCI (alts : list string) (s : string) : string :=
  removeAllGo alts 0 s.

End JsString.

(* ================================================================== *)
(** ** Runtime values *)
(* ================================================================== *)

Module JsValue.

(** Numbers.  [NInt z]: an integer that a double holds exactly and prints
    in plain decimal (magnitude at most [maxSafe]; zero is the positive
    zero).  [NDec neg whole frac]: the double nearest to the decimal
    [whole.frac], negated when [neg]; with at most 15 significant digits
    (see [plainDecimal]) distinct decimals are distinct doubles, and each
    prints as itself.  NaN and the two infinities.  Other doubles are
    outside the model. *)
Inductive JsNum : Type :=
| NInt (z : Z)
| NDec (negative : bool) (whole : N) (frac : uint)
| NNaN
| NInf (negative : bool).

Definition maxSafe : Z := 9007199254740991.

Definition safeInt (z : Z) : bool := (Z.abs z <=? maxSafe)%Z.

(** The digits of a fraction: at least one, the last one not a zero. *)
Fixpoint endsNonZero (d : uint) : bool :=
  match d with
  | Nil => false
  | D0 d' => endsNonZero d'
  | D1 d' | D2 d' | D3 d' | D4 d' | D5 d' | D6 d' | D7 d' | D8 d' | D9 d' =>
      match d' with
      | Nil => true
      | _ => endsNonZero d'
      end
  end.

Fixpoint leadingZeros (d : uint) : nat :=
  match d with
  | D0 d' => S (leadingZeros d')
  | _ => 0
  end.

(** The decimals [whole.frac] that Number::toString writes in that very
    form: at most 15 significant digits, and below one at most five zeros
    after the point (from 1e-7 down the notation is exponential). *)
Definition plainDecimal (whole : N) (frac : uint) : bool :=
  endsNonZero frac &&
  (if (whole =? 0)%N
   then (leadingZeros frac <=? 5)%nat
        && (nb_digits frac - leadingZeros frac <=? 15)%nat
   else (nb_digits (N.to_uint whole) + nb_digits frac <=? 15)%nat).

(** The values that [pluginData : any] and the HTTP payloads range
    over: [undefined], and what JSON text denotes.  An object is the list
    of its own properties in enumeration order. *)
Unset Elimination Schemes.
Inductive JsVal : Type :=
| JUndefined
| JNull
| JBool (b : bool)
| JNum (n : JsNum)
| JStr (s : string)
| JArr (l : list JsVal)
| JObj (o : list (string * JsVal)).
Set Elimination Schemes.

Definition digitChar (k : nat) : ascii := ascii_of_nat (48 + k).

Fixpoint uintChars (d : uint) : list ascii :=
  match d with
  | Nil => []
  | D0 d' => digitChar 0 :: uintChars d'
  | D1 d' => digitChar 1 :: uintChars d'
  | D2 d' => digitChar 2 :: uintChars d'
  | D3 d' => digitChar 3 :: uintChars d'
  | D4 d' => digitChar 4 :: uintChars d'
  | D5 d' => digitChar 5 :: uintChars d'
  | D6 d' => digitChar 6 :: uintChars d'
  | D7 d' => digitChar 7 :: uintChars d'
  | D8 d' => digitChar 8 :: uintChars d'
  | D9 d' => digitChar 9 :: uintChars d'
  end.

(** Number::toString on the modelled numbers. *)
Definition intChars (z : Z) : list ascii :=
  (if (z <? 0)%Z then ["-"%char] else []) ++ uintChars (N.to_uint (Z.abs_N z)).

Definition decChars (neg : bool) (whole : N) (frac : uint) : list ascii :=
  (if neg then ["-"%char] else [])
  ++ uintChars (N.to_uint whole) ++ "."%char :: uintChars frac.

Definition numToString (n : JsNum) : string :=
  match n with
  | NInt z => string_of_list_ascii (intChars z)
  | NDec neg whole frac => string_of_list_ascii (decChars neg whole frac)
  | NNaN => "NaN"
  | NInf false => "Infinity"
  | NInf true => "-Infinity"
  end.

Fixpoint join (sep : string) (l : list string) : string :=
  match l with
  | [] => ""
  | [x] => x
  | x :: l' => x ++ sep ++ join sep l'
  end.

(** ToString, as a template literal applies it.  An array joins its
    elements with commas, [null] and [undefined] elements giving the
    empty string. *)
Fixpoint toString (v : JsVal) : string :=
  match v with
  | JUndefined => "undefined"
  | JNull => "null"
  | JBool true => "true"
  | JBool false => "false"
  | JNum n => numToString n
  | JStr s => s
  | JArr l =>
      join ","
        (map (fun x => match x with
                       | JUndefined | JNull => ""
                       | _ => toString x
                       end) l)
  | JObj _ => "[object Object]"
  end.

(** ToBoolean *)
Definition truthy (v : JsVal) : bool :=
  match v with
  | JUndefined | JNull => false
  | JBool b => b
  | JNum (NInt z) => negb (z =? 0)%Z
  | JNum (NDec _ _ _) => true
  | JNum NNaN => false
  | JNum (NInf _) => true
  | JStr s => negb (JsString.isEmpty s)
  | JArr _ | JObj _ => true
  end.

Definition nullish (v : JsVal) : bool :=
  match v with JUndefined | JNull => true | _ => false end.

Fixpoint lookup (k : string) (o : list (string * JsVal)) : option JsVal :=
  match o with
  | [] => None
  | (k', v) :: o' => if String.eqb k k' then Some v else lookup k o'
  end.

(** Property read [v.name] for a name that is neither an array index nor
    [length] nor a name on the built-in prototypes (the source reads
    [weather], [main], [temp], [description], [meanings], [definitions]
    and [definition]).  [None] stands for the TypeError of reading a
    property of [undefined] or [null]. *)
Definition getProp (v : JsVal) (name : string) : option JsVal :=
  match v with
  | JUndefined | JNull => None
  | JObj o => Some (match lookup name o with Some x => x | None => JUndefined end)
  | _ => Some JUndefined
  end.

(** Property read [v[0]]. *)
Definition getIndex0 (v : JsVal) : option JsVal :=
  match v with
  | JUndefined | JNull => None
  | JArr l => Some (match l with x :: _ => x | [] => JUndefined end)
  | JStr s => Some (match s with
                    | String c _ => JStr (String c EmptyString)
                    | EmptyString => JUndefined
                    end)
  | JObj o => Some (match lookup "0" o with Some x => x | None => JUndefined end)
  | _ => Some JUndefined
  end.

End JsValue.

(* ================================================================== *)
(** ** JSON.stringify and JSON.parse *)
(* ================================================================== *)

Module Json.
Import JsValue.

Definition dquote : ascii := ascii_of_nat 34.
Definition backslash : ascii := ascii_of_nat 92.

Definition hexChar (k : nat) : ascii :=
  if (k <? 10)%nat then ascii_of_nat (48 + k) else ascii_of_nat (87 + k).

(** QuoteJSONString on one code unit. *)
Definition quoteChar (c : ascii) : list ascii :=
  let n := JsString.code c in
  if (n =? 8)%nat then [backslash; "b"%char]
  else if (n =? 9)%nat then [backslash; "t"%char]
  else if (n =? 10)%nat then [backslash; "n"%char]
  else if (n =? 12)%nat then [backslash; "f"%char]
  else if (n =? 13)%nat then [backslash; "r"%char]
  else if (n =? 34)%nat then [backslash; dquote]
  else if (n =? 92)%nat then [backslash; backslash]
  else if (n <? 32)%nat
       then [backslash; "u"%char; "0"%char; "0"%char;
             hexChar (n / 16); hexChar (n mod 16)]
  else [c].

Fixpoint quoteChars (s : string) : list ascii :=
  match s with
  | EmptyString => []
  | String c s' => quoteChar c ++ quoteChars s'
  end.

Definition quote (s : string) : list ascii :=
  dquote :: quoteChars s ++ [dquote].

Definition numChars (n : JsNum) : list ascii :=
  match n with
  | NInt z => intChars z
  | NDec neg whole frac => decChars neg whole frac
  | NNaN | NInf _ => list_ascii_of_string "null"
  end.

Fixpoint commaSep (l : list (list ascii)) : list ascii :=
  match l with
  | [] => []
  | [x] => x
  | x :: l' => x ++ ","%char :: commaSep l'
  end.

(** The texts of the properties of an object, given the text of a
    value: a property whose value has none is left out. *)
Definition members (ser : JsVal -> option (list ascii))
  : list (string * JsVal) -> list (list ascii) :=
  fix go (o : list (string * JsVal)) : list (list ascii) :=
    match o with
    | [] => []
    | (k, x) :: o' =>
        match ser x with
        | Some t => (quote k ++ ":"%char :: t) :: go o'
        | None => go o'
        end
    end.

(** The text of an element of an array: [null] for a value that has
    none. *)
Definition element (ser : JsVal -> option (list ascii)) (x : JsVal) : list ascii :=
  match ser x with
  | Some t => t
  | None => list_ascii_of_string "null"
  end.

(** SerializeJSONProperty: [None] is the [undefined] that makes an
    object drop the property and an array write [null]. *)
Fixpoint serialize (v : JsVal) : option (list ascii) :=
  match v with
  | JUndefined => None
  | JNull => Some (list_ascii_of_string "null")
  | JBool true => Some (list_ascii_of_string "true")
  | JBool false => Some (list_ascii_of_string "false")
  | JNum n => Some (numChars n)
  | JStr s => Some (quote s)
  | JArr l => Some ("["%char :: commaSep (map (element serialize) l) ++ ["]"%char])
  | JObj o => Some ("{"%char :: commaSep (members serialize o) ++ ["}"%char])
  end.

(** [JSON.stringify(v)]; [None] is [undefined]. *)
Definition stringify (v : JsVal) : option string :=
  option_map string_of_list_ascii (serialize v).

(** *** JSON.parse *)

(** The outcome of a parse: a value, the SyntaxError that [JSON.parse]
    throws, or text that the model does not interpret (a number with an
    exponent, with more than 15 significant digits or beyond [maxSafe],
    the literal of negative zero, an escape of a code unit above 255).
    [EFuel] is the recursion bound of [parseValue] running out, which
    [parse] never meets. *)
Inductive PErr : Type := ESyntax | EUnmodelled | EFuel.

Inductive Res (A : Type) : Type :=
| Ok (a : A)
| Err (e : PErr).
Arguments Ok {A} a.
Arguments Err {A} e.

Definition isJsonWs (c : ascii) : bool :=
  let n := JsString.code c in
  (n =? 32)%nat || (n =? 9)%nat || (n =? 10)%nat || (n =? 13)%nat.

Fixpoint skipWs (s : list ascii) : list ascii :=
  match s with
  | c :: s' => if isJsonWs c then skipWs s' else s
  | [] => []
  end.

Definition digitOf (c : ascii) : option nat :=
  let n := JsString.code c in
  if JsString.between 48 57 n then Some (n - 48) else None.

Definition hexOf (c : ascii) : option nat :=
  let n := JsString.code c in
  if JsString.between 48 57 n then Some (n - 48)
  else if JsString.between 97 102 n then Some (n - 87)
  else if JsString.between 65 70 n then Some (n - 55)
  else None.

Definition consDigit (k : nat) (d : uint) : uint :=
  match k with
  | 0 => D0 d | 1 => D1 d | 2 => D2 d | 3 => D3 d | 4 => D4 d
  | 5 => D5 d | 6 => D6 d | 7 => D7 d | 8 => D8 d | _ => D9 d
  end.

(** The longest run of decimal digits at the head of [s]. *)
Fixpoint readDigits (s : list ascii) : uint * list ascii :=
  match s with
  | [] => (Nil, [])
  | c :: s' =>
      match digitOf c with
      | Some k => let (d, r) := readDigits s' in (consDigit k d, r)
      | None => (Nil, s)
      end
  end.

Definition startsExponent (s : list ascii) : bool :=
  match s with
  | c :: _ => let n := JsString.code c in (n =? 101)%nat || (n =? 69)%nat
  | [] => false
  end.

(** Trailing zeros removed. *)
Fixpoint trimZeros (d : uint) : uint :=
  match d with
  | Nil => Nil
  | D0 d' => match trimZeros d' with Nil => Nil | t => D0 t end
  | D1 d' => D1 (trimZeros d')
  | D2 d' => D2 (trimZeros d')
  | D3 d' => D3 (trimZeros d')
  | D4 d' => D4 (trimZeros d')
  | D5 d' => D5 (trimZeros d')
  | D6 d' => D6 (trimZeros d')
  | D7 d' => D7 (trimZeros d')
  | D8 d' => D8 (trimZeros d')
  | D9 d' => D9 (trimZeros d')
  end.

Definition isNil (d : uint) : bool :=
  match d with Nil => true | _ => false end.

(** The integer with the digits [d], of the sign [neg]. *)
Definition integerOf (neg : bool) (d : uint) (r : list ascii) : Res (JsNum * list ascii) :=
  let n := Z.of_N (N.of_uint d) in
  if negb (n <=? maxSafe)%Z then Err EUnmodelled
  else if neg && (n =? 0)%Z then Err EUnmodelled
  else Ok (NInt (if neg then - n else n)%Z, r).

(** The digits after the point: there must be one; zeros at the end do
    not count, and a fraction of zeros alone leaves an integer. *)
Definition readFraction (neg : bool) (d : uint) (s : list ascii)
  : Res (JsNum * list ascii) :=
  let (f, r) := readDigits s in
  if isNil f then Err ESyntax
  else if startsExponent r then Err EUnmodelled
  else
    let f' := trimZeros f in
    if isNil f' then integerOf neg d r
    else if plainDecimal (N.of_uint d) f' then Ok (NDec neg (N.of_uint d) f', r)
    else Err EUnmodelled.

(** The digits of a number after its sign, if any: no digit and a
    leading zero are errors of syntax. *)
Definition readNumber (neg : bool) (s : list ascii) : Res (JsNum * list ascii) :=
  let (d, r) := readDigits s in
  match d with
  | Nil => Err ESyntax
  | D0 (D0 _ | D1 _ | D2 _ | D3 _ | D4 _ | D5 _ | D6 _ | D7 _ | D8 _ | D9 _) =>
      Err ESyntax
  | _ =>
      match r with
      | c :: r' =>
          if (JsString.code c =? 46)%nat then readFraction neg d r'
          else if startsExponent r then Err EUnmodelled
          else integerOf neg d r
      | [] => integerOf neg d r
      end
  end.

Definition parseNumber (s : list ascii) : Res (JsNum * list ascii) :=
  match s with
  | c :: s' => if Ascii.eqb c "-"%char then readNumber true s' else readNumber false s
  | [] => readNumber false s
  end.

(** A string after its opening quote, up to and with the closing one. *)
Fixpoint parseStringBody (s : list ascii) : Res (string * list ascii) :=
  match s with
  | [] => Err ESyntax
  | c :: s' =>
      if Ascii.eqb c dquote then Ok (EmptyString, s')
      else if Ascii.eqb c backslash then
        match s' with
        | [] => Err ESyntax
        | e :: s'' =>
            let simple (x : nat) :=
              match parseStringBody s'' with
              | Ok (t, r) => Ok (String (ascii_of_nat x) t, r)
              | Err err => Err err
              end in
            let n := JsString.code e in
            if (n =? 34)%nat then simple 34
            else if (n =? 92)%nat then simple 92
            else if (n =? 47)%nat then simple 47
            else if (n =? 98)%nat then simple 8
            else if (n =? 102)%nat then simple 12
            else if (n =? 110)%nat then simple 10
            else if (n =? 114)%nat then simple 13
            else if (n =? 116)%nat then simple 9
            else if (n =? 117)%nat then
              match s'' with
              | h1 :: h2 :: h3 :: h4 :: r0 =>
                  match hexOf h1, hexOf h2, hexOf h3, hexOf h4 with
                  | Some a, Some b, Some c', Some d =>
                      if negb ((a =? 0)%nat && (b =? 0)%nat) then Err EUnmodelled
                      else match parseStringBody r0 with
                           | Ok (t, r) => Ok (String (ascii_of_nat (16 * c' + d)) t, r)
                           | Err err => Err err
                           end
                  | _, _, _, _ => Err ESyntax
                  end
              | _ => Err ESyntax
              end
            else Err ESyntax
        end
      else if (JsString.code c <? 32)%nat then Err ESyntax
      else match parseStringBody s' with
           | Ok (t, r) => Ok (String c t, r)
           | Err err => Err err
           end
  end.

(** An array index as a property key: the canonical decimal form of an
    integer below 2^32 - 1. *)
Definition arrayIndex (k : string) : option N :=
  match readDigits (list_ascii_of_string k) with
  | (Nil, _) => None
  | (D0 (D0 _ | D1 _ | D2 _ | D3 _ | D4 _ | D5 _ | D6 _ | D7 _ | D8 _ | D9 _), _) =>
      None
  | (d, []) => let n := N.of_uint d in
               if (n <=? 4294967294)%N then Some n else None
  | (_, _ :: _) => None
  end.

Fixpoint hasKey (k : string) (o : list (string * JsVal)) : bool :=
  match o with
  | [] => false
  | (k', _) :: o' => String.eqb k k' || hasKey k o'
  end.

Fixpoint overwrite (k : string) (v : JsVal) (o : list (string * JsVal))
  : list (string * JsVal) :=
  match o with
  | [] => []
  | (k', v') :: o' =>
      if String.eqb k k' then (k', v) :: o' else (k', v') :: overwrite k v o'
  end.

Fixpoint insertIndex (n : N) (k : string) (v : JsVal) (o : list (string * JsVal))
  : list (string * JsVal) :=
  match o with
  | [] => [(k, v)]
  | (k', v') :: o' =>
      match arrayIndex k' with
      | Some n' => if (n' <? n)%N then (k', v') :: insertIndex n k v o'
                   else (k, v) :: o
      | None => (k, v) :: o
      end
  end.

(** CreateDataProperty on the list of own properties: an existing key
    keeps its place, a new array index goes among the indices in
    ascending order, any other new key goes last. *)
Definition objSet (o : list (string * JsVal)) (kv : string * JsVal)
  : list (string * JsVal) :=
  let (k, v) := kv in
  if hasKey k o then overwrite k v o
  else match arrayIndex k with
       | Some n => insertIndex n k v o
       | None => o ++ [(k, v)]
       end.

Definition buildObject (members : list (string * JsVal)) : JsVal :=
  JObj (fold_left objSet members []).

Definition expect (lit : string) (v : JsVal) (s : list ascii)
  : Res (JsVal * list ascii) :=
  let l := list_ascii_of_string lit in
  if String.eqb (string_of_list_ascii (firstn (List.length l) s)) lit
  then Ok (v, skipn (List.length l) s)
  else Err ESyntax.

(** A JSON value at the head of [s] (after white space) and the text
    after it.  [fuel] bounds the depth of the calls. *)
Fixpoint parseValue (fuel : nat) (s : list ascii) : Res (JsVal * list ascii) :=
  match fuel with
  | O => Err EFuel
  | S f =>
      match skipWs s with
      | [] => Err ESyntax
      | c :: r =>
          let n := JsString.code c in
          if (n =? 123)%nat then
            match skipWs r with
            | c' :: r' =>
                if (JsString.code c' =? 125)%nat then Ok (JObj [], r')
                else match parseMembers f (c' :: r') with
                     | Ok (ms, r'') => Ok (buildObject ms, r'')
                     | Err e => Err e
                     end
            | [] => Err ESyntax
            end
          else if (n =? 91)%nat then
            match skipWs r with
            | c' :: r' =>
                if (JsString.code c' =? 93)%nat then Ok (JArr [], r')
                else match parseElems f (c' :: r') with
                     | Ok (vs, r'') => Ok (JArr vs, r'')
                     | Err e => Err e
                     end
            | [] => Err ESyntax
            end
          else if (n =? 34)%nat then
            match parseStringBody r with
            | Ok (t, r') => Ok (JStr t, r')
            | Err e => Err e
            end
          else if (n =? 116)%nat then expect "true" (JBool true) (c :: r)
          else if (n =? 102)%nat then expect "false" (JBool false) (c :: r)
          else if (n =? 110)%nat then expect "null" JNull (c :: r)
          else if (n =? 45)%nat || JsString.between 48 57 n then
            match parseNumber (c :: r) with
            | Ok (x, r') => Ok (JNum x, r')
            | Err e => Err e
            end
          else Err ESyntax
      end
  end

with parseElems (fuel : nat) (s : list ascii) : Res (list JsVal * list ascii) :=
  match fuel with
  | O => Err EFuel
  | S f =>
      match parseValue f s with
      | Err e => Err e
      | Ok (v, r) =>
          match skipWs r with
          | c :: r' =>
              let n := JsString.code c in
              if (n =? 44)%nat then
                match parseElems f r' with
                | Ok (vs, r'') => Ok (v :: vs, r'')
                | Err e => Err e
                end
              else if (n =? 93)%nat then Ok ([v], r')
              else Err ESyntax
          | [] => Err ESyntax
          end
      end
  end

with parseMembers (fuel : nat) (s : list ascii)
  : Res (list (string * JsVal) * list ascii) :=
  match fuel with
  | O => Err EFuel
  | S f =>
      match skipWs s with
      | c :: r =>
          if negb (JsString.code c =? 34)%nat then Err ESyntax
          else
            match parseStringBody r with
            | Err e => Err e
            | Ok (k, r1) =>
                match skipWs r1 with
                | c1 :: r2 =>
                    if negb (JsString.code c1 =? 58)%nat then Err ESyntax
                    else
                      match parseValue f r2 with
                      | Err e => Err e
                      | Ok (v, r3) =>
                          match skipWs r3 with
                          | c3 :: r4 =>
                              let n := JsString.code c3 in
                              if (n =? 44)%nat then
                                match parseMembers f r4 with
                                | Ok (ms, r5) => Ok ((k, v) :: ms, r5)
                                | Err e => Err e
                                end
                              else if (n =? 125)%nat then Ok ([(k, v)], r4)
                              else Err ESyntax
                          | [] => Err ESyntax
                          end
                      end
                | [] => Err ESyntax
                end
            end
      | [] => Err ESyntax
      end
  end.

(** [JSON.parse(text)]: one value, white space around it and nothing
    else.  Every call of [parseValue] on a shorter fuel reads at least
    one character less, so twice the length of the text is fuel
    enough. *)
Definition parse (text : string) : Res JsVal :=
  let s := list_ascii_of_string text in
  match parseValue (2 * List.length s + 2) s with
  | Ok (v, r) => match skipWs r with
                 | [] => Ok v
                 | _ :: _ => Err ESyntax
                 end
  | Err e => Err e
  end.

End Json.

(* ================================================================== *)
(** ** The arithmetic fragment of the evaluated expressions *)
(* ================================================================== *)

(** [Function('"use strict";return (' + expression + ')')()] runs
    arbitrary script.  The fragment below fixes its result on the
    expressions made of decimal integer literals, the binary operators
    [+ - * /], parentheses and spaces, as long as every intermediate
    result is an integer within [maxSafe] (so that double arithmetic is
    exact) and no negative zero arises; a division by zero is modelled as
    the last operation only.  On everything else [evalArith] is [None] and
    the result is the environment's. *)
Module Calc.
Import JsValue.

Inductive Completion : Type :=
| Normal (v : JsVal)
| Throw.

Inductive Token : Type :=
| TNum (n : N)
| TPlus | TMinus | TStar | TSlash | TLParen | TRParen.

Inductive BinOp : Type := Add | Sub | Mul | Div.

Inductive Expr : Type :=
| Lit (n : N)
| Bin (op : BinOp) (l r : Expr).

(** Tokens of the fragment; [None] on any other character and on a
    literal with a leading zero (octal-like literals are errors in strict
    code).  [fuel] bounds the number of tokens. *)
Fixpoint tokenize (fuel : nat) (s : list ascii) : option (list Token) :=
  match fuel with
  | O => None
  | S f =>
      match s with
      | [] => Some []
      | c :: s' =>
          let n := JsString.code c in
          let one (t : Token) := option_map (cons t) (tokenize f s') in
          if (n =? 32)%nat then tokenize f s'
          else if (n =? 43)%nat then one TPlus
          else if (n =? 45)%nat then one TMinus
          else if (n =? 42)%nat then one TStar
          else if (n =? 47)%nat then one TSlash
          else if (n =? 40)%nat then one TLParen
          else if (n =? 41)%nat then one TRParen
          else if JsString.between 48 57 n then
            match Json.readDigits s with
            | (D0 (D0 _ | D1 _ | D2 _ | D3 _ | D4 _ | D5 _ | D6 _ | D7 _ | D8 _ | D9 _), _) =>
                None
            | (d, r) => option_map (cons (TNum (N.of_uint d))) (tokenize f r)
            end
          else None
      end
  end.

(** Recursive descent: sums of products of literals and parenthesised
    expressions, the operators associating to the left. *)
Fixpoint parseSum (fuel : nat) (ts : list Token) : option (Expr * list Token) :=
  match fuel with
  | O => None
  | S f =>
      match parseProduct f ts with
      | Some (e, r) => sumLoop f e r
      | None => None
      end
  end

with sumLoop (fuel : nat) (acc : Expr) (ts : list Token) : option (Expr * list Token) :=
  match fuel with
  | O => None
  | S f =>
      match ts with
      | TPlus :: r =>
          match parseProduct f r with
          | Some (e, r') => sumLoop f (Bin Add acc e) r'
          | None => None
          end
      | TMinus :: r =>
          match parseProduct f r with
          | Some (e, r') => sumLoop f (Bin Sub acc e) r'
          | None => None
          end
      | _ => Some (acc, ts)
      end
  end

with parseProduct (fuel : nat) (ts : list Token) : option (Expr * list Token) :=
  match fuel with
  | O => None
  | S f =>
      match parseAtom f ts with
      | Some (e, r) => productLoop f e r
      | None => None
      end
  end

with productLoop (fuel : nat) (acc : Expr) (ts : list Token) : option (Expr * list Token) :=
  match fuel with
  | O => None
  | S f =>
      match ts with
      | TStar :: r =>
          match parseAtom f r with
          | Some (e, r') => productLoop f (Bin Mul acc e) r'
          | None => None
          end
      | TSlash :: r =>
          match parseAtom f r with
          | Some (e, r') => productLoop f (Bin Div acc e) r'
          | None => None
          end
      | _ => Some (acc, ts)
      end
  end

with parseAtom (fuel : nat) (ts : list Token) : option (Expr * list Token) :=
  match fuel with
  | O => None
  | S f =>
      match ts with
      | TNum n :: r => Some (Lit n, r)
      | TLParen :: r =>
          match parseSum f r with
          | Some (e, TRParen :: r') => Some (e, r')
          | _ => None
          end
      | _ => None
      end
  end.

Definition exact (z : Z) : option JsNum :=
  if safeInt z then Some (NInt z) else None.

Definition applyOp (op : BinOp) (a b : Z) : option JsNum :=
  match op with
  | Add => exact (a + b)
  | Sub => exact (a - b)
  | Mul => if ((a =? 0) && (b <? 0) || (b =? 0) && (a <? 0))%Z then None
           else exact (a * b)
  | Div =>
      if (b =? 0)%Z then
        Some (if (a =? 0)%Z then NNaN else NInf (a <? 0)%Z)
      else if ((a =? 0) && (b <? 0))%Z then None
      else if (a mod b =? 0)%Z then exact (a / b)
      else None
  end.

Fixpoint evalExpr (e : Expr) : option JsNum :=
  match e with
  | Lit n => exact (Z.of_N n)
  | Bin op l r =>
      match evalExpr l, evalExpr r with
      | Some (NInt a), Some (NInt b) => applyOp op a b
      | _, _ => None
      end
  end.

(** The result of the call on [expression] where the fragment fixes it.
    An expression of spaces alone leaves [return ()], a SyntaxError. *)
Definition evalArith (expression : string) : option Completion :=
  let s := list_ascii_of_string expression in
  match tokenize (S (List.length s)) s with
  | Some [] => Some Throw
  | Some ts =>
      match parseSum (5 * List.length ts + 5) ts with
      | Some (e, []) => option_map (fun n => Normal (JNum n)) (evalExpr e)
      | _ => None
      end
  | None => None
  end.

End Calc.

(* ================================================================== *)
(** ** The component *)
(* ================================================================== *)

Module Chatbot.
Import JsValue.
Local Open Scope string_scope.

Inductive Sender : Type := User | Assistant.
Inductive MsgType : Type := Text | Plugin.

(** [interface Message].  An optional field that is absent and one that
    holds [undefined] read alike: [pluginName] is [None] for both and
    [pluginData] is [JUndefined] for both. *)
Record Message : Type := mkMessage {
  id : string;
  sender : Sender;
  content : string;
  type : MsgType;
  pluginName : option string;
  pluginData : JsVal;
  timestamp : string
}.

(** The two updater functions that the source passes to [setMessages]:
    [prev => [...prev, m]] and
    [prev => prev.filter(msg => msg.id !== i)]. *)
Inductive Update : Type :=
| Append (m : Message)
| RemoveId (i : string).

Definition applyUpdate (u : Update) (prev : list Message) : list Message :=
  match u with
  | Append m => (prev ++ [m])%list
  | RemoveId i => filter (fun msg => negb (String.eqb (id msg) i)) prev
  end.

(** The outcome of [axios.get]: the promise resolves with the body of a
    2xx response ([res.data]) or rejects. *)
Inductive HttpResult : Type :=
| Resolved (data : JsVal)
| Rejected.

(** What [setTimeout]'s callback closes over. *)
Record Pending : Type := mkPending {
  p_input : string;
  p_loading : Message
}.

(** Programs over the effects of the component, one constructor per
    effect, each with the rest of the program.  [EvalJs e] is the call
    [Function('"use strict";return (' + e + ')')()]. *)
Inductive Prog (A : Type) : Type :=
| Ret (a : A)
| Uuid (k : string -> Prog A)
| Clock (k : string -> Prog A)
| HttpGet (url : string) (k : HttpResult -> Prog A)
| EvalJs (expression : string) (k : Calc.Completion -> Prog A)
| SetMessages (u : Update) (k : Prog A)
| SetInput (s : string) (k : Prog A)
| SetLoading (b : bool) (k : Prog A)
| SetTimeout (p : Pending) (delay : nat) (k : Prog A).
Arguments Ret {A} a.
Arguments Uuid {A} k.
Arguments Clock {A} k.
Arguments HttpGet {A} url k.
Arguments EvalJs {A} expression k.
Arguments SetMessages {A} u k.
Arguments SetInput {A} s k.
Arguments SetLoading {A} b k.
Arguments SetTimeout {A} p delay k.

Fixpoint bind {A B : Type} (p : Prog A) (f : A -> Prog B) : Prog B :=
  match p with
  | Ret a => f a
  | Uuid k => Uuid (fun i => bind (k i) f)
  | Clock k => Clock (fun t => bind (k t) f)
  | HttpGet url k => HttpGet url (fun r => bind (k r) f)
  | EvalJs e k => EvalJs e (fun c => bind (k c) f)
  | SetMessages u k => SetMessages u (bind k f)
  | SetInput s k => SetInput s (bind k f)
  | SetLoading b k => SetLoading b (bind k f)
  | SetTimeout p d k => SetTimeout p d (bind k f)
  end.

Notation "x <- p ;; q" := (bind p (fun x => q))
  (at level 61, p at next level, right associativity).
Notation "p ;;; q" := (bind p (fun _ => q))
  (at level 61, right associativity).

Definition setMessages (u : Update) : Prog unit := SetMessages u (Ret tt).
Definition setInput (s : string) : Prog unit := SetInput s (Ret tt).
Definition setLoading (b : bool) : Prog unit := SetLoading b (Ret tt).
Definition setTimeout (p : Pending) (delay : nat) : Prog unit :=
  SetTimeout p delay (Ret tt).

(** [createMessage]: the id is drawn first, the clock read last, as the
    object literal evaluates its fields. *)
Definition createMessage (sender : Sender) (content : string) (type : MsgType)
    (pluginName : option string) (pluginData : JsVal) : Prog Message :=
  Uuid (fun i =>
  Clock (fun t =>
  Ret {| id := i; sender := sender; content := content; type := type;
         pluginName := pluginName; pluginData := pluginData;
         timestamp := t |})).

Definition phraseWeather : string := "weather in".

(** [parseNaturalLanguage].  An [undefined] second piece of the split
    would go through the optional chain into the template as the text
    [undefined]. *)
Definition parseNaturalLanguage (text : string) : option string :=
  let lower := JsString.toLowerCase text in
  if JsString.includes phraseWeather lower then
    let city := match nth_error (JsString.split phraseWeather lower) 1 with
                | Some piece => JsString.stripPunct (JsString.trim piece)
                | None => "undefined"
                end in
    Some ("/weather " ++ city)
  else if JsString.startsWith "what is" lower || JsString.startsWith "calculate" lower then
    let expression :=
      JsString.trim (JsString.removeAllCI ["what is"; "calculate"] text) in
    Some ("/calc " ++ expression)
  else if JsString.startsWith "define" lower || JsString.startsWith "what does" lower then
    let word :=
      JsString.stripPunct
        (JsString.trim (JsString.removeAllCI ["define"; "what does"; "mean"] text)) in
    Some ("/define " ++ word)
  else None.

Definition newline : string := String (ascii_of_nat 10) EmptyString.
Definition degree : string := String (ascii_of_nat 176) EmptyString.

(** The template literal of the weather request runs over the end of
    its line in the source, so the URL ends with a line feed. *)
Definition weatherUrl (city : string) : string :=
  "https://api.openweathermap.org/data/2.5/weather?q=" ++ city
  ++ "&units=metric&appid=f23af85998c654884e8ba4b7a555ebf0" ++ newline.

Definition defineUrl (word : string) : string :=
  "https://api.dictionaryapi.dev/api/v2/entries/en/" ++ word.

Definition obind {A B : Type} (o : option A) (f : A -> option B) : option B :=
  match o with Some a => f a | None => None end.

(** The weather template; [None] is a TypeError raised while reading
    [weather.weather[0].description] or [weather.main.temp]. *)
Definition weatherContent (city : string) (weather : JsVal) : option string :=
  obind (getProp weather "weather") (fun ws =>
  obind (getIndex0 ws) (fun w0 =>
  obind (getProp w0 "description") (fun description =>
  obind (getProp weather "main") (fun main =>
  obind (getProp main "temp") (fun temp =>
  Some ("Weather in " ++ city ++ ": " ++ toString description ++ ", "
        ++ toString temp ++ degree ++ "C")))))).

(** [res.data[0]?.meanings[0]?.definitions[0]?.definition]: each [?.]
    stops the chain on [undefined] or [null] at its left; the reads
    [.meanings[0]] and [.definitions[0]] inside a link are plain reads.
    [None] is a TypeError. *)
Definition definitionChain (data : JsVal) : option JsVal :=
  obind (getIndex0 data) (fun entry =>
  obind (if nullish entry then Some JUndefined
         else obind (getProp entry "meanings") getIndex0) (fun meaning =>
  obind (if nullish meaning then Some JUndefined
         else obind (getProp meaning "definitions") getIndex0) (fun def =>
  if nullish def then Some JUndefined else getProp def "definition"))).

(** [... || 'Definition not found'] *)
Definition orDefault (v : JsVal) : JsVal :=
  if truthy v then v else JStr "Definition not found".

Definition respond (m : Prog Message) : Prog unit :=
  msg <- m ;; setMessages (Append msg).

(** The command that the callback dispatches on: the trimmed input, or
    its rewriting when [parseNaturalLanguage] gives a non-empty one. *)
Definition commandOf (input : string) : string :=
  let command := JsString.trim input in
  match parseNaturalLanguage command with
  | Some parsed => if JsString.isEmpty parsed then command else parsed
  | None => command
  end.

(** The chain of [if (command.startsWith(...))] of the callback. *)
Definition dispatch (command : string) : Prog unit :=
  if JsString.startsWith "/weather" command then
    let city := JsString.trim (JsString.replaceFirst "/weather" command) in
    if JsString.isEmpty city then
      respond (createMessage Assistant "Please provide a city." Text None JUndefined) ;;;
      setLoading false
    else
      HttpGet (weatherUrl city) (fun res =>
        match res with
        | Resolved weather =>
            match weatherContent city weather with
            | Some content =>
                respond (createMessage Assistant content Plugin (Some "weather") weather)
            | None =>
                respond (createMessage Assistant "City not found or API error." Text
                           None JUndefined)
            end
        | Rejected =>
            respond (createMessage Assistant "City not found or API error." Text
                       None JUndefined)
        end ;;;
        setLoading false)
  else if JsString.startsWith "/calc" command then
    let expression := JsString.trim (JsString.replaceFirst "/calc" command) in
    EvalJs expression (fun completion =>
      match completion with
      | Calc.Normal result =>
          respond (createMessage Assistant ("Result: " ++ toString result) Plugin
                     (Some "calc") result)
      | Calc.Throw =>
          respond (createMessage Assistant "Invalid expression" Text None JUndefined)
      end ;;;
      setLoading false)
  else if JsString.startsWith "/define" command then
    let word := JsString.trim (JsString.replaceFirst "/define" command) in
    HttpGet (defineUrl word) (fun res =>
      match res with
      | Resolved data =>
          match definitionChain data with
          | Some found =>
              respond (createMessage Assistant
                         ("Definition of " ++ word ++ ": " ++ toString (orDefault found))
                         Plugin (Some "define") data)
          | None =>
              respond (createMessage Assistant "Error fetching definition" Text
                         None JUndefined)
          end
      | Rejected =>
          respond (createMessage Assistant "Error fetching definition" Text
                     None JUndefined)
      end ;;;
      setLoading false)
  else
    respond (createMessage Assistant "Unrecognized command." Text None JUndefined) ;;;
    setLoading false.

(** The callback that [handleSend] hands to [setTimeout]. *)
Definition timeoutCallback (input : string) (loadingMsg : Message) : Prog unit :=
  setMessages (RemoveId (id loadingMsg)) ;;;
  dispatch (commandOf input).

(** [handleSend], with the [input] of the render it closes over. *)
Definition handleSend (input : string) : Prog unit :=
  if JsString.isEmpty (JsString.trim input) then Ret tt
  else
    userMessage <- createMessage User input Text None JUndefined ;;
    setMessages (Append userMessage) ;;;
    setInput "" ;;;
    setLoading true ;;;
    loadingMsg <- createMessage Assistant "Typing..." Text None JUndefined ;;
    setMessages (Append loadingMsg) ;;;
    setTimeout {| p_input := input; p_loading := loadingMsg |} 2000.

(** *** Persistence *)

Definition senderName (x : Sender) : string :=
  match x with User => "user" | Assistant => "assistant" end.

Definition typeName (x : MsgType) : string :=
  match x with Text => "text" | Plugin => "plugin" end.

(** The object that [createMessage] builds: seven own properties in the
    order of the literal, the optional ones holding [undefined] when not
    given. *)
Definition messageToJs (m : Message) : JsVal :=
  JObj [("id", JStr (id m));
        ("sender", JStr (senderName (sender m)));
        ("content", JStr (content m));
        ("type", JStr (typeName (type m)));
        ("pluginName", match pluginName m with Some n => JStr n | None => JUndefined end);
        ("pluginData", pluginData m);
        ("timestamp", JStr (timestamp m))].

(** [JSON.stringify(messages)] *)
Definition persist (msgs : list Message) : option string :=
  Json.stringify (JArr (map messageToJs msgs)).

Definition takeField (name : string) (o : list (string * JsVal))
  : option (JsVal * list (string * JsVal)) :=
  match o with
  | (k, v) :: o' => if String.eqb k name then Some (v, o') else None
  | [] => None
  end.

Definition takeOptional (name : string) (o : list (string * JsVal))
  : JsVal * list (string * JsVal) :=
  match takeField name o with
  | Some r => r
  | None => (JUndefined, o)
  end.

Definition asString (v : JsVal) : option string :=
  match v with JStr s => Some s | _ => None end.

Definition asSender (v : JsVal) : option Sender :=
  match v with
  | JStr s => if String.eqb s "user" then Some User
              else if String.eqb s "assistant" then Some Assistant
              else None
  | _ => None
  end.

Definition asType (v : JsVal) : option MsgType :=
  match v with
  | JStr s => if String.eqb s "text" then Some Text
              else if String.eqb s "plugin" then Some Plugin
              else None
  | _ => None
  end.

Definition asOptionalString (v : JsVal) : option (option string) :=
  match v with
  | JUndefined => Some None
  | JStr s => Some (Some s)
  | _ => None
  end.

(** The typed reading of a rehydrated value: a [Message] is an object
    with the properties of [messageToJs] in that order, the two optional
    ones present or not, and nothing else.  Any other value is not a
    [Message] of the model. *)
Definition decodeMessage (v : JsVal) : option Message :=
  match v with
  | JObj o =>
      obind (takeField "id" o) (fun '(vid, o1) =>
      obind (takeField "sender" o1) (fun '(vsender, o2) =>
      obind (takeField "content" o2) (fun '(vcontent, o3) =>
      obind (takeField "type" o3) (fun '(vtype, o4) =>
      let '(vname, o5) := takeOptional "pluginName" o4 in
      let '(vdata, o6) := takeOptional "pluginData" o5 in
      obind (takeField "timestamp" o6) (fun '(vtime, o7) =>
      match o7 with
      | _ :: _ => None
      | [] =>
          obind (asString vid) (fun i =>
          obind (asSender vsender) (fun s =>
          obind (asString vcontent) (fun c =>
          obind (asType vtype) (fun t =>
          obind (asOptionalString vname) (fun n =>
          obind (asString vtime) (fun ts =>
          Some {| id := i; sender := s; content := c; type := t;
                  pluginName := n; pluginData := vdata; timestamp := ts |}))))))
      end)))))
  | _ => None
  end.

Fixpoint decodeAll (l : list JsVal) : option (list Message) :=
  match l with
  | [] => Some []
  | v :: l' =>
      obind (decodeMessage v) (fun m =>
      obind (decodeAll l') (fun ms => Some (m :: ms)))
  end.

Definition decodeMessages (v : JsVal) : option (list Message) :=
  match v with
  | JArr l => decodeAll l
  | _ => None
  end.

(** The outcome of the initialiser of [useState<Message[]>]:
    [const saved = localStorage.getItem('chatMessages');
     return saved ? JSON.parse(saved) : [];] *)
Inductive Init : Type :=
| Loaded (msgs : list Message)
| ThrowsSyntaxError
| Foreign (v : JsVal)
| Uninterpreted.

Definition initialMessages (saved : option string) : Init :=
  match saved with
  | None => Loaded []
  | Some text =>
      if JsString.isEmpty text then Loaded []
      else match Json.parse text with
           | Json.Ok v =>
               match decodeMessages v with
               | Some msgs => Loaded msgs
               | None => Foreign v
               end
           | Json.Err Json.ESyntax => ThrowsSyntaxError
           | Json.Err _ => Uninterpreted
           end
  end.

(** *** Running a program *)

(** The environment: the ids that [uuidv4] returns and the readings of
    [new Date().toISOString()], in the order of the calls; the outcome of
    the n-th request; the result of the n-th evaluated script where the
    arithmetic fragment does not fix it. *)
Record Env : Type := mkEnv {
  uuid : nat -> string;
  clock : nat -> string;
  http : nat -> string -> HttpResult;
  script : nat -> string -> Calc.Completion
}.

(** The component's state ([messages], [input], [loading]), the storage
    slot [chatMessages], the timers that are set, and the record of the
    calls made to the environment. *)
Record State : Type := mkState {
  messages : list Message;
  input : string;
  loading : bool;
  storage : option string;
  timers : list (Pending * nat);
  draws : nat;
  reads : nat;
  requests : list string;
  evals : list string
}.

Definition evalJs (env : Env) (n : nat) (expression : string) : Calc.Completion :=
  match Calc.evalArith expression with
  | Some c => c
  | None => script env n expression
  end.

(** One effect at a time.  A change of [messages] is followed by the
    effect of [useEffect(..., [messages])], which writes the slot. *)
Fixpoint run {A : Type} (env : Env) (p : Prog A) (st : State) : A * State :=
  match p with
  | Ret a => (a, st)
  | Uuid k =>
      run env (k (uuid env (draws st)))
        (mkState (messages st) (input st) (loading st) (storage st) (timers st)
           (S (draws st)) (reads st) (requests st) (evals st))
  | Clock k =>
      run env (k (clock env (reads st)))
        (mkState (messages st) (input st) (loading st) (storage st) (timers st)
           (draws st) (S (reads st)) (requests st) (evals st))
  | HttpGet url k =>
      run env (k (http env (List.length (requests st)) url))
        (mkState (messages st) (input st) (loading st) (storage st) (timers st)
           (draws st) (reads st) (requests st ++ [url])%list (evals st))
  | EvalJs e k =>
      run env (k (evalJs env (List.length (evals st)) e))
        (mkState (messages st) (input st) (loading st) (storage st) (timers st)
           (draws st) (reads st) (requests st) (evals st ++ [e])%list)
  | SetMessages u k =>
      let msgs := applyUpdate u (messages st) in
      run env k
        (mkState msgs (input st) (loading st) (persist msgs) (timers st)
           (draws st) (reads st) (requests st) (evals st))
  | SetInput s k =>
      run env k
        (mkState (messages st) s (loading st) (storage st) (timers st)
           (draws st) (reads st) (requests st) (evals st))
  | SetLoading b k =>
      run env k
        (mkState (messages st) (input st) b (storage st) (timers st)
           (draws st) (reads st) (requests st) (evals st))
  | SetTimeout p d k =>
      run env k
        (mkState (messages st) (input st) (loading st) (storage st)
           (timers st ++ [(p, d)])%list
           (draws st) (reads st) (requests st) (evals st))
  end.

Definition exec (env : Env) (p : Prog unit) (st : State) : State :=
  snd (run env p st).

(** The state after the first render and its effect. *)
Definition mounted (msgs : list Message) : State :=
  mkState msgs "" false (persist msgs) [] 0 0 [] [].

(** The events of the component: typing into the input, a click on the
    send button or Enter (the input and the button are disabled while
    [loading]), and a timer going off. *)
Inductive step (env : Env) : State -> State -> Prop :=
| step_type (st : State) (text : string) :
    loading st = false ->
    step env st
      (mkState (messages st) text (loading st) (storage st) (timers st)
         (draws st) (reads st) (requests st) (evals st))
| step_send (st : State) :
    loading st = false ->
    step env st (exec env (handleSend (input st)) st)
| step_timer (st : State) (before after : list (Pending * nat)) (p : Pending) (d : nat) :
    timers st = (before ++ (p, d) :: after)%list ->
    step env st
      (exec env (timeoutCallback (p_input p) (p_loading p))
         (mkState (messages st) (input st) (loading st) (storage st)
            (before ++ after)%list
            (draws st) (reads st) (requests st) (evals st))).

End Chatbot.

(* ================================================================== *)
(** ** Sample environments and states *)
(* ================================================================== *)

Module Sample.
Import JsValue Chatbot.
Local Open Scope string_scope.

(** Ids [x], [xx], [xxx], ... *)
Fixpoint unary (n : nat) : string :=
  match n with
  | O => "x"
  | S k => String "x"%char (unary k)
  end.

(** An environment whose requests all resolve with [data], whose ids
    are pairwise distinct and whose clock stands still within one
    millisecond. *)
Definition envResolving (data : JsVal) : Env :=
  {| uuid := unary;
     clock := fun _ => "2025-01-01T00:00:00.000Z";
     http := fun _ _ => Resolved data;
     script := fun _ _ => Calc.Throw |}.

Definition envOffline : Env :=
  {| uuid := unary;
     clock := fun _ => "2025-01-01T00:00:00.000Z";
     http := fun _ _ => Rejected;
     script := fun _ _ => Calc.Throw |}.

(** A freshly mounted component with [text] typed into the input. *)
Definition typed (text : string) : State :=
  mkState [] text false (persist []) [] 0 0 [] [].

(** The state after [text] was typed and sent and the timer of the
    submission has gone off, with the network down. *)
Definition session (text : string) : State :=
  let st := exec envOffline (handleSend text) (typed text) in
  match timers st with
  | (p, _) :: _ => exec envOffline (timeoutCallback (p_input p) (p_loading p)) st
  | [] => st
  end.

(** The transcript that the submission of [what is 2+2] leaves. *)
Definition transcript : list Message :=
  [ {| id := "x"; sender := User; content := "what is 2+2"; type := Text;
       pluginName := None; pluginData := JUndefined;
       timestamp := "2025-01-01T00:00:00.000Z" |};
    {| id := "xxx"; sender := Assistant; content := "Result: 4"; type := Plugin;
       pluginName := Some "calc"; pluginData := JNum (NInt 4);
       timestamp := "2025-01-01T00:00:00.000Z" |} ].

End Sample.

(* ================================================================== *)
(** ** Notions used in the statements *)
(* ================================================================== *)

Module Notions.
Import JsValue Chatbot.
Local Open Scope string_scope.

(** The message that [createMessage] returns when called in state [st]:
    the next id and the next reading of the clock. *)
Definition created (env : Env) (st : State) (sender : Sender) (content : string)
    (type : MsgType) (pluginName : option string) (pluginData : JsVal) : Message :=
  {| id := uuid env (draws st);
     sender := sender;
     content := content;
     type := type;
     pluginName := pluginName;
     pluginData := pluginData;
     timestamp := clock env (reads st) |}.

(** A plain assistant text. *)
Definition textReply (env : Env) (st : State) (content : string) : Message :=
  created env st Assistant content Text None JUndefined.

Definition calcReply (env : Env) (st : State) (n : Z) : Message :=
  created env st Assistant ("Result: " ++ toString (JNum (NInt n))) Plugin
    (Some "calc") (JNum (NInt n)).

(** The state after one reply [r] was appended and [loading] cleared. *)
Definition replied (st : State) (r : Message) : State :=
  mkState (messages st ++ [r])%list (input st) false
    (persist (messages st ++ [r])%list) (timers st)
    (S (draws st)) (S (reads st)) (requests st) (evals st).

(** The state after a request for [url] was issued. *)
Definition asked (st : State) (url : string) : State :=
  mkState (messages st) (input st) (loading st) (storage st) (timers st)
    (draws st) (reads st) (requests st ++ [url])%list (evals st).

(** The state after [e] was handed to the evaluator. *)
Definition evaluated (st : State) (e : string) : State :=
  mkState (messages st) (input st) (loading st) (storage st) (timers st)
    (draws st) (reads st) (requests st) (evals st ++ [e])%list.

(** The state after the placeholder with id [i] was filtered out. *)
Definition removed (st : State) (i : string) : State :=
  mkState (applyUpdate (RemoveId i) (messages st)) (input st) (loading st)
    (persist (applyUpdate (RemoveId i) (messages st))) (timers st)
    (draws st) (reads st) (requests st) (evals st).

(** The two messages of a submission of [text] in state [st], and the
    state that [handleSend] leaves. *)
Definition userMessage (env : Env) (st : State) (text : string) : Message :=
  created env st User text Text None JUndefined.

Definition placeholder (env : Env) (st : State) : Message :=
  {| id := uuid env (S (draws st));
     sender := Assistant;
     content := "Typing...";
     type := Text;
     pluginName := None;
     pluginData := JUndefined;
     timestamp := clock env (S (reads st)) |}.

Definition submitted (env : Env) (st : State) (text : string) : State :=
  let msgs := ((messages st ++ [userMessage env st text]) ++ [placeholder env st])%list in
  mkState msgs "" true (persist msgs)
    (timers st ++ [({| p_input := text; p_loading := placeholder env st |}, 2000)])%list
    (S (S (draws st))) (S (S (reads st))) (requests st) (evals st).

(** The optional plugin fields are present on plugin messages only. *)
Definition pluginOnly (m : Message) : Prop :=
  type m = Text -> pluginName m = None /\ pluginData m = JUndefined.

End Notions.

Module DefineNotions.
Import JsValue Chatbot.
Local Open Scope string_scope.

(** The bodies on which the chain of [/define] falls back on the
    default text. *)
Definition orDefault_cases (bodies : list JsVal) : Prop :=
  Forall (fun data =>
            option_map orDefault (definitionChain data)
            = Some (JStr "Definition not found")) bodies.

End DefineNotions.

(* ================================================================== *)
(** ** The invariant of the transcript *)
(* ================================================================== *)

Module Invariant.
Import JsValue Chatbot Notions.

(** Timestamps are compared as strings, code unit by code unit; on the
    renderings of [toISOString] for the years 0000 to 9999, which all
    have the same shape, that is the order of the instants. *)
Definition notAfter (a b : string) : Prop := String.leb a b = true.

Definition idsUnique (msgs : list Message) : Prop := NoDup (map id msgs).

Definition timeOrdered (msgs : list Message) : Prop :=
  Sorted notAfter (map timestamp msgs).

Definition pluginFieldsOnPlugins (msgs : list Message) : Prop :=
  Forall pluginOnly msgs.

(** What the component relies on from its environment: [uuidv4] never
    returns the same id twice, and the clock does not run backwards. *)
Definition uuidsDistinct (env : Env) : Prop :=
  forall i j : nat, uuid env i = uuid env j -> i = j.

Definition clockMonotone (env : Env) : Prop :=
  forall i j : nat, i <= j -> notAfter (clock env i) (clock env j).

(** The invariant of the spec, and how the state stands to the
    environment: the ids still to be drawn are not in the transcript,
    and no message is later than a reading still to be made. *)
Record Inv (env : Env) (st : State) : Prop := mkInv {
  inv_ids : idsUnique (messages st);
  inv_time : timeOrdered (messages st);
  inv_plugin : pluginFieldsOnPlugins (messages st);
  inv_fresh : forall j, draws st <= j -> ~ In (uuid env j) (map id (messages st));
  inv_past : forall j m, reads st <= j -> In m (messages st) ->
                         notAfter (timestamp m) (clock env j)
}.

End Invariant.

(* ================================================================== *)
(** ** The weather rule as the spec words it *)
(* ================================================================== *)

Module SpecWording.
Import Chatbot.
Local Open Scope string_scope.

(** The substring after the first occurrence of [sep] (all of the text
    after the phrase). *)
Fixpoint afterPhrase (sep s : string) : string :=
  if JsString.startsWith sep s then JsString.drop (String.length sep) s
  else match s with
       | EmptyString => EmptyString
       | String _ s' => afterPhrase sep s'
       end.

(** Trailing [?], [.] and [,] stripped, punctuation elsewhere kept. *)
Fixpoint stripTrailingPunct (s : string) : string :=
  match s with
  | EmptyString => EmptyString
  | String c s' =>
      let r := stripTrailingPunct s' in
      if JsString.isPunct c && JsString.isEmpty r then EmptyString else String c r
  end.

Definition weatherCommand (text : string) : string :=
  "/weather "
  ++ stripTrailingPunct
       (JsString.trim (afterPhrase phraseWeather (JsString.toLowerCase text))).

(** No occurrence of [sep] starts at one of the first [n] positions of
    [s]. *)
Definition noneWithin (sep : string) (n : nat) (s : string) : Prop :=
  forall k, k < n -> JsString.startsWith sep (JsString.drop k s) = false.

(** [lower] is [pre], the phrase, [piece] and [tail], where that
    occurrence of the phrase is the first one and [piece] runs up to the
    next occurrence or, when there is none, to the end. *)
Definition pieceAfterFirst (sep lower pre piece tail : string) : Prop :=
  lower = pre ++ sep ++ piece ++ tail
  /\ noneWithin sep (String.length pre) lower
  /\ noneWithin sep (String.length piece) (piece ++ tail)
  /\ (tail = EmptyString \/ JsString.startsWith sep tail = true).

End SpecWording.

(* ================================================================== *)
(** ** Values that JSON text carries *)
(* ================================================================== *)

Module Storable.
Import JsValue Chatbot.
Local Open Scope string_scope.

Definition laterKeyOk (k k' : string) : bool :=
  negb (String.eqb k k') &&
  match Json.arrayIndex k, Json.arrayIndex k' with
  | Some n, Some n' => (n <? n')%N
  | Some _, None => true
  | None, Some _ => false
  | None, None => true
  end.

(** Property keys in the order in which an object enumerates them: no
    key twice, the array indices first and ascending. *)
Fixpoint keysInOrder (ks : list string) : bool :=
  match ks with
  | [] => true
  | k :: ks' => forallb (laterKeyOk k) ks' && keysInOrder ks'
  end.

(** The values that JSON text denotes in the model: [null], booleans,
    integers within [maxSafe], strings, arrays of such values and
    objects of them with their keys in enumeration order.  Not among
    them: [undefined], NaN and the infinities. *)
Fixpoint jsonValue (v : JsVal) : bool :=
  match v with
  | JUndefined => false
  | JNull | JBool _ | JStr _ => true
  | JNum (NInt z) => safeInt z
  | JNum (NDec _ whole frac) => plainDecimal whole frac
  | JNum _ => false
  | JArr l => forallb jsonValue l
  | JObj o => forallb (fun kv => jsonValue (snd kv)) o && keysInOrder (map fst o)
  end.

(** A message that the storage slot can hold without loss: its payload
    is absent or is such a value. *)
Definition storable (m : Message) : Prop :=
  pluginData m = JUndefined \/ jsonValue (pluginData m) = true.

(** A bound on the depth of the calls of [Json.parseValue] on the text
    of [v]. *)
Fixpoint weight (v : JsVal) : nat :=
  match v with
  | JArr l => S (list_sum (map (fun x => S (weight x)) l))
  | JObj o => S (list_sum (map (fun kv => S (weight (snd kv))) o))
  | _ => 1
  end.

Definition payloadMembers (d : JsVal) : list (string * JsVal) :=
  match d with
  | JUndefined => []
  | _ => [("pluginData", d)]
  end.

(** The own properties of a message that hold a value: what
    [JSON.stringify] writes and [JSON.parse] gives back. *)
Definition messageJson (m : Message) : JsVal :=
  JObj ([("id", JStr (id m));
         ("sender", JStr (senderName (sender m)));
         ("content", JStr (content m));
         ("type", JStr (typeName (type m)))]
        ++ match pluginName m with Some n => [("pluginName", JStr n)] | None => [] end
        ++ payloadMembers (pluginData m)
        ++ [("timestamp", JStr (timestamp m))])%list.

(** The text of a value that [jsonValue] accepts. *)
Definition textOf (v : JsVal) : list ascii :=
  match Json.serialize v with Some t => t | None => [] end.

(** The next character ends a value inside an array or an object, or
    the text is over. *)
Definition closes (rest : list ascii) : bool :=
  match rest with
  | [] => true
  | c :: _ => let n := JsString.code c in
              (n =? 44)%nat || (n =? 93)%nat || (n =? 125)%nat
  end.

Definition noDigit (rest : list ascii) : bool :=
  match rest with
  | [] => true
  | c :: _ => negb (JsString.between 48 57 (JsString.code c))
  end.

(** What [serialize] writes for an element and for a member. *)
Definition elemText (x : JsVal) : list ascii := Json.element Json.serialize x.

Definition memberText (kv : string * JsVal) : list ascii :=
  (Json.quote (fst kv) ++ ":"%char :: textOf (snd kv))%list.

(** A text that begins with the first character of a value: not white
    space, not a closing bracket or brace. *)
Definition startsValue (t : list ascii) : Prop :=
  exists c t', t = c :: t' /\ Json.isJsonWs c = false
               /\ (JsString.code c =? 93)%nat = false
               /\ (JsString.code c =? 125)%nat = false.

(** [v] is read back from its text, whatever follows the text, with
    any fuel from [weight v] on. *)
Definition ReadsBack (v : JsVal) : Prop :=
  forall fuel rest, weight v <= fuel -> closes rest = true ->
    Json.parseValue fuel (textOf v ++ rest)%list = Json.Ok (v, rest).

End Storable.

(* ================================================================== *)
(** ** The view and its events *)
(* ================================================================== *)

Module View.
Import JsValue Chatbot.
Local Open Scope string_scope.

Inductive Side : Type := OnLeft | OnRight.

(** One message as [messages.map] renders it: the [key], whether the
    avatar stands before the bubble ([msg.sender != "user"]), the side of
    the bubble ([msg.sender === 'user'] puts it on the right), the text,
    and the timestamp that [new Date(...)] turns into the local time. *)
Record Row : Type := mkRow {
  r_key : string;
  r_avatar : bool;
  r_side : Side;
  r_content : string;
  r_time : string
}.

Definition row (msg : Message) : Row :=
  {| r_key := id msg;
     r_avatar := match sender msg with User => false | Assistant => true end;
     r_side := match sender msg with User => OnRight | Assistant => OnLeft end;
     r_content := content msg;
     r_time := timestamp msg |}.

(** The scrolling area: the notice when [messages.length == 0], the
    rows otherwise. *)
Inductive Body : Type :=
| Notice (text : string)
| Rows (rows : list Row).

(** What the JSX returns, as far as the state decides it: the scrolling
    area, and the [value] and [disabled] of the input and the [disabled]
    of the button. *)
Record Screen : Type := mkScreen {
  body : Body;
  inputValue : string;
  inputDisabled : bool;
  buttonDisabled : bool
}.

Definition render (st : State) : Screen :=
  {| body := if (List.length (messages st) =? 0)%nat
             then Notice "No messages yet."
             else Rows (map row (messages st));
     inputValue := input st;
     inputDisabled := loading st;
     buttonDisabled := loading st |}.

(** [handleKeyPress], with the [input] of the render it closes over. *)
Definition handleKeyPress (key : string) (input : string) : Prog unit :=
  if String.eqb key "Enter" then handleSend input else Ret tt.

(** [onChange={(e) => setInput(e.target.value)}] *)
Definition onChange (value : string) : Prog unit := setInput value.

(** What can happen to the mounted component: the user changes the
    text of the input, presses a key in it, clicks the button, or the
    timer at place [n] of the pending ones goes off. *)
Inductive Event : Type :=
| Change (value : string)
| KeyDown (key : string)
| Click
| TimerFires (n : nat).

Definition withTimers (st : State) (ts : list (Pending * nat)) : State :=
  mkState (messages st) (input st) (loading st) (storage st) ts
    (draws st) (reads st) (requests st) (evals st).

(** The state after an event; [None] when the event cannot happen: a
    disabled control receives none, and a timer that is not pending does
    not go off. *)
Definition fire (env : Env) (e : Event) (st : State) : option State :=
  match e with
  | Change value =>
      if inputDisabled (render st) then None
      else Some (exec env (onChange value) st)
  | KeyDown key =>
      if inputDisabled (render st) then None
      else Some (exec env (handleKeyPress key (input st)) st)
  | Click =>
      if buttonDisabled (render st) then None
      else Some (exec env (handleSend (input st)) st)
  | TimerFires n =>
      match nth_error (timers st) n with
      | Some (p, _) =>
          Some (exec env (timeoutCallback (p_input p) (p_loading p))
                  (withTimers st (firstn n (timers st) ++ skipn (S n) (timers st))))
      | None => None
      end
  end.

(** The states that a component mounted on the transcript [msgs] goes
    through. *)
Inductive reachable (env : Env) (msgs : list Message) : State -> Prop :=
| reach_mounted : reachable env msgs (mounted msgs)
| reach_step (st st' : State) :
    reachable env msgs st -> step env st st' -> reachable env msgs st'.

(** The ids of the pending placeholders are ids that [uuidv4] gave. *)
Definition pendingDrawn (env : Env) (st : State) : Prop :=
  forall p d, In (p, d) (timers st) -> exists j, id (p_loading p) = uuid env j.

End View.

(* ================================================================== *)
(** ** What the storage slot keeps of a value *)
(* ================================================================== *)

Module Image.
Import JsValue Chatbot Storable.
Local Open Scope string_scope.

(** The runtime values of the model: the numbers that [JsNum] stands
    for, and objects whose keys are in enumeration order. *)
Fixpoint modelled (v : JsVal) : bool :=
  match v with
  | JNum (NInt z) => safeInt z
  | JNum (NDec _ whole frac) => plainDecimal whole frac
  | JArr l => forallb modelled l
  | JObj o => forallb (fun kv => modelled (snd kv)) o && keysInOrder (map fst o)
  | _ => true
  end.

(** An element of an array as JSON text keeps it: [undefined] is
    written as [null]. *)
Definition imageElement (img : JsVal -> JsVal) (x : JsVal) : JsVal :=
  match x with
  | JUndefined => JNull
  | _ => img x
  end.

(** The properties of an object as JSON text keeps them: one that holds
    [undefined] is not written. *)
Definition imageMembers (img : JsVal -> JsVal)
  : list (string * JsVal) -> list (string * JsVal) :=
  fix go (o : list (string * JsVal)) : list (string * JsVal) :=
    match o with
    | [] => []
    | (k, x) :: o' =>
        match x with
        | JUndefined => go o'
        | _ => (k, img x) :: go o'
        end
    end.

(** A value as JSON text keeps it: NaN and the infinities are written
    as [null]. *)
Fixpoint image (v : JsVal) : JsVal :=
  match v with
  | JNum NNaN | JNum (NInf _) => JNull
  | JArr l => JArr (map (imageElement image) l)
  | JObj o => JObj (imageMembers image o)
  | _ => v
  end.

Definition imageMessage (m : Message) : Message :=
  {| id := id m; sender := sender m; content := content m; type := type m;
     pluginName := pluginName m; pluginData := image (pluginData m);
     timestamp := timestamp m |}.

Definition payloadModelled (m : Message) : Prop := modelled (pluginData m) = true.

(** The state of a component that is mounted on the slot that [st]
    leaves behind. *)
Definition reload (st : State) : Init := initialMessages (storage st).

(** An environment whose payloads and script results are values of the
    model. *)
Definition envModelled (env : Env) : Prop :=
  (forall n url data, http env n url = Resolved data -> modelled data = true)
  /\ (forall n e v, script env n e = Calc.Normal v -> modelled v = true).

End Image.

(* ================================================================== *)
(** ** The payloads of the requests *)
(* ================================================================== *)

Module Payload.
Import JsValue Chatbot Notions.
Local Open Scope string_scope.

(** The value of [v.name], [undefined] where the read would throw. *)
Definition fieldOf (name : string) (v : JsVal) : JsVal :=
  match getProp v name with
  | Some x => x
  | None => JUndefined
  end.

(** The value of [v[0]], [undefined] where the read would throw. *)
Definition firstOf (v : JsVal) : JsVal :=
  match getIndex0 v with
  | Some x => x
  | None => JUndefined
  end.

(** A weather payload with a first element of [weather] and with
    [main], neither [null] nor [undefined]. *)
Definition weatherReadable (w : JsVal) : bool :=
  negb (nullish (firstOf (fieldOf "weather" w))) && negb (nullish (fieldOf "main" w)).

Definition weatherText (city : string) (w : JsVal) : string :=
  "Weather in " ++ city ++ ": "
  ++ toString (fieldOf "description" (firstOf (fieldOf "weather" w))) ++ ", "
  ++ toString (fieldOf "temp" (fieldOf "main" w)) ++ degree ++ "C".

(** The reply of the weather branch to the outcome of its request. *)
Definition weatherReply (env : Env) (st : State) (city : string) (res : HttpResult)
  : Message :=
  match res with
  | Resolved w =>
      if weatherReadable w
      then created env st Assistant (weatherText city w) Plugin (Some "weather") w
      else textReply env st "City not found or API error."
  | Rejected => textReply env st "City not found or API error."
  end.

(** The bodies on which the chain of [/define] throws although the
    request succeeded: no body; a first entry without [meanings]; a first
    meaning without [definitions]. *)
Definition defineThrows (data : JsVal) : bool :=
  let entry := firstOf data in
  let meaning := firstOf (fieldOf "meanings" entry) in
  nullish data
  || negb (nullish entry)
     && (nullish (fieldOf "meanings" entry)
         || negb (nullish meaning) && nullish (fieldOf "definitions" meaning)).

End Payload.

(* ================================================================== *)
(** ** One operation on two literals *)
(* ================================================================== *)

Module Arith.
Import JsValue Chatbot Notions.
Local Open Scope string_scope.

Definition opChar (op : Calc.BinOp) : ascii :=
  match op with
  | Calc.Add => "+"%char
  | Calc.Sub => "-"%char
  | Calc.Mul => "*"%char
  | Calc.Div => "/"%char
  end.

(** The text of [a op b] with [a] and [b] written in decimal. *)
Definition binaryText (op : Calc.BinOp) (a b : N) : string :=
  string_of_list_ascii
    (uintChars (N.to_uint a) ++ opChar op :: uintChars (N.to_uint b)).

(** The exact value of [a op b]. *)
Definition valueOf (op : Calc.BinOp) (a b : N) : Z :=
  match op with
  | Calc.Add => Z.of_N a + Z.of_N b
  | Calc.Sub => Z.of_N a - Z.of_N b
  | Calc.Mul => Z.of_N a * Z.of_N b
  | Calc.Div => Z.of_N a / Z.of_N b
  end.

(** The operands and the value are integers that a double holds
    exactly, and a division leaves no remainder. *)
Definition exactOperation (op : Calc.BinOp) (a b : N) : Prop :=
  (Z.of_N a <= maxSafe)%Z /\ (Z.of_N b <= maxSafe)%Z
  /\ (Z.abs (valueOf op a b) <= maxSafe)%Z
  /\ (op = Calc.Div -> b <> 0%N /\ (Z.of_N a mod Z.of_N b = 0)%Z).

(** The reply of the calculator with the number [n]. *)
Definition numberReply (env : Env) (st : State) (n : JsNum) : Message :=
  created env st Assistant ("Result: " ++ numToString n) Plugin (Some "calc") (JNum n).

(** The token of an operator. *)
Definition opToken (op : Calc.BinOp) : Calc.Token :=
  match op with
  | Calc.Add => Calc.TPlus
  | Calc.Sub => Calc.TMinus
  | Calc.Mul => Calc.TStar
  | Calc.Div => Calc.TSlash
  end.

End Arith.

(* ================================================================== *)
(** ** The shape of a session *)
(* ================================================================== *)

Module Conversation.
Import JsValue Chatbot Invariant.
Local Open Scope string_scope.

(** A transcript made of exchanges: a message of the user, then one of
    the assistant. *)
Inductive paired : list Message -> Prop :=
| paired_nil : paired []
| paired_snoc (l : list Message) (u r : Message) :
    paired l -> sender u = User -> sender r = Assistant ->
    paired (l ++ [u; r])%list.

(** A transcript that waits for the reply to its last exchange: the
    message of the user with the text [text], then the placeholder [t]. *)
Definition awaiting (msgs : list Message) (text : string) (t : Message) : Prop :=
  exists (l : list Message) (u : Message),
    msgs = (l ++ [u; t])%list /\ paired l
    /\ sender u = User /\ content u = text
    /\ sender t = Assistant /\ content t = "Typing...".

(** The ids of the transcript are distinct and none of them is among
    those still to be drawn. *)
Definition idsFresh (env : Env) (st : State) : Prop :=
  idsUnique (messages st)
  /\ forall j, draws st <= j -> ~ In (uuid env j) (map id (messages st)).

End Conversation.

(* ================================================================== *)
(** ** Lower case *)
(* ================================================================== *)

Module LowerCase.

(** A pattern whose code units the fold of the [i] flag leaves
    below 128. *)
Fixpoint asciiPattern (p : string) : bool :=
  match p with
  | EmptyString => true
  | String c p' => (JsString.code (JsString.canon c) <? 128)%nat && asciiPattern p'
  end.

(** A string that [toLowerCase] leaves as it is. *)
Definition lowered (s : string) : Prop := JsString.toLowerCase s = s.

End LowerCase.

(* ================================================================== *)
(** ** Sample inputs *)
(* ================================================================== *)

Module Scenario.
Import JsValue Chatbot.
Local Open Scope string_scope.

(** A component mounted on [msgs], with [text] typed into the input. *)
Definition composed (msgs : list Message) (text : string) : State :=
  mkState msgs text false (persist msgs) [] 0 0 [] [].

(** The same after the button was clicked. *)
Definition sent (env : Env) (msgs : list Message) (text : string) : State :=
  exec env (handleSend text) (composed msgs text).

(** A message of an earlier session. *)
Definition stored : Message :=
  {| id := "stored"; sender := User; content := "hello"; type := Text;
     pluginName := None; pluginData := JUndefined;
     timestamp := "2024-12-31T23:59:59.000Z" |}.

(** The reply to [/calc 1/0]. *)
Definition infinite : Message :=
  {| id := "xxx"; sender := Assistant; content := "Result: Infinity"; type := Plugin;
     pluginName := Some "calc"; pluginData := JNum (NInf false);
     timestamp := "2025-01-01T00:00:00.000Z" |}.

Definition weatherBody : JsVal :=
  JObj [("weather", JArr [JObj [("description", JStr "clear sky")]]);
        ("main", JObj [("temp", JNum (NInt 21))])].

Definition dictionaryEntry : list (string * JsVal) :=
  [("word", JStr "test");
   ("meanings",
    JArr [JObj [("definitions", JArr [JObj [("definition", JStr "a trial")]])]])].

End Scenario.

(* ================================================================== *)
(** ** Properties *)
(* ================================================================== *)

Import JsValue Chatbot Notions DefineNotions Invariant SpecWording Storable.

(** *** Submitting a blank input *)

(** C10: when the input trims to the empty string, [handleSend] is the
    program that does nothing: run from any state, in any environment, it
    leaves the whole state (the transcript, the input, the loading flag,
    the storage slot, the timers) as it was. *)
Theorem handleSend_blank_is_noop (env : Env) (st : State) (text : string) :
  JsString.trim text = EmptyString ->
  handleSend text = Ret tt /\ exec env (handleSend text) st = st.
Proof.
  intros Hblank.
  assert (Hprog : handleSend text = Ret tt).
  { unfold handleSend. rewrite Hblank. reflexivity. }
  split; [exact Hprog|].
  rewrite Hprog. reflexivity.
Qed.

Lemma handleSend_blank_is_noop_witness :
  JsString.trim "   " = EmptyString
  /\ handleSend "   " = Ret tt
  /\ exec Sample.envOffline (handleSend "   ") (Sample.typed "   ") = Sample.typed "   ".
Proof.
  split; [reflexivity|].
  apply (handleSend_blank_is_noop Sample.envOffline (Sample.typed "   ") "   ").
  reflexivity.
Defined.

(** *** The storage initialiser *)

Lemma initialMessages_absent : initialMessages None = Loaded [].
Proof. reflexivity. Qed.

Lemma initialMessages_empty_string : initialMessages (Some EmptyString) = Loaded [].
Proof. reflexivity. Qed.

(** C1 (the code at the failing input): with the slot holding text that is
    not JSON, here an opening brace, the initialiser does not start from
    the empty sequence: [JSON.parse] throws its SyntaxError and nothing
    catches it.  Only the absent slot (and the empty string) start
    empty. *)
Theorem initialMessages_corrupt_throws :
  initialMessages (Some "{") = ThrowsSyntaxError
  /\ initialMessages (Some "{") <> Loaded []
  /\ initialMessages None = Loaded [].
Proof.
  split; [vm_compute; reflexivity|].
  split; [vm_compute; discriminate|reflexivity].
Qed.

(** *** The rewriting of a question into a calculation *)

(** C4, as the spec words it, fails: the rewriting of [what is 2+2] is not
    the command with two spaces after [/calc]. *)
Lemma rewrite_what_is_not_two_spaces :
  parseNaturalLanguage "what is 2+2" <> Some "/calc  2+2".
Proof. vm_compute. discriminate. Qed.

(** C4, amended: the expression is trimmed after the phrase is removed, so
    the rewriting of [what is 2+2] is [/calc 2+2] with one space; the
    calculator branch, on that command as on the one with two spaces,
    appends the plugin message with content [Result: 4], in every
    environment and from every state. *)
Theorem rewrite_what_is_then_calc (env : Env) (st : State) :
  parseNaturalLanguage "what is 2+2" = Some "/calc 2+2"
  /\ commandOf "what is 2+2" = "/calc 2+2"
  /\ messages (exec env (dispatch "/calc 2+2") st) = messages st ++ [calcReply env st 4]
  /\ messages (exec env (dispatch "/calc  2+2") st) = messages st ++ [calcReply env st 4]
  /\ content (calcReply env st 4) = "Result: 4"
  /\ type (calcReply env st 4) = Plugin.
Proof.
  repeat split; reflexivity.
Qed.

(** *** The dispatch chain *)

Lemma exec_reply (env : Env) (st : State) (s : Sender) (c : string) (t : MsgType)
    (pn : option string) (pd : JsVal) :
  exec env (respond (createMessage s c t pn pd) ;;; setLoading false) st
  = replied st (created env st s c t pn pd).
Proof. reflexivity. Qed.

Lemma created_pluginOnly_text (env : Env) (st : State) (s : Sender) (c : string) :
  pluginOnly (created env st s c Text None JUndefined).
Proof. intros _. split; reflexivity. Qed.

Lemma created_pluginOnly_plugin (env : Env) (st : State) (s : Sender) (c : string)
    (pn : option string) (pd : JsVal) :
  pluginOnly (created env st s c Plugin pn pd).
Proof. intros H. discriminate H. Qed.

(** Every branch of the chain ends by appending one assistant message,
    made by [createMessage] at that moment, and clearing [loading]; before
    that it issues at most one request or one evaluation. *)
Lemma dispatch_replies (env : Env) (st : State) (command : string) :
  exists (st' : State) (c : string) (t : MsgType) (pn : option string) (pd : JsVal),
    exec env (dispatch command) st = replied st' (created env st Assistant c t pn pd)
    /\ (st' = st \/ (exists url, st' = asked st url) \/ (exists e, st' = evaluated st e))
    /\ pluginOnly (created env st Assistant c t pn pd).
Proof.
  unfold dispatch.
  destruct (JsString.startsWith "/weather" command).
  { destruct (JsString.isEmpty _).
    - exists st. do 4 eexists. rewrite exec_reply.
      split; [reflexivity|]. split; [now left|apply created_pluginOnly_text].
    - match goal with |- context [HttpGet ?u _] => exists (asked st u) end.
      unfold exec; cbn [run].
      destruct (http env _ _) as [weather|].
      + destruct (weatherContent _ weather).
        * do 4 eexists. split; [reflexivity|].
          split; [right; left; eexists; reflexivity|apply created_pluginOnly_plugin].
        * do 4 eexists. split; [reflexivity|].
          split; [right; left; eexists; reflexivity|apply created_pluginOnly_text].
      + do 4 eexists. split; [reflexivity|].
        split; [right; left; eexists; reflexivity|apply created_pluginOnly_text]. }
  destruct (JsString.startsWith "/calc" command).
  { match goal with |- context [EvalJs ?e _] => exists (evaluated st e) end.
    unfold exec; cbn [run].
    destruct (evalJs env _ _) as [result|].
    - do 4 eexists. split; [reflexivity|].
      split; [right; right; eexists; reflexivity|apply created_pluginOnly_plugin].
    - do 4 eexists. split; [reflexivity|].
      split; [right; right; eexists; reflexivity|apply created_pluginOnly_text]. }
  destruct (JsString.startsWith "/define" command).
  { match goal with |- context [HttpGet ?u _] => exists (asked st u) end.
    unfold exec; cbn [run].
    destruct (http env _ _) as [data|].
    - destruct (definitionChain data).
      + do 4 eexists. split; [reflexivity|].
        split; [right; left; eexists; reflexivity|apply created_pluginOnly_plugin].
      + do 4 eexists. split; [reflexivity|].
        split; [right; left; eexists; reflexivity|apply created_pluginOnly_text].
    - do 4 eexists. split; [reflexivity|].
      split; [right; left; eexists; reflexivity|apply created_pluginOnly_text]. }
  exists st. do 4 eexists. rewrite exec_reply.
  split; [reflexivity|]. split; [now left|apply created_pluginOnly_text].
Qed.

Lemma isEmpty_true (s : string) : JsString.isEmpty s = true <-> s = EmptyString.
Proof. destruct s; simpl; split; intros H; try reflexivity; discriminate. Qed.

Lemma isEmpty_false (s : string) : JsString.isEmpty s = false <-> s <> EmptyString.
Proof. destruct s; simpl; split; intros H; try reflexivity; try discriminate; congruence. Qed.



(** C9: a command that starts with none of [/weather], [/calc], [/define]
    gets the assistant text [Unrecognized command.], with no request and no
    evaluation.  The test is on the prefix alone: [/calculator] is not
    rewritten, starts with [/calc], and is dispatched to the calculator,
    which evaluates what follows the prefix, [ulator]; whatever the
    evaluation gives, the reply is not [Unrecognized command.]. *)
Theorem dispatch_by_prefix_alone (env : Env) (st : State) (command : string) :
  JsString.startsWith "/weather" command = false ->
  JsString.startsWith "/calc" command = false ->
  JsString.startsWith "/define" command = false ->
  exec env (dispatch command) st = replied st (textReply env st "Unrecognized command.")
  /\ commandOf "/calculator" = "/calculator"
  /\ (exists k, dispatch "/calculator" = EvalJs "ulator" k)
  /\ (exists r : Message,
        exec env (dispatch "/calculator") st = replied (evaluated st "ulator") r
        /\ content r <> "Unrecognized command.").
Proof.
  intros Hw Hc Hd. split.
  { unfold dispatch. rewrite Hw, Hc, Hd. apply exec_reply. }
  split; [reflexivity|].
  split; [eexists; reflexivity|].
  unfold dispatch, exec. cbn [JsString.startsWith String.prefix Ascii.ascii_dec
    ascii_rec ascii_rect Bool.bool_dec bool_rec bool_rect sumbool_rec sumbool_rect].
  change (JsString.trim (JsString.replaceFirst "/calc" "/calculator")) with "ulator".
  cbn [run].
  destruct (evalJs env _ _) as [result|]; eexists; (split; [reflexivity|]).
  - cbn [content created]. intros H. discriminate H.
  - cbn [content created]. intros H. discriminate H.
Qed.

Lemma dispatch_by_prefix_alone_witness :
  exec Sample.envOffline (dispatch "hello") (Sample.typed "")
  = replied (Sample.typed "")
      (textReply Sample.envOffline (Sample.typed "") "Unrecognized command.").
Proof.
  apply (dispatch_by_prefix_alone Sample.envOffline (Sample.typed "") "hello");
    reflexivity.
Defined.

(** *** The dictionary branch *)

(** C6 (the code at the failing input): the lookup for [/define test]
    succeeds and its body is an array whose first entry has no [meanings].
    The chain reads [meanings[0]] of that entry without a guard, the
    TypeError lands in the [catch], and the reply is the assistant text
    [Error fetching definition], not the plugin message with
    [Definition not found]. *)
Theorem define_entry_without_meanings (st : State) :
  let env := Sample.envResolving (JArr [JObj []]) in
  http env (List.length (requests st)) (defineUrl "test") = Resolved (JArr [JObj []])
  /\ definitionChain (JArr [JObj []]) = None
  /\ exec env (dispatch "/define test") st
     = replied (asked st (defineUrl "test"))
         (textReply env st "Error fetching definition").
Proof.
  repeat split; reflexivity.
Qed.

(** Where the default does apply: no entry, an entry with no meaning, a
    meaning with no definition, a definition without the field. *)
Lemma definitionChain_defaults :
  orDefault_cases
    [JArr []; JArr [JObj [("meanings", JArr [])]];
     JArr [JObj [("meanings", JArr [JObj [("definitions", JArr [])]])]];
     JArr [JObj [("meanings", JArr [JObj [("definitions", JArr [JObj []])]])]]].
Proof. repeat constructor. Qed.

(** *** The order of timestamps *)

Lemma ascii_compare_refl (a : ascii) : Ascii.compare a a = Eq.
Proof. unfold Ascii.compare. apply N.compare_refl. Qed.

Lemma string_compare_refl (s : string) : String.compare s s = Eq.
Proof.
  induction s as [|a s IH]; simpl; [reflexivity|].
  rewrite ascii_compare_refl. exact IH.
Qed.

Lemma notAfter_refl (s : string) : notAfter s s.
Proof. unfold notAfter, String.leb. rewrite string_compare_refl. reflexivity. Qed.

Lemma string_compare_trans (s1 s2 s3 : string) :
  String.compare s1 s2 = Lt -> String.compare s2 s3 = Lt -> String.compare s1 s3 = Lt.
Proof.
  revert s2 s3. induction s1 as [|a1 s1 IH]; intros [|a2 s2] [|a3 s3]; simpl;
    try congruence.
  unfold Ascii.compare.
  destruct (N.compare_spec (N_of_ascii a1) (N_of_ascii a2)) as [E12|L12|G12];
    destruct (N.compare_spec (N_of_ascii a2) (N_of_ascii a3)) as [E23|L23|G23];
    intros H1 H2; try discriminate.
  - rewrite E12, E23, N.compare_refl. eapply IH; eauto.
  - rewrite E12. apply N.compare_lt_iff in L23. rewrite L23. reflexivity.
  - rewrite <- E23. apply N.compare_lt_iff in L12. rewrite L12. reflexivity.
  - assert (L : (N_of_ascii a1 < N_of_ascii a3)%N) by lia.
    apply N.compare_lt_iff in L. rewrite L. reflexivity.
Qed.

Lemma notAfter_trans (s1 s2 s3 : string) :
  notAfter s1 s2 -> notAfter s2 s3 -> notAfter s1 s3.
Proof.
  unfold notAfter, String.leb. intros H12 H23.
  destruct (String.compare s1 s2) eqn:E12; try discriminate;
    destruct (String.compare s2 s3) eqn:E23; try discriminate.
  - apply String.compare_eq_iff in E12. subst. rewrite E23. reflexivity.
  - apply String.compare_eq_iff in E12. subst. rewrite E23. reflexivity.
  - apply String.compare_eq_iff in E23. subst. rewrite E12. reflexivity.
  - rewrite (string_compare_trans s1 s2 s3 E12 E23). reflexivity.
Qed.

(** *** What a submission and its timer do to the state *)

Lemma exec_handleSend (env : Env) (st : State) (text : string) :
  JsString.trim text <> EmptyString ->
  exec env (handleSend text) st = submitted env st text.
Proof.
  intros H. apply isEmpty_false in H. unfold handleSend. rewrite H. reflexivity.
Qed.

Lemma exec_handleSend_blank (env : Env) (st : State) (text : string) :
  JsString.trim text = EmptyString ->
  exec env (handleSend text) st = st.
Proof.
  intros H. unfold handleSend. rewrite H. reflexivity.
Qed.

Lemma exec_timeoutCallback (env : Env) (st : State) (text : string) (lm : Message) :
  exec env (timeoutCallback text lm) st
  = exec env (dispatch (commandOf text)) (removed st (id lm)).
Proof. reflexivity. Qed.

(** *** Lists: filtering and appending under the invariant *)

Lemma in_map_filter {A B : Type} (f : A -> B) (p : A -> bool) (l : list A) (y : B) :
  In y (map f (filter p l)) -> In y (map f l).
Proof.
  rewrite !in_map_iff. intros (x & Hx & Hin). apply filter_In in Hin.
  exists x. tauto.
Qed.

Lemma idsUnique_filter (keep : Message -> bool) (msgs : list Message) :
  idsUnique msgs -> idsUnique (filter keep msgs).
Proof.
  unfold idsUnique. intros Hunique.
  induction msgs as [|m msgs IH]; simpl in *; [constructor|].
  apply NoDup_cons_iff in Hunique. destruct Hunique as [Hnew Hrest].
  destruct (keep m); simpl; [|now apply IH].
  apply NoDup_cons_iff. split; [|now apply IH].
  intros Hin. apply Hnew. eapply in_map_filter; eauto.
Qed.

Lemma NoDup_snoc {A : Type} (l : list A) (x : A) :
  NoDup l -> ~ In x l -> NoDup (l ++ [x]).
Proof.
  intros Hl Hx. apply NoDup_app; auto.
  - repeat constructor. simpl. tauto.
  - intros y Hy [->|[]]. contradiction.
Qed.

Section Ordered.
Variables (A : Type) (R : A -> A -> Prop).
Hypothesis R_trans : forall x y z, R x y -> R y z -> R x z.

Lemma Sorted_strongly (l : list A) : Sorted R l -> StronglySorted R l.
Proof.
  apply Sorted_StronglySorted. intros x y z. apply R_trans.
Qed.

Lemma StronglySorted_filter (p : A -> bool) (l : list A) :
  StronglySorted R l -> StronglySorted R (filter p l).
Proof.
  induction 1 as [|x l Hl IH Hall]; simpl; [constructor|].
  destruct (p x); auto. constructor; auto.
  rewrite Forall_forall in *. intros y Hy. apply filter_In in Hy. apply Hall, Hy.
Qed.

Lemma StronglySorted_snoc (l : list A) (y : A) :
  StronglySorted R l -> (forall x, In x l -> R x y) -> StronglySorted R (l ++ [y]).
Proof.
  induction 1 as [|x l Hl IH Hall]; simpl; intros Hy.
  - repeat constructor.
  - constructor.
    + apply IH. intros z Hz. apply Hy. now right.
    + rewrite Forall_forall in *. intros z Hz. apply in_app_or in Hz.
      destruct Hz as [Hz|[<-|[]]]; [apply Hall, Hz|apply Hy; now left].
Qed.
End Ordered.

Lemma map_filter_sorted (p : Message -> bool) (l : list Message) :
  Sorted notAfter (map timestamp l) -> Sorted notAfter (map timestamp (filter p l)).
Proof.
  intros H. apply Sorted_strongly in H; [|exact notAfter_trans].
  apply StronglySorted_Sorted.
  induction l as [|x l IH]; simpl in *; [constructor|].
  inversion H as [|? ? Hl Hall]; subst.
  destruct (p x); simpl; auto. constructor; auto.
  rewrite Forall_forall in *. intros y Hy. apply Hall. eapply in_map_filter; eauto.
Qed.

Section Preservation.
Variable env : Env.
Hypothesis ids_distinct : uuidsDistinct env.
Hypothesis clock_monotone : clockMonotone env.

Lemma Inv_ext (st st' : State) :
  messages st' = messages st -> draws st' = draws st -> reads st' = reads st ->
  Inv env st -> Inv env st'.
Proof.
  intros Hm Hd Hr [H1 H2 H3 H4 H5].
  constructor; rewrite ?Hm, ?Hd, ?Hr; auto.
Qed.

Lemma Inv_removed (st : State) (i : string) : Inv env st -> Inv env (removed st i).
Proof.
  intros [H1 H2 H3 H4 H5]. constructor; simpl.
  - apply idsUnique_filter, H1.
  - apply map_filter_sorted, H2.
  - unfold pluginFieldsOnPlugins in *. rewrite Forall_forall in *.
    intros m Hm. apply filter_In in Hm. apply H3, Hm.
  - intros j Hj Hin. apply (H4 j Hj). eapply in_map_filter; eauto.
  - intros j m Hj Hin. apply filter_In in Hin. apply (H5 j m Hj), Hin.
Qed.

Lemma Inv_append (st st' : State) (m : Message) :
  Inv env st ->
  id m = uuid env (draws st) -> timestamp m = clock env (reads st) -> pluginOnly m ->
  messages st' = messages st ++ [m] ->
  draws st' = S (draws st) -> reads st' = S (reads st) ->
  Inv env st'.
Proof.
  intros [H1 H2 H3 H4 H5] Hid Hts Hplug Hm Hd Hr.
  constructor; rewrite ?Hm, ?Hd, ?Hr.
  - unfold idsUnique. rewrite map_app. simpl. apply NoDup_snoc; auto.
    rewrite Hid. apply H4. lia.
  - unfold timeOrdered. rewrite map_app. simpl.
    apply StronglySorted_Sorted, StronglySorted_snoc.
    + apply Sorted_strongly; [exact notAfter_trans|exact H2].
    + intros x Hx. apply in_map_iff in Hx. destruct Hx as (m0 & <- & Hin).
      rewrite Hts. apply (H5 _ m0); [lia|exact Hin].
  - apply Forall_app. split; [exact H3|]. constructor; [exact Hplug|constructor].
  - intros j Hj. rewrite map_app, in_app_iff. simpl. intros [Hin|[Heq|[]]].
    + apply (H4 j); [lia|exact Hin].
    + rewrite Hid in Heq. apply ids_distinct in Heq. lia.
  - intros j m0 Hj Hin. apply in_app_or in Hin. destruct Hin as [Hin|[<-|[]]].
    + apply (H5 j m0); [lia|exact Hin].
    + rewrite Hts. apply clock_monotone. lia.
Qed.

Lemma Inv_replied (st st0 : State) (c : string) (t : MsgType) (pn : option string)
    (pd : JsVal) :
  Inv env st ->
  st0 = st \/ (exists url, st0 = asked st url) \/ (exists e, st0 = evaluated st e) ->
  pluginOnly (created env st Assistant c t pn pd) ->
  Inv env (replied st0 (created env st Assistant c t pn pd)).
Proof.
  intros HI Hst0 Hplug.
  apply (Inv_append st _ (created env st Assistant c t pn pd)); auto;
    destruct Hst0 as [->|[[url ->]|[e ->]]]; reflexivity.
Qed.

Lemma Inv_submitted (st : State) (text : string) :
  Inv env st -> Inv env (submitted env st text).
Proof.
  intros HI.
  set (st1 := replied st (userMessage env st text)).
  assert (H1 : Inv env st1).
  { apply (Inv_append st _ (userMessage env st text)); auto; try reflexivity.
    apply created_pluginOnly_text. }
  apply (Inv_append st1 _ (placeholder env st)); auto; try reflexivity.
  intros _. split; reflexivity.
Qed.

Lemma Inv_step (st st' : State) : Inv env st -> step env st st' -> Inv env st'.
Proof.
  intros HI Hstep. destruct Hstep as [st text _|st _|st before after p d Htimers].
  - revert HI. apply Inv_ext; reflexivity.
  - destruct (string_dec (JsString.trim (input st)) EmptyString) as [Hblank|Hfull].
    + rewrite exec_handleSend_blank by exact Hblank. exact HI.
    + rewrite exec_handleSend by exact Hfull. apply Inv_submitted, HI.
  - rewrite exec_timeoutCallback.
    match goal with |- context [removed ?s _] => set (st0 := s) end.
    assert (H0 : Inv env st0) by (revert HI; apply Inv_ext; reflexivity).
    apply (Inv_removed _ (id (p_loading p))) in H0.
    destruct (dispatch_replies env (removed st0 (id (p_loading p)))
                (commandOf (p_input p))) as (st1 & c & t & pn & pd & -> & Hst1 & Hplug).
    apply Inv_replied; auto.
Qed.

End Preservation.

Lemma Inv_empty (env : Env) (st : State) : messages st = [] -> Inv env st.
Proof.
  intros H. constructor; unfold idsUnique, timeOrdered, pluginFieldsOnPlugins;
    rewrite ?H; simpl; try constructor; intros; try tauto.
Qed.

Lemma Inv_mounted_empty (env : Env) : Inv env (mounted []).
Proof. apply Inv_empty. reflexivity. Qed.

Lemma unary_length (n : nat) : String.length (Sample.unary n) = S n.
Proof. induction n; simpl; congruence. Qed.

Lemma unary_distinct : uuidsDistinct Sample.envOffline.
Proof.
  intros i j H. simpl in H. apply (f_equal String.length) in H.
  rewrite !unary_length in H. congruence.
Qed.

Lemma still_clock_monotone : clockMonotone Sample.envOffline.
Proof. intros i j _. apply notAfter_refl. Qed.



(** *** A submission from end to end *)

Lemma filter_keeps_others (i : string) (l : list Message) :
  ~ In i (map id l) ->
  filter (fun msg => negb (String.eqb (id msg) i)) l = l.
Proof.
  induction l as [|m l IH]; simpl; intros H; [reflexivity|].
  destruct (String.eqb_spec (id m) i) as [E|E]; simpl.
  - exfalso. apply H. now left.
  - rewrite IH; [reflexivity|]. intros Hin. apply H. now right.
Qed.

Lemma filter_removes_exactly (t : Message) (l1 l2 : list Message) :
  NoDup (map id (l1 ++ t :: l2)) ->
  filter (fun msg => negb (String.eqb (id msg) (id t))) (l1 ++ t :: l2) = l1 ++ l2.
Proof.
  intros H. rewrite map_app in H. simpl in H.
  pose proof (NoDup_remove_2 _ _ _ H) as Hnotin.
  rewrite filter_app. simpl. rewrite String.eqb_refl. simpl.
  rewrite !filter_keeps_others; [reflexivity| |];
    intros Hin; apply Hnotin, in_or_app; tauto.
Qed.



(** *** The weather rule of the rewriter *)

(** C5, as the spec words it, fails: in [weather in st. louis] the full
    stop is not at the end of the city, and the rewriter removes it. *)
Lemma weather_rule_strips_inner_punctuation :
  JsString.includes "weather in" "weather in st. louis" = true
  /\ weatherCommand "weather in st. louis" = "/weather st. louis"
  /\ parseNaturalLanguage "weather in st. louis" = Some "/weather st louis"
  /\ parseNaturalLanguage "weather in st. louis"
     <> Some (weatherCommand "weather in st. louis").
Proof.
  repeat split; try reflexivity. vm_compute. discriminate.
Qed.

Lemma append_assoc (a b c : string) : ((a ++ b) ++ c = a ++ (b ++ c))%string.
Proof. induction a as [|x a IH]; simpl; [reflexivity|]. now rewrite IH. Qed.

Lemma append_empty_r (a : string) : (a ++ "")%string = a.
Proof. induction a as [|x a IH]; simpl; [reflexivity|]. now rewrite IH. Qed.

Lemma startsWith_append (p r : string) : JsString.startsWith p (p ++ r) = true.
Proof.
  unfold JsString.startsWith. induction p as [|x p IH]; simpl.
  - destruct r; reflexivity.
  - destruct (Ascii.ascii_dec x x); [exact IH|congruence].
Qed.

Lemma startsWith_split (p s : string) :
  JsString.startsWith p s = true -> exists r, s = (p ++ r)%string.
Proof.
  unfold JsString.startsWith. revert s. induction p as [|x p IH]; intros s H.
  - exists s. reflexivity.
  - destruct s as [|y s]; simpl in H; [discriminate|].
    destruct (Ascii.ascii_dec x y) as [->|]; [|discriminate].
    destruct (IH s H) as [r ->]. exists r. reflexivity.
Qed.

Lemma drop_append (p r : string) : JsString.drop (String.length p) (p ++ r) = r.
Proof. induction p as [|x p IH]; simpl; [destruct r; reflexivity|exact IH]. Qed.

Lemma string_of_rev_append (pre : string) (acc : list ascii) :
  string_of_list_ascii (List.rev (List.rev (list_ascii_of_string pre) ++ acc))
  = (string_of_list_ascii (List.rev acc) ++ pre)%string.
Proof.
  rewrite rev_app_distr, rev_involutive.
  generalize (List.rev acc) as l. intros l.
  induction l as [|x l IH]; simpl.
  - apply string_of_list_ascii_of_string.
  - now rewrite IH.
Qed.

(** The scan runs over a stretch in which the separator does not start. *)
Lemma splitGo_none (sep pre rest : string) (acc : list ascii) :
  noneWithin sep (String.length pre) (pre ++ rest) ->
  JsString.splitGo sep 0 acc (pre ++ rest)
  = JsString.splitGo sep 0 (List.rev (list_ascii_of_string pre) ++ acc) rest.
Proof.
  revert acc. induction pre as [|c pre IH]; intros acc Hnone; [reflexivity|].
  simpl. pose proof (Hnone 0 (Nat.lt_0_succ _)) as H0. simpl in H0. rewrite H0.
  rewrite IH.
  - rewrite <- List.app_assoc. reflexivity.
  - intros k Hk. apply (Hnone (S k)). simpl. lia.
Qed.

Lemma splitGo_skip (sep x rest : string) (acc : list ascii) :
  JsString.splitGo sep (String.length x) acc (x ++ rest)
  = JsString.splitGo sep 0 acc rest.
Proof.
  induction x as [|c x IH]; [reflexivity|exact IH].
Qed.

Lemma split_second_piece (sep lower pre piece tail : string) :
  sep <> EmptyString ->
  pieceAfterFirst sep lower pre piece tail ->
  nth_error (JsString.split sep lower) 1 = Some piece.
Proof.
  intros Hsep (-> & Hpre & Hpiece & Htail).
  unfold JsString.split. rewrite splitGo_none by exact Hpre.
  destruct sep as [|c0 sep']; [congruence|].
  change ((String c0 sep' ++ piece ++ tail)%string)
    with (String c0 (sep' ++ piece ++ tail)%string).
  cbn [JsString.splitGo].
  change (String c0 (sep' ++ piece ++ tail)%string)
    with ((String c0 sep' ++ (piece ++ tail))%string).
  rewrite startsWith_append.
  replace (String.length (String c0 sep') - 1) with (String.length sep')
    by (simpl; lia).
  rewrite splitGo_skip. cbn [nth_error].
  rewrite splitGo_none by exact Hpiece.
  destruct Htail as [->|Htail].
  - cbn [JsString.splitGo]. rewrite string_of_rev_append. reflexivity.
  - destruct tail as [|c tail]; [discriminate Htail|].
    cbn [JsString.splitGo]. rewrite Htail, string_of_rev_append. reflexivity.
Qed.

Lemma first_occurrence (sep s : string) :
  sep <> EmptyString ->
  JsString.includes sep s = true ->
  exists pre rest, s = (pre ++ sep ++ rest)%string
                   /\ noneWithin sep (String.length pre) s.
Proof.
  intros Hsep. induction s as [|c s IH]; intros H.
  - destruct sep; [congruence|discriminate H].
  - cbn [JsString.includes] in H.
    destruct (JsString.startsWith sep (String c s)) eqn:E.
    + destruct (startsWith_split _ _ E) as [rest ->].
      exists EmptyString, rest. split; [reflexivity|]. intros k Hk. inversion Hk.
    + destruct (IH H) as (pre & rest & -> & Hnone).
      exists (String c pre), rest. split; [reflexivity|].
      intros [|k] Hk; [exact E|]. apply Hnone. simpl in Hk. lia.
Qed.

Lemma next_occurrence (sep rest : string) :
  exists piece tail, rest = (piece ++ tail)%string
                     /\ noneWithin sep (String.length piece) rest
                     /\ (tail = EmptyString \/ JsString.startsWith sep tail = true).
Proof.
  induction rest as [|c rest IH].
  - exists EmptyString, EmptyString. split; [reflexivity|].
    split; [intros k Hk; inversion Hk|now left].
  - destruct (JsString.startsWith sep (String c rest)) eqn:E.
    + exists EmptyString, (String c rest). split; [reflexivity|].
      split; [intros k Hk; inversion Hk|now right].
    + destruct IH as (piece & tail & Heq & Hnone & Htail).
      exists (String c piece), tail. split; [simpl; now rewrite <- Heq|].
      split; [|exact Htail].
      intros [|k] Hk; [exact E|]. apply Hnone. simpl in Hk. lia.
Qed.

Lemma stripPunct_clean (s : string) :
  forall c, In c (list_ascii_of_string (JsString.stripPunct s)) ->
            JsString.isPunct c = false.
Proof.
  induction s as [|x s IH]; simpl; intros c H; [contradiction|].
  destruct (JsString.isPunct x) eqn:E; [now apply IH|].
  destruct H as [<-|H]; [exact E|now apply IH].
Qed.

(** C5, amended: when the lower-cased text contains [weather in], the
    rewriter yields [/weather x], where x is taken from the lower-cased
    text: the piece after the first occurrence of the phrase, up to its
    next occurrence when there is one, trimmed, and then cleared of every
    [?], [.] and [,], wherever they stand. *)
Theorem weather_rule (text : string) :
  JsString.includes "weather in" (JsString.toLowerCase text) = true ->
  (exists pre piece tail : string,
     pieceAfterFirst "weather in" (JsString.toLowerCase text) pre piece tail)
  /\ (forall pre piece tail : string,
        pieceAfterFirst "weather in" (JsString.toLowerCase text) pre piece tail ->
        parseNaturalLanguage text
        = Some ("/weather " ++ JsString.stripPunct (JsString.trim piece))%string
        /\ (forall c,
              In c (list_ascii_of_string (JsString.stripPunct (JsString.trim piece))) ->
              JsString.isPunct c = false)).
Proof.
  intros Hincl.
  assert (Hsep : "weather in"%string <> EmptyString) by discriminate.
  split.
  - destruct (first_occurrence _ _ Hsep Hincl) as (pre & rest & Hlower & Hpre).
    destruct (next_occurrence "weather in" rest) as (piece & tail & -> & Hpiece & Htail).
    exists pre, piece, tail. repeat split; assumption.
  - intros pre piece tail Hdecomp. split; [|apply stripPunct_clean].
    unfold parseNaturalLanguage, phraseWeather. rewrite Hincl.
    rewrite (split_second_piece _ _ _ _ _ Hsep Hdecomp). reflexivity.
Qed.

Lemma weather_rule_witness :
  JsString.includes "weather in" (JsString.toLowerCase "Weather in St. Louis, MO?") = true
  /\ parseNaturalLanguage "Weather in St. Louis, MO?" = Some "/weather st louis mo"%string.
Proof.
  split; [reflexivity|].
  assert (Hincl : JsString.includes "weather in"
                    (JsString.toLowerCase "Weather in St. Louis, MO?") = true)
    by reflexivity.
  destruct (weather_rule "Weather in St. Louis, MO?" Hincl) as [_ Hall].
  destruct (Hall EmptyString " st. louis, mo?"%string EmptyString) as [Hresult _].
  - repeat split; try (now left).
    + intros k Hk. inversion Hk.
    + intros k Hk. simpl in Hk.
      do 15 (destruct k as [|k]; [reflexivity|]). lia.
  - exact Hresult.
Defined.

(** *** JSON text read back: numbers *)

Lemma closes_cases (rest : list ascii) :
  closes rest = true ->
  rest = [] \/ exists c r, rest = c :: r /\ (JsString.code c = 44 \/ JsString.code c = 93 \/ JsString.code c = 125).
Proof.
  destruct rest as [|c r]; [now left|]. simpl. intros H. right. exists c, r.
  split; [reflexivity|].
  repeat (apply orb_prop in H; destruct H as [H|H]); apply Nat.eqb_eq in H; auto.
Qed.

Lemma closes_noDigit (rest : list ascii) : closes rest = true -> noDigit rest = true.
Proof.
  intros H. destruct (closes_cases rest H) as [->|(c & r & -> & Hc)]; [reflexivity|].
  simpl. unfold JsString.between.
  destruct Hc as [-> | [-> | ->]]; reflexivity.
Qed.

Lemma closes_not_exponent (rest : list ascii) :
  closes rest = true -> Json.startsExponent rest = false.
Proof.
  intros H. destruct (closes_cases rest H) as [->|(c & r & -> & Hc)]; [reflexivity|].
  simpl. destruct Hc as [-> | [-> | ->]]; reflexivity.
Qed.

Lemma readDigits_uintChars (d : uint) (rest : list ascii) :
  noDigit rest = true ->
  Json.readDigits (uintChars d ++ rest) = (d, rest).
Proof.
  intros Hrest.
  induction d; simpl; try (rewrite IHd; reflexivity).
  destruct rest as [|c rest]; [reflexivity|].
  simpl in Hrest |- *. unfold Json.digitOf.
  apply negb_true_iff in Hrest. now rewrite Hrest.
Qed.

Lemma nzhead_shape (d : uint) :
  match nzhead d with D0 _ => False | _ => True end.
Proof. induction d; simpl; auto. Qed.

Lemma to_uint_shape (n : N) :
  match N.to_uint n with
  | Nil => False
  | D0 Nil => True
  | D0 _ => False
  | _ => True
  end.
Proof.
  pose proof (DecimalN.Unsigned.to_of (N.to_uint n)) as H.
  rewrite DecimalN.Unsigned.of_to in H. rewrite H.
  unfold unorm. pose proof (nzhead_shape (N.to_uint n)) as Hs.
  destruct (nzhead (N.to_uint n)); simpl in *; auto; contradiction.
Qed.

Lemma integerOf_digits (n : N) (neg : bool) (rest : list ascii) :
  (Z.of_N n <= maxSafe)%Z ->
  (neg = true -> n <> 0%N) ->
  Json.integerOf neg (N.to_uint n) rest
  = Json.Ok (NInt (if neg then - Z.of_N n else Z.of_N n)%Z, rest).
Proof.
  intros Hsafe Hneg. unfold Json.integerOf. cbv zeta.
  rewrite DecimalN.Unsigned.of_to.
  apply Z.leb_le in Hsafe. rewrite Hsafe. simpl negb. cbv iota.
  destruct neg; simpl andb; cbv iota; [|reflexivity].
  destruct (Z.eqb_spec (Z.of_N n) 0) as [E|E]; [|reflexivity].
  exfalso. apply Hneg; [reflexivity|lia].
Qed.

(** Past the digits of the whole part: what [readNumber] does next. *)
Lemma readNumber_whole (n : N) (neg : bool) (rest : list ascii) :
  noDigit rest = true ->
  Json.readNumber neg (uintChars (N.to_uint n) ++ rest)
  = match rest with
    | c :: r' =>
        if (JsString.code c =? 46)%nat then Json.readFraction neg (N.to_uint n) r'
        else if Json.startsExponent rest then Json.Err Json.EUnmodelled
        else Json.integerOf neg (N.to_uint n) rest
    | [] => Json.integerOf neg (N.to_uint n) rest
    end.
Proof.
  intros Hrest. unfold Json.readNumber.
  rewrite readDigits_uintChars by exact Hrest.
  pose proof (to_uint_shape n) as Hshape.
  destruct (N.to_uint n) as [|d|d|d|d|d|d|d|d|d|d]; try reflexivity; try contradiction.
  destruct d; try contradiction. reflexivity.
Qed.

Lemma readNumber_digits (n : N) (neg : bool) (rest : list ascii) :
  (Z.of_N n <= maxSafe)%Z ->
  (neg = true -> n <> 0%N) ->
  closes rest = true ->
  Json.readNumber neg (uintChars (N.to_uint n) ++ rest)
  = Json.Ok (NInt (if neg then - Z.of_N n else Z.of_N n)%Z, rest).
Proof.
  intros Hsafe Hneg Hrest.
  rewrite readNumber_whole by (apply closes_noDigit, Hrest).
  rewrite <- (integerOf_digits n neg rest Hsafe Hneg).
  pose proof (closes_not_exponent rest Hrest) as Hexp.
  destruct (closes_cases rest Hrest) as [->|(c & r & -> & Hc)]; [reflexivity|].
  rewrite Hexp. destruct Hc as [-> | [-> | ->]]; reflexivity.
Qed.

Lemma endsNonZero_trim (f : uint) :
  endsNonZero f = true -> Json.trimZeros f = f /\ Json.isNil f = false.
Proof.
  assert (Hstep : forall g : uint,
             (endsNonZero g = true -> Json.trimZeros g = g /\ Json.isNil g = false) ->
             match g with Nil => true | _ => endsNonZero g end = true ->
             Json.trimZeros g = g).
  { intros g IH H. destruct g; [reflexivity|apply IH, H..]. }
  induction f as [|f IH|f IH|f IH|f IH|f IH|f IH|f IH|f IH|f IH|f IH];
    cbn [endsNonZero Json.trimZeros Json.isNil]; intros H;
    try discriminate H;
    try (rewrite (Hstep f IH H); split; reflexivity).
  destruct (IH H) as [E Hn]. rewrite E. split; [|reflexivity].
  destruct f; [discriminate Hn|reflexivity..].
Qed.

Lemma readNumber_decimal (neg : bool) (w : N) (f : uint) (rest : list ascii) :
  plainDecimal w f = true ->
  closes rest = true ->
  Json.readNumber neg (uintChars (N.to_uint w) ++ "."%char :: uintChars f ++ rest)
  = Json.Ok (NDec neg w f, rest).
Proof.
  intros Hplain Hrest.
  rewrite readNumber_whole by reflexivity.
  change (JsString.code "."%char =? 46)%nat with true. cbv iota.
  unfold Json.readFraction.
  rewrite readDigits_uintChars by (apply closes_noDigit, Hrest).
  assert (Hends : endsNonZero f = true).
  { unfold plainDecimal in Hplain. apply andb_prop in Hplain. tauto. }
  destruct (endsNonZero_trim f Hends) as [Htrim Hnil].
  rewrite Hnil, (closes_not_exponent rest Hrest). cbv zeta.
  rewrite Htrim, Hnil, DecimalN.Unsigned.of_to, Hplain. reflexivity.
Qed.

Lemma uintChars_head (n : N) :
  exists c t, uintChars (N.to_uint n) = c :: t
              /\ JsString.between 48 57 (JsString.code c) = true.
Proof.
  pose proof (to_uint_shape n) as H.
  destruct (N.to_uint n); try contradiction; simpl; eexists; eexists;
    (split; [reflexivity|reflexivity]).
Qed.

(** After an optional sign: the number that [parseNumber] reads is the one
    that [readNumber] reads from the digits. *)
Lemma parseNumber_signed (neg : bool) (n : N) (tail : list ascii) :
  Json.parseNumber ((if neg then ["-"%char] else []) ++ uintChars (N.to_uint n) ++ tail)
  = Json.readNumber neg (uintChars (N.to_uint n) ++ tail).
Proof.
  unfold Json.parseNumber. destruct neg; cbn [List.app].
  - now rewrite Ascii.eqb_refl.
  - destruct (uintChars_head n) as (c & t & Hhead & Hdigit).
    rewrite Hhead. cbn [List.app].
    destruct (Ascii.eqb_spec c "-"%char) as [->|]; [discriminate Hdigit|reflexivity].
Qed.

Lemma parseNumber_numChars (n : JsNum) (rest : list ascii) :
  jsonValue (JNum n) = true -> closes rest = true ->
  Json.parseNumber (Json.numChars n ++ rest) = Json.Ok (n, rest).
Proof.
  intros Hn Hrest. destruct n as [z|neg w f| |]; try discriminate Hn; cbn [jsonValue] in Hn.
  - unfold safeInt in Hn. apply Z.leb_le in Hn.
    cbn [Json.numChars]. unfold intChars. rewrite <- List.app_assoc.
    rewrite parseNumber_signed, readNumber_digits; try assumption.
    + do 3 f_equal. rewrite N2Z.inj_abs_N. destruct (Z.ltb_spec z 0); lia.
    + rewrite N2Z.inj_abs_N. lia.
    + destruct (Z.ltb_spec z 0) as [Hneg|Hpos]; [|discriminate].
      intros _ E. apply (f_equal Z.of_N) in E. rewrite N2Z.inj_abs_N in E.
      simpl in E. lia.
  - cbn [Json.numChars]. unfold decChars. rewrite <- !List.app_assoc.
    rewrite parseNumber_signed. cbn [List.app].
    apply readNumber_decimal; assumption.
Qed.

Lemma numChars_head (n : JsNum) :
  jsonValue (JNum n) = true ->
  exists c t, Json.numChars n = c :: t
              /\ (JsString.code c =? 45)%nat || JsString.between 48 57 (JsString.code c) = true.
Proof.
  intros Hn. destruct n as [z|neg w f| |]; try discriminate Hn; cbn [Json.numChars].
  - unfold intChars. destruct (z <? 0)%Z.
    + eexists; eexists; split; reflexivity.
    + destruct (uintChars_head (Z.abs_N z)) as (c & t & -> & H).
      exists c, t. split; [reflexivity|]. rewrite H. apply orb_true_r.
  - unfold decChars. destruct neg.
    + eexists; eexists; split; reflexivity.
    + destruct (uintChars_head w) as (c & t & -> & H).
      eexists; eexists. split; [reflexivity|]. rewrite H. apply orb_true_r.
Qed.

(** *** JSON text read back: strings *)

Ltac quote_step :=
  match goal with
  | |- context [Json.quoteChar ?c] =>
      let q := eval vm_compute in (Json.quoteChar c) in
      change (Json.quoteChar c) with q
  end; cbn [List.app].

(** One code unit, as written and as read: by cases on the 256 code
    units. *)
Lemma parseStringBody_quoteChar (c : ascii) (t : list ascii) (s : string)
    (r : list ascii) :
  Json.parseStringBody t = Json.Ok (s, r) ->
  Json.parseStringBody (Json.quoteChar c ++ t) = Json.Ok (String c s, r).
Proof.
  intros H.
  destruct c as [b0 b1 b2 b3 b4 b5 b6 b7].
  destruct b0, b1, b2, b3, b4, b5, b6, b7;
    quote_step; simpl; rewrite H; reflexivity.
Qed.

Lemma parseStringBody_quote (s : string) (rest : list ascii) :
  Json.parseStringBody (Json.quoteChars s ++ Json.dquote :: rest) = Json.Ok (s, rest).
Proof.
  induction s as [|c s IH]; [reflexivity|].
  cbn [Json.quoteChars]. rewrite <- List.app_assoc.
  apply parseStringBody_quoteChar, IH.
Qed.

(** *** JSON text read back: the order of the keys *)

Lemma keysInOrder_before (l1 l2 : list string) (k : string) :
  keysInOrder (l1 ++ k :: l2) = true ->
  Forall (fun k' => laterKeyOk k' k = true) l1.
Proof.
  induction l1 as [|a l1 IH]; simpl; intros H; [constructor|].
  apply andb_prop in H. destruct H as [Ha Hrest].
  rewrite forallb_app in Ha. apply andb_prop in Ha. destruct Ha as [_ Ha].
  simpl in Ha. apply andb_prop in Ha. destruct Ha as [Ha _].
  constructor; auto.
Qed.

Lemma hasKey_fresh (k : string) (o : list (string * JsVal)) :
  Forall (fun k' => laterKeyOk k' k = true) (map fst o) ->
  Json.hasKey k o = false.
Proof.
  induction o as [|[k' v'] o IH]; simpl; intros H; [reflexivity|].
  inversion H as [|? ? Hk Ho]; subst. rewrite (IH Ho).
  unfold laterKeyOk in Hk. apply andb_prop in Hk. destruct Hk as [Hk _].
  rewrite String.eqb_sym. apply negb_true_iff in Hk. rewrite Hk. reflexivity.
Qed.

Lemma insertIndex_last (n : N) (k : string) (v : JsVal) (o : list (string * JsVal)) :
  Json.arrayIndex k = Some n ->
  Forall (fun k' => laterKeyOk k' k = true) (map fst o) ->
  Json.insertIndex n k v o = o ++ [(k, v)].
Proof.
  intros Hk. induction o as [|[k' v'] o IH]; simpl; intros H; [reflexivity|].
  inversion H as [|? ? Hk' Ho]; subst.
  unfold laterKeyOk in Hk'. apply andb_prop in Hk'. destruct Hk' as [_ Hk'].
  rewrite Hk in Hk'. destruct (Json.arrayIndex k') as [n'|]; [|discriminate].
  rewrite Hk'. rewrite (IH Ho). reflexivity.
Qed.

Lemma objSet_last (o : list (string * JsVal)) (k : string) (v : JsVal) :
  Forall (fun k' => laterKeyOk k' k = true) (map fst o) ->
  Json.objSet o (k, v) = o ++ [(k, v)].
Proof.
  intros H. unfold Json.objSet. rewrite (hasKey_fresh k o H).
  destruct (Json.arrayIndex k) as [n|] eqn:E; [|reflexivity].
  apply insertIndex_last; assumption.
Qed.

Lemma fold_objSet_ordered (todo done : list (string * JsVal)) :
  keysInOrder (map fst (done ++ todo)) = true ->
  fold_left Json.objSet todo done = done ++ todo.
Proof.
  revert done. induction todo as [|[k v] todo IH]; intros done H; cbn [fold_left].
  - now rewrite List.app_nil_r.
  - rewrite objSet_last.
    + rewrite IH; rewrite <- List.app_assoc; [reflexivity|exact H].
    + rewrite map_app in H. simpl in H. eapply keysInOrder_before; eauto.
Qed.

Lemma buildObject_ordered (o : list (string * JsVal)) :
  keysInOrder (map fst o) = true -> Json.buildObject o = JObj o.
Proof.
  intros H. unfold Json.buildObject. now rewrite fold_objSet_ordered.
Qed.

(** *** JSON text read back: values *)

Lemma JsVal_nested_ind (P : JsVal -> Prop)
    (Hundef : P JUndefined) (Hnull : P JNull)
    (Hbool : forall b, P (JBool b)) (Hnum : forall n, P (JNum n))
    (Hstr : forall s, P (JStr s))
    (Harr : forall l, Forall P l -> P (JArr l))
    (Hobj : forall o, Forall (fun kv => P (snd kv)) o -> P (JObj o)) :
  forall v, P v.
Proof.
  fix self 1. intros [| |b|n|s|l|o].
  - exact Hundef.
  - exact Hnull.
  - apply Hbool.
  - apply Hnum.
  - apply Hstr.
  - apply Harr. induction l as [|x l IH]; constructor; [apply self|exact IH].
  - apply Hobj. induction o as [|[k x] o IH]; constructor; [apply self|exact IH].
Qed.

Lemma parseValue_null (f : nat) (rest : list ascii) :
  Json.parseValue (S f) (textOf JNull ++ rest) = Json.Ok (JNull, rest).
Proof. reflexivity. Qed.

Lemma parseValue_bool (f : nat) (b : bool) (rest : list ascii) :
  Json.parseValue (S f) (textOf (JBool b) ++ rest) = Json.Ok (JBool b, rest).
Proof. destruct b; reflexivity. Qed.

Lemma parseValue_string (f : nat) (s : string) (rest : list ascii) :
  Json.parseValue (S f) (textOf (JStr s) ++ rest) = Json.Ok (JStr s, rest).
Proof.
  unfold textOf. cbn [Json.serialize Json.quote List.app].
  rewrite <- List.app_assoc. cbn [List.app].
  change (Json.parseValue (S f) (Json.dquote :: ?t)) with
    (match Json.parseStringBody t with
     | Json.Ok (t', r') => Json.Ok (JStr t', r')
     | Json.Err e => Json.Err e
     end).
  rewrite parseStringBody_quote. reflexivity.
Qed.

Lemma parseValue_number_head (f : nat) (c : ascii) (r : list ascii) :
  (JsString.code c =? 45)%nat || JsString.between 48 57 (JsString.code c) = true ->
  Json.parseValue (S f) (c :: r)
  = match Json.parseNumber (c :: r) with
    | Json.Ok (x, r') => Json.Ok (JNum x, r')
    | Json.Err e => Json.Err e
    end.
Proof.
  intros H.
  destruct c as [b0 b1 b2 b3 b4 b5 b6 b7].
  destruct b0, b1, b2, b3, b4, b5, b6, b7;
    try (vm_compute in H; discriminate H); reflexivity.
Qed.

Lemma parseValue_number (f : nat) (n : JsNum) (rest : list ascii) :
  jsonValue (JNum n) = true -> closes rest = true ->
  Json.parseValue (S f) (textOf (JNum n) ++ rest) = Json.Ok (JNum n, rest).
Proof.
  intros Hn Hrest. unfold textOf. cbn [Json.serialize].
  destruct (numChars_head n Hn) as (c & t & Hhead & Hc).
  pose proof (parseNumber_numChars n rest Hn Hrest) as Hnum.
  rewrite Hhead in *. cbn [List.app] in *.
  rewrite parseValue_number_head by exact Hc.
  rewrite Hnum. reflexivity.
Qed.

Lemma serialize_textOf (v : JsVal) :
  jsonValue v = true -> Json.serialize v = Some (textOf v).
Proof.
  unfold textOf. destruct v as [| |[|]|n|s|l|o]; simpl; intros H;
    try reflexivity; discriminate.
Qed.

Lemma textOf_starts (v : JsVal) : jsonValue v = true -> startsValue (textOf v).
Proof.
  intros H. destruct v as [| |[|]|n|s|l|o]; try discriminate H;
    try (eexists; eexists; repeat split; reflexivity).
  destruct (numChars_head n H) as (c & t & Hhead & Hc).
  exists c, t. split; [exact Hhead|].
  destruct c as [b0 b1 b2 b3 b4 b5 b6 b7].
  destruct b0, b1, b2, b3, b4, b5, b6, b7;
    try (vm_compute in Hc; discriminate Hc); repeat split; reflexivity.
Qed.

Lemma map_elemText (l : list JsVal) :
  forallb jsonValue l = true -> map elemText l = map textOf l.
Proof.
  induction l as [|x l IH]; simpl; intros H; [reflexivity|].
  apply andb_prop in H. destruct H as [Hx Hl].
  rewrite (IH Hl). unfold elemText, Json.element. now rewrite (serialize_textOf x Hx).
Qed.

Lemma skipWs_head (c : ascii) (t : list ascii) :
  Json.isJsonWs c = false -> Json.skipWs (c :: t) = c :: t.
Proof. intros H. simpl. now rewrite H. Qed.

Lemma parseValue_array_step (f : nat) (r : list ascii) :
  startsValue r ->
  Json.parseValue (S f) ("["%char :: r)
  = match Json.parseElems f r with
    | Json.Ok (vs, rest) => Json.Ok (JArr vs, rest)
    | Json.Err e => Json.Err e
    end.
Proof.
  intros (c & t & -> & Hws & Hclose & _).
  cbn [Json.parseValue].
  rewrite (skipWs_head "["%char) by reflexivity.
  rewrite (skipWs_head c t Hws).
  change (JsString.code "["%char) with 91. cbn [Nat.eqb]. cbv iota zeta.
  rewrite Hclose. reflexivity.
Qed.

Lemma parseValue_object_step (f : nat) (r : list ascii) :
  startsValue r ->
  Json.parseValue (S f) ("{"%char :: r)
  = match Json.parseMembers f r with
    | Json.Ok (ms, rest) => Json.Ok (Json.buildObject ms, rest)
    | Json.Err e => Json.Err e
    end.
Proof.
  intros (c & t & -> & Hws & _ & Hclose).
  cbn [Json.parseValue].
  rewrite (skipWs_head "{"%char) by reflexivity.
  rewrite (skipWs_head c t Hws).
  change (JsString.code "{"%char) with 123. cbn [Nat.eqb]. cbv iota zeta.
  rewrite Hclose. reflexivity.
Qed.

Lemma commaSep_cons (x : list ascii) (y : list ascii) (l : list (list ascii)) :
  Json.commaSep (x :: y :: l) = x ++ ","%char :: Json.commaSep (y :: l).
Proof. reflexivity. Qed.

Lemma parseElems_text (l : list JsVal) (x : JsVal) :
  Forall ReadsBack (x :: l) ->
  forall fuel rest,
    list_sum (map (fun v => S (weight v)) (x :: l)) <= fuel ->
    Json.parseElems fuel (Json.commaSep (map textOf (x :: l)) ++ "]"%char :: rest)
    = Json.Ok (x :: l, rest).
Proof.
  revert x. induction l as [|y l IH]; intros x Hall fuel rest Hfuel.
  - inversion Hall as [|? ? Hx _]; subst.
    destruct fuel as [|f]; [simpl in Hfuel; lia|].
    cbn [map Json.commaSep]. cbn [Json.parseElems].
    rewrite Hx; [|simpl in Hfuel; lia|reflexivity].
    reflexivity.
  - inversion Hall as [|? ? Hx Hrest]; subst.
    destruct fuel as [|f]; [simpl in Hfuel; lia|].
    cbn [map]. rewrite commaSep_cons. rewrite <- List.app_assoc.
    cbn [List.app Json.parseElems].
    rewrite Hx; [|simpl in Hfuel; lia|reflexivity].
    rewrite (skipWs_head ","%char) by reflexivity.
    change (JsString.code ","%char) with 44. cbn [Nat.eqb]. cbv iota zeta.
    change (textOf y :: map textOf l) with (map textOf (y :: l)).
    rewrite (IH y Hrest); [reflexivity|].
    simpl in Hfuel |- *. lia.
Qed.

Lemma parseMembers_text (o : list (string * JsVal)) (kv : string * JsVal) :
  Forall (fun m => ReadsBack (snd m)) (kv :: o) ->
  forall fuel rest,
    list_sum (map (fun m => S (weight (snd m))) (kv :: o)) <= fuel ->
    Json.parseMembers fuel
      (Json.commaSep (map memberText (kv :: o)) ++ "}"%char :: rest)
    = Json.Ok (kv :: o, rest).
Proof.
  revert kv. induction o as [|m o IH]; intros [k x] Hall fuel rest Hfuel.
  - inversion Hall as [|? ? Hx _]; subst. simpl in Hx.
    destruct fuel as [|f]; [simpl in Hfuel; lia|].
    cbn [map Json.commaSep]. unfold memberText. cbn [fst snd].
    unfold Json.quote. cbn [List.app]. rewrite <- !List.app_assoc.
    cbn [List.app Json.parseMembers].
    rewrite (skipWs_head Json.dquote) by reflexivity.
    change (negb (JsString.code Json.dquote =? 34)%nat) with false. cbv iota.
    rewrite parseStringBody_quote.
    rewrite (skipWs_head ":"%char) by reflexivity.
    change (negb (JsString.code ":"%char =? 58)%nat) with false. cbv iota.
    rewrite Hx; [|simpl in Hfuel; lia|reflexivity].
    reflexivity.
  - inversion Hall as [|? ? Hx Hrest]; subst. simpl in Hx.
    destruct fuel as [|f]; [simpl in Hfuel; lia|].
    cbn [map]. rewrite commaSep_cons. unfold memberText at 1. cbn [fst snd].
    unfold Json.quote. cbn [List.app]. rewrite <- !List.app_assoc.
    cbn [List.app Json.parseMembers].
    rewrite (skipWs_head Json.dquote) by reflexivity.
    change (negb (JsString.code Json.dquote =? 34)%nat) with false. cbv iota.
    rewrite parseStringBody_quote.
    rewrite (skipWs_head ":"%char) by reflexivity.
    change (negb (JsString.code ":"%char =? 58)%nat) with false. cbv iota.
    rewrite Hx; [|simpl in Hfuel; lia|reflexivity].
    rewrite (skipWs_head ","%char) by reflexivity.
    change (JsString.code ","%char) with 44. cbn [Nat.eqb]. cbv iota zeta.
    change (memberText m :: map memberText o) with (map memberText (m :: o)).
    rewrite (IH m Hrest); [reflexivity|].
    simpl in Hfuel |- *. lia.
Qed.

Lemma serialize_array (l : list JsVal) :
  Json.serialize (JArr l)
  = Some ("["%char :: Json.commaSep (map elemText l) ++ ["]"%char]).
Proof. reflexivity. Qed.

Lemma serialize_object (o : list (string * JsVal)) :
  forallb (fun kv => jsonValue (snd kv)) o = true ->
  Json.serialize (JObj o)
  = Some ("{"%char :: Json.commaSep (map memberText o) ++ ["}"%char]).
Proof.
  intros H.
  assert (Hmembers : Json.members Json.serialize o = map memberText o).
  { induction o as [|[k x] o IH]; [reflexivity|].
    simpl in H. apply andb_prop in H. destruct H as [Hx Ho].
    cbn [map Json.members]. rewrite (serialize_textOf x Hx).
    fold (Json.members Json.serialize). rewrite (IH Ho). reflexivity. }
  cbn [Json.serialize]. rewrite Hmembers. reflexivity.
Qed.

Lemma startsValue_commaSep (a : list ascii) (l : list (list ascii)) (r : list ascii) :
  startsValue a -> startsValue (Json.commaSep (a :: l) ++ r).
Proof.
  intros (c & t & -> & H). destruct l as [|b l].
  - exists c, (t ++ r). split; [reflexivity|exact H].
  - rewrite commaSep_cons. exists c, (t ++ ","%char :: Json.commaSep (b :: l) ++ r).
    split; [|exact H]. cbn [List.app]. now rewrite <- List.app_assoc.
Qed.

Lemma memberText_starts (kv : string * JsVal) : startsValue (memberText kv).
Proof.
  unfold memberText, Json.quote. eexists; eexists.
  split; [reflexivity|]. repeat split; reflexivity.
Qed.

Lemma readsBack (v : JsVal) : jsonValue v = true -> ReadsBack v.
Proof.
  induction v as [| |b|n|s|l IH|o IH] using JsVal_nested_ind; intros Hv;
    try discriminate Hv.
  - intros [|f] rest Hfuel _; [simpl in Hfuel; lia|]. apply parseValue_null.
  - intros [|f] rest Hfuel _; [simpl in Hfuel; lia|]. apply parseValue_bool.
  - intros [|f] rest Hfuel Hrest; [simpl in Hfuel; lia|].
    apply parseValue_number; assumption.
  - intros [|f] rest Hfuel _; [simpl in Hfuel; lia|]. apply parseValue_string.
  - cbn [jsonValue] in Hv.
    assert (Hall : Forall ReadsBack l).
    { rewrite forallb_forall in Hv. rewrite Forall_forall in *.
      intros x Hx. apply IH; auto. }
    intros [|f] rest Hfuel Hrest; [simpl in Hfuel; lia|].
    unfold textOf. rewrite serialize_array, (map_elemText l Hv).
    cbn [List.app]. rewrite <- List.app_assoc. cbn [List.app].
    destruct l as [|x l]; [reflexivity|].
    rewrite parseValue_array_step.
    + rewrite parseElems_text; [reflexivity|exact Hall|].
      cbn [weight] in Hfuel. lia.
    + cbn [map]. apply startsValue_commaSep, textOf_starts.
      simpl in Hv. apply andb_prop in Hv. tauto.
  - cbn [jsonValue] in Hv. apply andb_prop in Hv. destruct Hv as [Hvals Hkeys].
    assert (Hall : Forall (fun m => ReadsBack (snd m)) o).
    { rewrite forallb_forall in Hvals. rewrite Forall_forall in *.
      intros x Hx. apply IH; auto. }
    intros [|f] rest Hfuel Hrest; [simpl in Hfuel; lia|].
    unfold textOf. rewrite (serialize_object o Hvals).
    cbn [List.app]. rewrite <- List.app_assoc. cbn [List.app].
    destruct o as [|kv o]; [reflexivity|].
    rewrite parseValue_object_step.
    + rewrite parseMembers_text; [|exact Hall|cbn [weight] in Hfuel; lia].
      now rewrite buildObject_ordered.
    + cbn [map]. apply startsValue_commaSep, memberText_starts.
Qed.

Lemma commaSep_weight {A : Type} (w : A -> nat) (text : A -> list ascii) (l : list A) :
  Forall (fun x => w x <= List.length (text x)) l ->
  list_sum (map (fun x => S (w x)) l) <= S (List.length (Json.commaSep (map text l))).
Proof.
  induction l as [|x l IH]; intros H; [simpl; lia|].
  inversion H as [|? ? Hx Hl]; subst. specialize (IH Hl).
  destruct l as [|y l].
  - simpl. lia.
  - cbn [map] in *. rewrite commaSep_cons. rewrite length_app.
    unfold list_sum in *. cbn [List.length fold_right] in *. lia.
Qed.

Lemma weight_le_length (v : JsVal) :
  jsonValue v = true -> weight v <= List.length (textOf v).
Proof.
  induction v as [| |b|n|s|l IH|o IH] using JsVal_nested_ind; intros Hv;
    try discriminate Hv.
  - simpl. lia.
  - destruct b; simpl; lia.
  - destruct (numChars_head n Hv) as (c & t & Hhead & _).
    unfold textOf. cbn [Json.serialize weight]. rewrite Hhead. simpl. lia.
  - simpl. lia.
  - cbn [jsonValue] in Hv. unfold textOf.
    rewrite serialize_array, (map_elemText l Hv). cbn [weight List.length].
    rewrite length_app. cbn [List.length].
    assert (H : Forall (fun x => weight x <= List.length (textOf x)) l).
    { rewrite forallb_forall in Hv. rewrite Forall_forall in *. auto. }
    pose proof (commaSep_weight weight textOf l H). lia.
  - cbn [jsonValue] in Hv. apply andb_prop in Hv. destruct Hv as [Hvals _].
    unfold textOf. rewrite (serialize_object o Hvals). cbn [weight List.length].
    rewrite length_app. cbn [List.length].
    assert (H : Forall (fun m => weight (snd m) <= List.length (memberText m)) o).
    { rewrite forallb_forall in Hvals. rewrite Forall_forall in *.
      intros m Hm. unfold memberText. rewrite length_app. cbn [List.length].
      specialize (IH m Hm (Hvals m Hm)). lia. }
    pose proof (commaSep_weight (fun m => weight (snd m)) memberText o H). lia.
Qed.

(** What [JSON.stringify] writes for a value of JSON, [JSON.parse] reads
    back as that value. *)
Lemma parse_stringify (v : JsVal) :
  jsonValue v = true ->
  exists text, Json.stringify v = Some text /\ Json.parse text = Json.Ok v.
Proof.
  intros Hv. exists (string_of_list_ascii (textOf v)). split.
  - unfold Json.stringify. now rewrite (serialize_textOf v Hv).
  - unfold Json.parse. rewrite list_ascii_of_string_of_list_ascii.
    pose proof (readsBack v Hv (2 * List.length (textOf v) + 2) []) as H.
    rewrite List.app_nil_r in H. rewrite H; [reflexivity| |reflexivity].
    pose proof (weight_le_length v Hv). lia.
Qed.

(** *** The transcript written and read back *)

Lemma serialize_some (d : JsVal) :
  d <> JUndefined -> exists t, Json.serialize d = Some t.
Proof.
  destruct d as [| |[|]|n|s|l|o]; intros H; try congruence; eexists; reflexivity.
Qed.

Lemma element_message (m : Message) :
  Json.element Json.serialize (messageToJs m)
  = Json.element Json.serialize (messageJson m).
Proof.
  unfold Json.element, messageToJs, messageJson, payloadMembers.
  destruct (pluginName m) as [pn|];
    destruct (pluginData m) as [| |[|]|n|s|l|o]; reflexivity.
Qed.

Lemma persist_messageJson (msgs : list Message) :
  persist msgs = Json.stringify (JArr (map messageJson msgs)).
Proof.
  unfold persist, Json.stringify. cbn [Json.serialize]. rewrite !map_map.
  rewrite (map_ext _ _ element_message). reflexivity.
Qed.

Lemma payload_member (d : JsVal) :
  d <> JUndefined ->
  payloadMembers d = [("pluginData"%string, d)].
Proof. destruct d; intros H; try reflexivity. congruence. Qed.

Lemma jsonValue_messageJson (m : Message) :
  storable m -> jsonValue (messageJson m) = true.
Proof.
  unfold storable, messageJson. intros [H|H].
  - rewrite H. destruct (pluginName m); reflexivity.
  - rewrite payload_member by (intros E; rewrite E in H; discriminate H).
    destruct (pluginName m);
      cbn [jsonValue forallb snd List.app]; rewrite H; reflexivity.
Qed.

Lemma decodeMessage_messageJson (m : Message) :
  decodeMessage (messageJson m) = Some m.
Proof.
  destruct m as [i s c t pn pd ts]. unfold messageJson, payloadMembers. cbn [id sender content type
    pluginName pluginData timestamp].
  destruct s, t, pn as [pn|], pd as [| |b|n|x|l|o]; reflexivity.
Qed.

Lemma decodeAll_messageJson (msgs : list Message) :
  decodeAll (map messageJson msgs) = Some msgs.
Proof.
  induction msgs as [|m msgs IH]; [reflexivity|].
  cbn [map decodeAll]. rewrite decodeMessage_messageJson, IH. reflexivity.
Qed.



Lemma session_transcript :
  messages (Sample.session "what is 2+2") = Sample.transcript.
Proof. vm_compute. reflexivity. Qed.


(** The slot holds what the effect wrote: every event keeps
    [storage st = persist (messages st)]. *)
Lemma step_storage (env : Env) (st st' : State) :
  storage st = persist (messages st) -> step env st st' ->
  storage st' = persist (messages st').
Proof.
  intros H Hstep. destruct Hstep as [st text _|st _|st before after p d Htimers].
  - exact H.
  - destruct (string_dec (JsString.trim (input st)) EmptyString) as [Hblank|Hfull].
    + rewrite exec_handleSend_blank by exact Hblank. exact H.
    + rewrite exec_handleSend by exact Hfull. reflexivity.
  - rewrite exec_timeoutCallback.
    match goal with |- context [dispatch ?c] => set (cmd := c) end.
    match goal with |- context [removed ?s ?i] => set (st0 := removed s i) end.
    destruct (dispatch_replies env st0 cmd) as (st1 & c & t & pn & pd & -> & Hst1 & _).
    destruct Hst1 as [->|[[url ->]|[e ->]]]; reflexivity.
Qed.

(** *** The fuel of [parse] is enough *)

Lemma skipWs_length (s : list ascii) : List.length (Json.skipWs s) <= List.length s.
Proof.
  induction s as [|c s IH]; simpl; [lia|].
  destruct (Json.isJsonWs c); simpl; lia.
Qed.

Lemma readDigits_length (s : list ascii) (d : uint) (r : list ascii) :
  Json.readDigits s = (d, r) ->
  List.length r <= List.length s /\ (d <> Nil -> List.length r < List.length s).
Proof.
  revert d r. induction s as [|c s IH]; simpl; intros d r H.
  - injection H as <- <-. split; [simpl; lia|congruence].
  - destruct (Json.digitOf c) as [k|].
    + destruct (Json.readDigits s) as [d' r'] eqn:E.
      injection H as <- <-. destruct (IH d' r' eq_refl) as [Hle _].
      split; [lia|intros _; lia].
    + injection H as <- <-. split; [simpl; lia|congruence].
Qed.

Lemma integerOf_rest (neg : bool) (d : uint) (s : list ascii) (n : JsNum) (r : list ascii) :
  Json.integerOf neg d s = Json.Ok (n, r) -> r = s.
Proof.
  unfold Json.integerOf. cbv zeta.
  destruct (negb _); [discriminate|]. destruct (neg && _); [discriminate|].
  intros H. now injection H.
Qed.

Lemma readNumber_length (neg : bool) (s : list ascii) (n : JsNum) (r : list ascii) :
  Json.readNumber neg s = Json.Ok (n, r) -> List.length r < List.length s.
Proof.
  unfold Json.readNumber. destruct (Json.readDigits s) as [d r0] eqn:E.
  destruct (readDigits_length s d r0 E) as [_ Hlt].
  assert (Hbody :
    d <> Nil ->
    match r0 with
    | c :: r' =>
        if (JsString.code c =? 46)%nat then Json.readFraction neg d r'
        else if Json.startsExponent r0 then Json.Err Json.EUnmodelled
        else Json.integerOf neg d r0
    | [] => Json.integerOf neg d r0
    end = Json.Ok (n, r) -> List.length r < List.length s).
  { intros Hd H. specialize (Hlt Hd). destruct r0 as [|c r'].
    - apply integerOf_rest in H. subst. exact Hlt.
    - destruct (JsString.code c =? 46)%nat.
      + unfold Json.readFraction in H.
        destruct (Json.readDigits r') as [f r1] eqn:E1.
        destruct (readDigits_length r' f r1 E1) as [Hle _].
        destruct (Json.isNil f); [discriminate|].
        destruct (Json.startsExponent r1); [discriminate|]. cbv zeta in H.
        destruct (Json.isNil (Json.trimZeros f)).
        * apply integerOf_rest in H. subst. simpl in Hlt. lia.
        * destruct (plainDecimal _ _); [|discriminate].
          injection H as _ <-. simpl in Hlt. lia.
      + destruct (Json.startsExponent (c :: r')); [discriminate|].
        apply integerOf_rest in H. subst. exact Hlt. }
  destruct d as [|d|d|d|d|d|d|d|d|d|d]; try discriminate;
    try (apply Hbody; discriminate).
  destruct d; try discriminate. apply Hbody. discriminate.
Qed.

Lemma parseNumber_length (s : list ascii) (n : JsNum) (r : list ascii) :
  Json.parseNumber s = Json.Ok (n, r) -> List.length r < List.length s.
Proof.
  unfold Json.parseNumber. destruct s as [|c s].
  - intros H. apply readNumber_length in H. exact H.
  - destruct (Ascii.eqb c "-"%char); intros H; apply readNumber_length in H;
      simpl in *; lia.
Qed.

Lemma parseStringBody_length (n : nat) :
  forall (s : list ascii) (t : string) (r : list ascii),
    List.length s <= n ->
    Json.parseStringBody s = Json.Ok (t, r) -> List.length r < List.length s.
Proof.
  induction n as [|n IH]; intros s t r Hn H.
  - destruct s; [discriminate H|simpl in Hn; lia].
  - destruct s as [|c s]; [discriminate H|].
    cbn [Json.parseStringBody] in H. simpl in Hn.
    destruct (Ascii.eqb c Json.dquote).
    { injection H as _ <-. simpl. lia. }
    destruct (Ascii.eqb c Json.backslash).
    { destruct s as [|e s]; [discriminate H|]. cbv zeta in H. simpl in Hn.
      assert (Hsimple : forall x,
                 match Json.parseStringBody s with
                 | Json.Ok (t0, r0) => Json.Ok (String (ascii_of_nat x) t0, r0)
                 | Json.Err err => Json.Err err
                 end = Json.Ok (t, r) -> List.length r < List.length (c :: e :: s)).
      { intros x Hx. destruct (Json.parseStringBody s) as [[t0 r0]|] eqn:E; [|discriminate].
        injection Hx as _ <-. apply IH in E; simpl; lia. }
      repeat match type of H with
             | (if ?b then _ else _) = _ =>
                 destruct b; [first [exact (Hsimple _ H) | idtac]|]
             end; try discriminate H.
      clear Hsimple.
      destruct s as [|h1 [|h2 [|h3 [|h4 r0]]]]; try discriminate H.
      destruct (Json.hexOf h1), (Json.hexOf h2), (Json.hexOf h3), (Json.hexOf h4);
        try discriminate H.
      destruct (negb _); [discriminate H|].
      destruct (Json.parseStringBody r0) as [[t0 r1]|] eqn:E; [|discriminate].
      injection H as _ <-. apply IH in E; cbn [List.length] in *; lia. }
    destruct (JsString.code c <? 32)%nat; [discriminate H|].
    destruct (Json.parseStringBody s) as [[t0 r0]|] eqn:E; [|discriminate].
    injection H as _ <-. apply IH in E; simpl; lia.
Qed.

Lemma expect_length (lit : string) (v v' : JsVal) (s r : list ascii) :
  lit <> EmptyString ->
  Json.expect lit v s = Json.Ok (v', r) -> List.length r < List.length s.
Proof.
  intros Hlit. unfold Json.expect. cbv zeta.
  destruct (String.eqb_spec (string_of_list_ascii
              (firstn (List.length (list_ascii_of_string lit)) s)) lit) as [E|E];
    [|discriminate].
  intros H. injection H as _ <-.
  apply (f_equal list_ascii_of_string) in E.
  rewrite list_ascii_of_string_of_list_ascii in E.
  apply (f_equal (@List.length ascii)) in E.
  rewrite length_firstn in E. rewrite length_skipn.
  destruct lit as [|a lit]; [congruence|].
  cbn [list_ascii_of_string List.length] in *. lia.
Qed.

Ltac wsLen x :=
  let H := fresh "Hws" in
  pose proof (skipWs_length x) as H;
  destruct (Json.skipWs x) eqn:?; cbn [List.length] in H.

Lemma parse_consumes (fuel : nat) :
  (forall s v r, Json.parseValue fuel s = Json.Ok (v, r) ->
                 List.length r < List.length s)
  /\ (forall s vs r, Json.parseElems fuel s = Json.Ok (vs, r) ->
                     List.length r < List.length s)
  /\ (forall s ms r, Json.parseMembers fuel s = Json.Ok (ms, r) ->
                     List.length r < List.length s).
Proof.
  induction fuel as [|f (IHv & IHe & IHm)];
    [repeat split; intros; discriminate|].
  split; [|split].
  - intros s v r H. cbn [Json.parseValue] in H.
    wsLen s; [discriminate H|]. cbv zeta in H.
    destruct (_ =? 123)%nat.
    { wsLen l; [discriminate H|].
      destruct (_ =? 125)%nat.
      - injection H as _ <-. lia.
      - destruct (Json.parseMembers f _) as [[ms r1]|] eqn:E; [|discriminate].
        injection H as _ <-. apply IHm in E. cbn [List.length] in E. lia. }
    destruct (_ =? 91)%nat.
    { wsLen l; [discriminate H|].
      destruct (_ =? 93)%nat.
      - injection H as _ <-. lia.
      - destruct (Json.parseElems f _) as [[vs r1]|] eqn:E; [|discriminate].
        injection H as _ <-. apply IHe in E. cbn [List.length] in E. lia. }
    destruct (_ =? 34)%nat.
    { destruct (Json.parseStringBody l) as [[t r1]|] eqn:E; [|discriminate].
      injection H as _ <-. apply (parseStringBody_length _ _ _ _ (le_n _)) in E. lia. }
    destruct (_ =? 116)%nat.
    { apply expect_length in H; [cbn [List.length] in H; lia|discriminate]. }
    destruct (_ =? 102)%nat.
    { apply expect_length in H; [cbn [List.length] in H; lia|discriminate]. }
    destruct (_ =? 110)%nat.
    { apply expect_length in H; [cbn [List.length] in H; lia|discriminate]. }
    destruct (_ || _); [|discriminate].
    destruct (Json.parseNumber _) as [[x r1]|] eqn:E; [|discriminate].
    injection H as _ <-. apply parseNumber_length in E. cbn [List.length] in E. lia.
  - intros s vs r H. cbn [Json.parseElems] in H.
    destruct (Json.parseValue f s) as [[v r1]|] eqn:E; [|discriminate].
    apply IHv in E. wsLen r1; [discriminate H|]. cbv zeta in H.
    destruct (_ =? 44)%nat.
    { destruct (Json.parseElems f _) as [[vs' r2]|] eqn:E2; [|discriminate].
      injection H as _ <-. apply IHe in E2. lia. }
    destruct (_ =? 93)%nat; [|discriminate].
    injection H as _ <-. lia.
  - intros s ms r H. cbn [Json.parseMembers] in H.
    wsLen s; [discriminate H|].
    destruct (negb _); [discriminate|].
    destruct (Json.parseStringBody l) as [[k r1]|] eqn:E; [|discriminate].
    apply (parseStringBody_length _ _ _ _ (le_n _)) in E.
    wsLen r1; [discriminate H|].
    destruct (negb _); [discriminate|].
    destruct (Json.parseValue f _) as [[v r3]|] eqn:E3; [|discriminate].
    apply IHv in E3. wsLen r3; [discriminate H|]. cbv zeta in H.
    destruct (_ =? 44)%nat.
    { destruct (Json.parseMembers f _) as [[ms' r5]|] eqn:E5; [|discriminate].
      injection H as _ <-. apply IHm in E5. lia. }
    destruct (_ =? 125)%nat; [|discriminate].
    injection H as _ <-. lia.
Qed.

Lemma integerOf_no_fuel (neg : bool) (d : uint) (s : list ascii) :
  Json.integerOf neg d s <> Json.Err Json.EFuel.
Proof.
  unfold Json.integerOf. cbv zeta.
  destruct (negb _); [discriminate|]. destruct (neg && _); discriminate.
Qed.

Lemma readNumber_no_fuel (neg : bool) (s : list ascii) :
  Json.readNumber neg s <> Json.Err Json.EFuel.
Proof.
  unfold Json.readNumber. destruct (Json.readDigits s) as [d r0].
  assert (Hbody :
    match r0 with
    | c :: r' =>
        if (JsString.code c =? 46)%nat then Json.readFraction neg d r'
        else if Json.startsExponent r0 then Json.Err Json.EUnmodelled
        else Json.integerOf neg d r0
    | [] => Json.integerOf neg d r0
    end <> Json.Err Json.EFuel).
  { destruct r0 as [|c r']; [apply integerOf_no_fuel|].
    destruct (_ =? 46)%nat.
    - unfold Json.readFraction. destruct (Json.readDigits r') as [f r1].
      destruct (Json.isNil f); [discriminate|].
      destruct (Json.startsExponent r1); [discriminate|]. cbv zeta.
      destruct (Json.isNil _); [apply integerOf_no_fuel|].
      destruct (plainDecimal _ _); discriminate.
    - destruct (Json.startsExponent _); [discriminate|apply integerOf_no_fuel]. }
  destruct d as [|d|d|d|d|d|d|d|d|d|d]; try discriminate; try exact Hbody.
  destruct d; try discriminate. exact Hbody.
Qed.

Lemma parseNumber_no_fuel (s : list ascii) :
  Json.parseNumber s <> Json.Err Json.EFuel.
Proof.
  unfold Json.parseNumber. destruct s as [|c s]; [apply readNumber_no_fuel|].
  destruct (Ascii.eqb c "-"%char); apply readNumber_no_fuel.
Qed.

Lemma parseStringBody_no_fuel (n : nat) :
  forall s : list ascii,
    List.length s <= n -> Json.parseStringBody s <> Json.Err Json.EFuel.
Proof.
  induction n as [|n IH]; intros s Hn H.
  - destruct s; [discriminate H|simpl in Hn; lia].
  - destruct s as [|c s]; [discriminate H|].
    cbn [Json.parseStringBody] in H. cbn [List.length] in Hn.
    destruct (Ascii.eqb c Json.dquote); [discriminate H|].
    destruct (Ascii.eqb c Json.backslash).
    { destruct s as [|e s]; [discriminate H|]. cbv zeta in H. cbn [List.length] in Hn.
      assert (Hsimple : forall x,
                 match Json.parseStringBody s with
                 | Json.Ok (t0, r0) => Json.Ok (String (ascii_of_nat x) t0, r0)
                 | Json.Err err => Json.Err err
                 end = Json.Err Json.EFuel -> False).
      { intros x Hx. destruct (Json.parseStringBody s) as [[t0 r0]|] eqn:E; [discriminate|].
        injection Hx as ->. apply IH in E; [exact E|lia]. }
      repeat match type of H with
             | (if ?b then _ else _) = _ =>
                 destruct b; [first [exact (Hsimple _ H) | idtac]|]
             end; try discriminate H.
      clear Hsimple.
      destruct s as [|h1 [|h2 [|h3 [|h4 r0]]]]; try discriminate H.
      destruct (Json.hexOf h1), (Json.hexOf h2), (Json.hexOf h3), (Json.hexOf h4);
        try discriminate H.
      destruct (negb _); [discriminate H|].
      destruct (Json.parseStringBody r0) as [[t0 r1]|] eqn:E; [discriminate|].
      injection H as ->. apply IH in E; [exact E|cbn [List.length] in *; lia]. }
    destruct (JsString.code c <? 32)%nat; [discriminate H|].
    destruct (Json.parseStringBody s) as [[t0 r0]|] eqn:E; [discriminate|].
    injection H as ->. apply IH in E; [exact E|lia].
Qed.

Lemma expect_no_fuel (lit : string) (v : JsVal) (s : list ascii) :
  Json.expect lit v s <> Json.Err Json.EFuel.
Proof. unfold Json.expect. cbv zeta. destruct (String.eqb _ _); discriminate. Qed.

Lemma parse_fuel_enough (fuel : nat) :
  (forall s, 2 * List.length s + 2 <= fuel ->
             Json.parseValue fuel s <> Json.Err Json.EFuel)
  /\ (forall s, 2 * List.length s + 3 <= fuel ->
                Json.parseElems fuel s <> Json.Err Json.EFuel)
  /\ (forall s, 2 * List.length s + 3 <= fuel ->
                Json.parseMembers fuel s <> Json.Err Json.EFuel).
Proof.
  induction fuel as [|f (IHv & IHe & IHm)]; [repeat split; intros; lia|].
  destruct (parse_consumes f) as (Cv & Ce & Cm).
  split; [|split].
  - intros s Hfuel H. cbn [Json.parseValue] in H.
    wsLen s; [discriminate H|]. cbv zeta in H.
    destruct (_ =? 123)%nat.
    { wsLen l; [discriminate H|].
      destruct (_ =? 125)%nat; [discriminate H|].
      destruct (Json.parseMembers f _) as [[ms r1]|] eqn:E; [discriminate|].
      injection H as ->. apply IHm in E; [exact E|cbn [List.length]; lia]. }
    destruct (_ =? 91)%nat.
    { wsLen l; [discriminate H|].
      destruct (_ =? 93)%nat; [discriminate H|].
      destruct (Json.parseElems f _) as [[vs r1]|] eqn:E; [discriminate|].
      injection H as ->. apply IHe in E; [exact E|cbn [List.length]; lia]. }
    destruct (_ =? 34)%nat.
    { destruct (Json.parseStringBody l) as [[t r1]|] eqn:E; [discriminate|].
      injection H as ->. apply (parseStringBody_no_fuel _ _ (le_n _)) in E. exact E. }
    destruct (_ =? 116)%nat; [apply expect_no_fuel in H; exact H|].
    destruct (_ =? 102)%nat; [apply expect_no_fuel in H; exact H|].
    destruct (_ =? 110)%nat; [apply expect_no_fuel in H; exact H|].
    destruct (_ || _); [|discriminate].
    destruct (Json.parseNumber _) as [[x r1]|] eqn:E; [discriminate|].
    injection H as ->. apply parseNumber_no_fuel in E. exact E.
  - intros s Hfuel H. cbn [Json.parseElems] in H.
    destruct (Json.parseValue f s) as [[v r1]|] eqn:E.
    + apply Cv in E. wsLen r1; [discriminate H|]. cbv zeta in H.
      destruct (_ =? 44)%nat.
      { destruct (Json.parseElems f _) as [[vs' r2]|] eqn:E2; [discriminate|].
        injection H as ->. apply IHe in E2; [exact E2|lia]. }
      destruct (_ =? 93)%nat; discriminate.
    + injection H as ->. apply IHv in E; [exact E|lia].
  - intros s Hfuel H. cbn [Json.parseMembers] in H.
    wsLen s; [discriminate H|].
    destruct (negb _); [discriminate|].
    destruct (Json.parseStringBody l) as [[k r1]|] eqn:E.
    + apply (parseStringBody_length _ _ _ _ (le_n _)) in E.
      wsLen r1; [discriminate H|].
      destruct (negb _); [discriminate|].
      destruct (Json.parseValue f _) as [[v r3]|] eqn:E3.
      * apply Cv in E3. wsLen r3; [discriminate H|]. cbv zeta in H.
        destruct (_ =? 44)%nat.
        { destruct (Json.parseMembers f _) as [[ms' r5]|] eqn:E5; [discriminate|].
          injection H as ->. apply IHm in E5; [exact E5|lia]. }
        destruct (_ =? 125)%nat; discriminate.
      * injection H as ->. apply IHv in E3; [exact E3|lia].
    + injection H as ->. apply (parseStringBody_no_fuel _ _ (le_n _)) in E. exact E.
Qed.

(** [JSON.parse] of the model never stops for lack of fuel. *)
Lemma parse_never_out_of_fuel (text : string) :
  Json.parse text <> Json.Err Json.EFuel.
Proof.
  unfold Json.parse. cbv zeta.
  destruct (Json.parseValue _ _) as [[v r]|e] eqn:E.
  - destruct (Json.skipWs r); discriminate.
  - intros H. injection H as ->.
    apply (proj1 (parse_fuel_enough _)) in E; [exact E|lia].
Qed.

(* ================================================================== *)
(** ** Further properties *)
(* ================================================================== *)

Import View Image Payload Arith Conversation LowerCase Scenario.

(** *** Events of the view *)

Lemma dispatch_frame (env : Env) (st : State) (command : string) :
  let st' := exec env (dispatch command) st in
  timers st' = timers st /\ input st' = input st /\ loading st' = false
  /\ storage st' = persist (messages st')
  /\ exists r : Message, messages st' = messages st ++ [r] /\ sender r = Assistant.
Proof.
  intros st'. subst st'.
  destruct (dispatch_replies env st command) as (st1 & c & t & pn & pd & -> & Hst1 & _).
  destruct Hst1 as [->|[[url ->]|[e ->]]];
    (repeat split; try reflexivity; eexists; split; reflexivity).
Qed.

Lemma callback_frame (env : Env) (st : State) (text : string) (lm : Message) :
  let st' := exec env (timeoutCallback text lm) st in
  timers st' = timers st /\ input st' = input st /\ loading st' = false
  /\ storage st' = persist (messages st')
  /\ exists r : Message,
       messages st' = applyUpdate (RemoveId (id lm)) (messages st) ++ [r]
       /\ sender r = Assistant.
Proof.
  intros st'. subst st'. rewrite exec_timeoutCallback.
  exact (dispatch_frame env (removed st (id lm)) (commandOf text)).
Qed.

Lemma nth_error_remove {A : Type} (l : list A) (n : nat) (x : A) :
  nth_error l n = Some x ->
  l = firstn n l ++ x :: skipn (S n) l.
Proof.
  revert n. induction l as [|y l IH]; intros [|n] H; simpl in *; try discriminate.
  - injection H as ->. reflexivity.
  - f_equal. apply IH, H.
Qed.

Lemma remove_middle {A : Type} (l1 l2 : list A) (x : A) :
  firstn (List.length l1) (l1 ++ x :: l2) ++ skipn (S (List.length l1)) (l1 ++ x :: l2)
  = l1 ++ l2.
Proof.
  induction l1 as [|y l1 IH]; simpl; [reflexivity|]. f_equal. exact IH.
Qed.

Lemma nth_error_middle {A : Type} (l1 l2 : list A) (x : A) :
  nth_error (l1 ++ x :: l2) (List.length l1) = Some x.
Proof. induction l1 as [|y l1 IH]; simpl; [reflexivity|exact IH]. Qed.


(** X2: [handleKeyPress].  With the input enabled, a key pressed in it
    sends the input when the key is Enter and the input does not trim to
    the empty string, and leaves the whole state as it is otherwise;
    Enter does what a click on the button does. *)
Theorem enter_sends_other_keys_do_nothing (env : Env) (st : State) (key : string) :
  loading st = false ->
  fire env (KeyDown key) st
  = Some (if String.eqb key "Enter"
             && negb (JsString.isEmpty (JsString.trim (input st)))
          then submitted env st (input st)
          else st)
  /\ (String.eqb key "Enter" = true -> fire env (KeyDown key) st = fire env Click st).
Proof.
  intros Hl. simpl. rewrite Hl. unfold handleKeyPress.
  destruct (String.eqb key "Enter"); [|split; [reflexivity|discriminate]].
  split; [|reflexivity]. cbn [andb]. f_equal.
  destruct (JsString.isEmpty (JsString.trim (input st))) eqn:E; cbn [negb].
  - apply exec_handleSend_blank. now apply isEmpty_true.
  - apply exec_handleSend. now apply isEmpty_false.
Qed.

Lemma enter_sends_other_keys_do_nothing_witness :
  fire Sample.envOffline (KeyDown "Enter") (Sample.typed "hello")
  = Some (submitted Sample.envOffline (Sample.typed "hello") "hello").
Proof.
  exact (proj1 (enter_sends_other_keys_do_nothing Sample.envOffline
                  (Sample.typed "hello") "Enter" eq_refl)).
Defined.

(** *** One submission at a time *)

Lemma step_single_flight (env : Env) (st st' : State) :
  (List.length (timers st) <= 1)%nat /\ (loading st = false -> timers st = [])
  /\ (timers st <> [] -> input st = "") ->
  step env st st' ->
  (List.length (timers st') <= 1)%nat /\ (loading st' = false -> timers st' = [])
  /\ (timers st' <> [] -> input st' = "").
Proof.
  intros (Hlen & Hidle & Hinput) Hstep.
  destruct Hstep as [st text Hl|st Hl|st before after p d Htimers].
  - cbn [timers loading input]. split; [exact Hlen|]. split; [exact Hidle|].
    intros H. exfalso. apply H, Hidle, Hl.
  - destruct (string_dec (JsString.trim (input st)) EmptyString) as [Hblank|Hfull].
    + rewrite exec_handleSend_blank by exact Hblank.
      split; [exact Hlen|]. split; [exact Hidle|exact Hinput].
    + rewrite exec_handleSend by exact Hfull. cbn [submitted timers loading input].
      rewrite (Hidle Hl). split; [simpl; lia|]. split; [discriminate|reflexivity].
  - match goal with |- context [exec env ?c ?s] =>
      destruct (callback_frame env s (p_input p) (p_loading p))
        as (Ht & _ & _ & _) end.
    rewrite Ht. cbn [timers].
    rewrite Htimers, length_app in Hlen. cbn [List.length] in Hlen.
    destruct before; [|simpl in Hlen; lia]. destruct after; [|simpl in Hlen; lia].
    split; [simpl; lia|]. split; [reflexivity|]. intros H. now contradiction H.
Qed.

Lemma reachable_single_flight (env : Env) (msgs : list Message) (st : State) :
  reachable env msgs st ->
  (List.length (timers st) <= 1)%nat /\ (loading st = false -> timers st = [])
  /\ (timers st <> [] -> input st = "").
Proof.
  induction 1 as [|st st' _ IH Hstep].
  - split; [simpl; lia|]. split; [reflexivity|]. intros H. now contradiction H.
  - exact (step_single_flight env st st' IH Hstep).
Qed.

Lemma reachable_sent (env : Env) (msgs : list Message) (text : string) :
  reachable env msgs (sent env msgs text).
Proof.
  apply (reach_step env msgs (composed msgs text)).
  - apply (reach_step env msgs (mounted msgs)); [apply reach_mounted|].
    apply (step_type env (mounted msgs) text). reflexivity.
  - apply (step_send env (composed msgs text)). reflexivity.
Qed.

(** X3: in every state that a mounted component goes through there is
    at most one pending timer, and while there is one the input is empty
    and disabled and the button is disabled: no second submission, key or
    change of the text gets through before the reply. *)
Theorem one_submission_in_flight (env : Env) (msgs : list Message) (st : State) :
  reachable env msgs st ->
  (List.length (timers st) <= 1)%nat
  /\ (timers st <> [] ->
        inputDisabled (render st) = true
        /\ buttonDisabled (render st) = true
        /\ inputValue (render st) = ""
        /\ fire env Click st = None
        /\ (forall key, fire env (KeyDown key) st = None)
        /\ (forall value, fire env (Change value) st = None)).
Proof.
  intros Hreach.
  destruct (reachable_single_flight env msgs st Hreach) as (Hlen & Hidle & Hinput).
  split; [exact Hlen|]. intros Hpending.
  assert (Hl : loading st = true).
  { destruct (loading st); [reflexivity|]. exfalso. apply Hpending, Hidle. reflexivity. }
  simpl. rewrite Hl. repeat split; try reflexivity. apply Hinput, Hpending.
Qed.

Lemma one_submission_in_flight_witness :
  let st := sent Sample.envOffline [] "hello" in
  (List.length (timers st) <= 1)%nat
  /\ (timers st <> [] ->
        inputDisabled (render st) = true
        /\ buttonDisabled (render st) = true
        /\ inputValue (render st) = ""%string
        /\ fire Sample.envOffline Click st = None
        /\ (forall key, fire Sample.envOffline (KeyDown key) st = None)
        /\ (forall value, fire Sample.envOffline (Change value) st = None)).
Proof.
  intros st.
  exact (one_submission_in_flight Sample.envOffline [] st
           (reachable_sent Sample.envOffline [] "hello")).
Defined.


(** *** How the transcript changes *)



(** *** The exchanges of a session *)

Lemma idsFresh_append (env : Env) (st st' : State) (m : Message) :
  uuidsDistinct env -> idsFresh env st ->
  id m = uuid env (draws st) ->
  messages st' = messages st ++ [m] -> draws st' = S (draws st) ->
  idsFresh env st'.
Proof.
  intros Hdistinct [Hunique Hfresh] Hid Hm Hd. split; rewrite Hm.
  - unfold idsUnique. rewrite map_app. simpl. apply NoDup_snoc; [exact Hunique|].
    rewrite Hid. apply Hfresh. lia.
  - intros j Hj. rewrite Hd in Hj. rewrite map_app, in_app_iff. simpl.
    intros [Hin|[Heq|[]]].
    + apply (Hfresh j); [lia|exact Hin].
    + rewrite Hid in Heq. apply Hdistinct in Heq. lia.
Qed.

Lemma idsFresh_removed (env : Env) (st : State) (i : string) :
  idsFresh env st -> idsFresh env (removed st i).
Proof.
  intros [Hunique Hfresh]. split; cbn [removed messages draws applyUpdate].
  - apply idsUnique_filter, Hunique.
  - intros j Hj Hin. apply (Hfresh j Hj). eapply in_map_filter; eauto.
Qed.

Lemma idsFresh_submitted (env : Env) (st : State) (text : string) :
  uuidsDistinct env -> idsFresh env st -> idsFresh env (submitted env st text).
Proof.
  intros Hdistinct H.
  set (st1 := replied st (userMessage env st text)).
  assert (H1 : idsFresh env st1)
    by (apply (idsFresh_append env st st1 (userMessage env st text)); auto).
  apply (idsFresh_append env st1 _ (placeholder env st)); auto.
Qed.

Lemma idsFresh_callback (env : Env) (st : State) (text : string) (lm : Message) :
  uuidsDistinct env -> idsFresh env st ->
  idsFresh env (exec env (timeoutCallback text lm) st).
Proof.
  intros Hdistinct H. rewrite exec_timeoutCallback.
  apply (idsFresh_removed env st (id lm)) in H.
  destruct (dispatch_replies env (removed st (id lm)) (commandOf text))
    as (st1 & c & t & pn & pd & -> & Hst1 & _).
  apply (idsFresh_append env (removed st (id lm)) _
           (created env (removed st (id lm)) Assistant c t pn pd)); auto;
    destruct Hst1 as [->|[[url ->]|[e ->]]]; reflexivity.
Qed.

Lemma step_conversation (env : Env) (st st' : State) :
  uuidsDistinct env ->
  (loading st = false -> timers st = []) ->
  idsFresh env st ->
  (timers st = [] /\ paired (messages st))
  \/ (exists p d, timers st = [(p, d)] /\ awaiting (messages st) (p_input p) (p_loading p)) ->
  step env st st' ->
  idsFresh env st'
  /\ ((timers st' = [] /\ paired (messages st'))
      \/ (exists p d, timers st' = [(p, d)]
                      /\ awaiting (messages st') (p_input p) (p_loading p))).
Proof.
  intros Hdistinct Hidle Hids Hshape Hstep.
  destruct Hstep as [st text Hl|st Hl|st before after p d Htimers].
  - split; assumption.
  - destruct (string_dec (JsString.trim (input st)) EmptyString) as [Hblank|Hfull].
    + rewrite exec_handleSend_blank by exact Hblank. split; assumption.
    + rewrite exec_handleSend by exact Hfull.
      split; [apply idsFresh_submitted; assumption|].
      right. destruct Hshape as [[_ Hpaired]|(p & d & Ht & _)];
        [|rewrite (Hidle Hl) in Ht; discriminate Ht].
      eexists. eexists. cbn [submitted timers messages]. rewrite (Hidle Hl).
      split; [reflexivity|]. cbn [p_input p_loading].
      exists (messages st), (userMessage env st (input st)).
      rewrite <- List.app_assoc. split; [reflexivity|].
      split; [exact Hpaired|]. repeat split; reflexivity.
  - destruct Hshape as [[Ht _]|(p0 & d0 & Ht & l & u & Hm & Hpaired & Hu & _)];
      [rewrite Ht in Htimers; destruct before; discriminate Htimers|].
    rewrite Ht in Htimers.
    assert (Hone : before = [] /\ after = [] /\ p0 = p).
    { destruct before as [|x before].
      - injection Htimers as -> _ <-. auto.
      - injection Htimers as _ Hrest. destruct before; discriminate Hrest. }
    destruct Hone as (-> & -> & ->).
    match goal with |- context [exec env ?c ?s] => set (st0 := s) end.
    assert (Hids0 : idsFresh env st0) by exact Hids.
    split; [apply idsFresh_callback; assumption|]. left.
    destruct (callback_frame env st0 (p_input p) (p_loading p))
      as (Htimers' & _ & _ & _ & r & Hmsgs & Hr).
    split; [rewrite Htimers'; reflexivity|].
    rewrite Hmsgs. subst st0. cbn [messages applyUpdate]. rewrite Hm.
    replace (l ++ [u; p_loading p]) with ((l ++ [u]) ++ p_loading p :: [])
      by (rewrite <- List.app_assoc; reflexivity).
    rewrite filter_removes_exactly.
    + rewrite List.app_nil_r, <- List.app_assoc. apply paired_snoc; assumption.
    + destruct Hids as [Hunique _]. unfold idsUnique in Hunique.
      rewrite Hm in Hunique.
      replace (l ++ [u; p_loading p]) with ((l ++ [u]) ++ p_loading p :: []) in Hunique
        by (rewrite <- List.app_assoc; reflexivity).
      exact Hunique.
Qed.

Lemma reachable_conversation (env : Env) (st : State) :
  uuidsDistinct env -> reachable env [] st ->
  idsFresh env st
  /\ ((timers st = [] /\ paired (messages st))
      \/ (exists p d, timers st = [(p, d)]
                      /\ awaiting (messages st) (p_input p) (p_loading p))).
Proof.
  intros Hdistinct. induction 1 as [|st st' Hreach [IH1 IH2] Hstep].
  - split; [split; [constructor|intros j _ []]|]. left. split; [reflexivity|constructor].
  - destruct (reachable_single_flight env [] st Hreach) as (_ & Hidle & _).
    exact (step_conversation env st st' Hdistinct Hidle IH1 IH2 Hstep).
Qed.



(** *** The notice of the empty transcript *)

Lemma step_nonempty (env : Env) (st st' : State) :
  step env st st' -> messages st <> [] -> messages st' <> [].
Proof.
  intros Hstep Hne. destruct Hstep as [st text Hl|st Hl|st before after p d Htimers].
  - exact Hne.
  - destruct (string_dec (JsString.trim (input st)) EmptyString) as [Hblank|Hfull].
    + rewrite exec_handleSend_blank by exact Hblank. exact Hne.
    + rewrite exec_handleSend by exact Hfull. cbn [submitted messages].
      intros H. apply app_eq_nil in H. destruct H as [_ H]. discriminate H.
  - match goal with |- context [exec env ?c ?s] =>
      destruct (callback_frame env s (p_input p) (p_loading p))
        as (_ & _ & _ & _ & r & Hm & _) end.
    rewrite Hm. intros H. apply app_eq_nil in H. destruct H as [_ H]. discriminate H.
Qed.

(** X7: the rendering shows the notice [No messages yet.] exactly when
    the transcript is empty, and the rows of the messages otherwise; an
    event never empties a transcript that is not empty, so the notice does
    not come back. *)
Theorem notice_only_while_empty (env : Env) (st st' : State) :
  step env st st' ->
  (body (render st) = Notice "No messages yet." <-> messages st = [])
  /\ (messages st <> [] ->
        messages st' <> [] /\ body (render st') = Rows (map row (messages st'))).
Proof.
  intros Hstep. split.
  - unfold render; cbn [body]. destruct (messages st); simpl; split; congruence.
  - intros Hne. pose proof (step_nonempty env st st' Hstep Hne) as Hne'.
    split; [exact Hne'|]. unfold render; cbn [body].
    destruct (messages st'); [congruence|reflexivity].
Qed.

Lemma notice_only_while_empty_witness :
  let st := sent Sample.envOffline [] "hello" in
  let lm := placeholder Sample.envOffline (composed [] "hello") in
  let st' := exec Sample.envOffline (timeoutCallback "hello" lm) (withTimers st []) in
  messages st <> [] /\ messages st' <> []
  /\ body (render st') = Rows (map row (messages st')).
Proof.
  intros st lm st'.
  assert (Hne : messages st <> []) by (vm_compute; discriminate).
  split; [exact Hne|].
  assert (Hstep : step Sample.envOffline st st').
  { apply (step_timer Sample.envOffline st [] []
             {| p_input := "hello"; p_loading := lm |} 2000).
    reflexivity. }
  exact (proj2 (notice_only_while_empty Sample.envOffline st st' Hstep) Hne).
Defined.

(** *** The image of a value in JSON text *)

Lemma image_undefined (v : JsVal) : image v = JUndefined -> v = JUndefined.
Proof. destruct v as [| |b|[z|neg w f| |neg]|s|l|o]; simpl; congruence. Qed.

Lemma imageElement_defined (x : JsVal) :
  x <> JUndefined -> imageElement image x = image x.
Proof. destruct x; simpl; congruence. Qed.

Lemma element_image (x : JsVal) :
  Json.serialize (image x) = Json.serialize x ->
  Json.element Json.serialize (imageElement image x) = Json.element Json.serialize x.
Proof.
  intros H. unfold Json.element. destruct x; try reflexivity;
    cbn [imageElement]; rewrite H; reflexivity.
Qed.

Lemma members_image (o : list (string * JsVal)) :
  Forall (fun kv => Json.serialize (image (snd kv)) = Json.serialize (snd kv)) o ->
  Json.members Json.serialize (imageMembers image o) = Json.members Json.serialize o.
Proof.
  induction 1 as [|[k x] o Hx Ho IH]; [reflexivity|]. cbn [snd] in Hx.
  assert (Hdef : x <> JUndefined ->
            Json.members Json.serialize ((k, image x) :: imageMembers image o)
            = Json.members Json.serialize ((k, x) :: o)).
  { intros _. cbn [Json.members]. fold (Json.members Json.serialize).
    rewrite Hx, IH. reflexivity. }
  destruct x; try (apply Hdef; discriminate).
  cbn [imageMembers Json.members]. exact IH.
Qed.

Lemma serialize_image (v : JsVal) : Json.serialize (image v) = Json.serialize v.
Proof.
  induction v as [| |b|n|s|l IH|o IH] using JsVal_nested_ind; try reflexivity.
  - destruct n as [z|neg w f| |neg]; reflexivity.
  - cbn [image Json.serialize]. rewrite map_map.
    assert (H : map (fun x => Json.element Json.serialize (imageElement image x)) l
                = map (Json.element Json.serialize) l).
    { apply map_ext_Forall. revert IH. apply Forall_impl. intros x. apply element_image. }
    rewrite H. reflexivity.
  - cbn [image Json.serialize]. rewrite (members_image o IH). reflexivity.
Qed.

Lemma forallb_imageMembers (P : string -> bool) (o : list (string * JsVal)) :
  forallb P (map fst o) = true -> forallb P (map fst (imageMembers image o)) = true.
Proof.
  induction o as [|[k x] o IH]; [reflexivity|]. cbn [map fst forallb].
  intros H. apply andb_prop in H. destruct H as [Hk Ho].
  destruct x; cbn [imageMembers map fst forallb]; fold (imageMembers image);
    rewrite ?Hk; auto.
Qed.

Lemma keysInOrder_imageMembers (o : list (string * JsVal)) :
  keysInOrder (map fst o) = true -> keysInOrder (map fst (imageMembers image o)) = true.
Proof.
  induction o as [|[k x] o IH]; [reflexivity|]. cbn [map fst keysInOrder].
  intros H. apply andb_prop in H. destruct H as [Hk Ho].
  destruct x; cbn [imageMembers map fst keysInOrder]; fold (imageMembers image);
    rewrite ?(forallb_imageMembers _ o Hk); auto.
Qed.

Lemma imageMembers_jsonValue (o : list (string * JsVal)) :
  Forall (fun kv => modelled (snd kv) = true -> snd kv <> JUndefined ->
                    jsonValue (image (snd kv)) = true) o ->
  forallb (fun kv => modelled (snd kv)) o = true ->
  forallb (fun kv => jsonValue (snd kv)) (imageMembers image o) = true.
Proof.
  induction 1 as [|[k x] o Hx Ho IH]; [reflexivity|]. cbn [snd] in Hx.
  cbn [forallb snd]. intros H. apply andb_prop in H. destruct H as [Hmx Hmo].
  specialize (IH Hmo).
  assert (Hdef : x <> JUndefined ->
            forallb (fun kv => jsonValue (snd kv)) ((k, image x) :: imageMembers image o)
            = true).
  { intros Hne. cbn [forallb snd]. rewrite (Hx Hmx Hne), IH. reflexivity. }
  destruct x; try (apply Hdef; discriminate).
  cbn [imageMembers]. exact IH.
Qed.

Lemma image_jsonValue (v : JsVal) :
  modelled v = true -> v <> JUndefined -> jsonValue (image v) = true.
Proof.
  induction v as [| |b|n|s|l IH|o IH] using JsVal_nested_ind; intros Hv Hdef;
    try reflexivity; try congruence.
  - destruct n as [z|neg w f| |neg]; try reflexivity; exact Hv.
  - cbn [image jsonValue]. cbn [modelled] in Hv.
    rewrite forallb_forall in *. intros y Hy. apply in_map_iff in Hy.
    destruct Hy as (x & <- & Hx). rewrite Forall_forall in IH.
    destruct x; try reflexivity; cbn [imageElement]; apply IH; auto; discriminate.
  - cbn [image jsonValue]. cbn [modelled] in Hv. apply andb_prop in Hv.
    destruct Hv as [Hvals Hkeys].
    rewrite (keysInOrder_imageMembers o Hkeys), (imageMembers_jsonValue o IH Hvals).
    reflexivity.
Qed.

Lemma image_jsonValue_fixed (v : JsVal) : jsonValue v = true -> image v = v.
Proof.
  induction v as [| |b|n|s|l IH|o IH] using JsVal_nested_ind; intros Hv;
    try reflexivity.
  - destruct n as [z|neg w f| |neg]; try reflexivity; discriminate Hv.
  - cbn [image]. f_equal. cbn [jsonValue] in Hv. rewrite forallb_forall in Hv.
    rewrite Forall_forall in IH. rewrite <- (map_id l) at 2. apply map_ext_in.
    intros x Hx. specialize (Hv x Hx). specialize (IH x Hx Hv).
    destruct x; try discriminate Hv; try reflexivity; exact IH.
  - cbn [image]. f_equal. cbn [jsonValue] in Hv. apply andb_prop in Hv.
    destruct Hv as [Hvals _].
    induction o as [|[k x] o IHo]; [reflexivity|].
    inversion IH as [|? ? Hx Ho]; subst. cbn [snd] in Hx.
    cbn [forallb snd] in Hvals. apply andb_prop in Hvals. destruct Hvals as [Hmx Hmo].
    specialize (IHo Ho Hmo). specialize (Hx Hmx).
    destruct x; try discriminate Hmx; cbn [imageMembers]; fold (imageMembers image);
      rewrite IHo; try rewrite Hx; reflexivity.
Qed.

(** *** Reloading from the slot *)

Lemma reload_storable (msgs : list Message) :
  Forall storable msgs -> initialMessages (persist msgs) = Loaded msgs.
Proof.
  intros Hall.
  assert (Hjson : jsonValue (JArr (map messageJson msgs)) = true).
  { cbn [jsonValue]. apply forallb_forall. intros v Hv.
    apply in_map_iff in Hv. destruct Hv as (m & <- & Hm).
    apply jsonValue_messageJson. rewrite Forall_forall in Hall. auto. }
  destruct (parse_stringify _ Hjson) as (text & Htext & Hparse).
  rewrite persist_messageJson, Htext.
  unfold initialMessages. rewrite Hparse.
  assert (Hne : JsString.isEmpty text = false).
  { unfold Json.stringify in Htext. cbn [Json.serialize option_map] in Htext.
    injection Htext as <-. reflexivity. }
  rewrite Hne. cbn [decodeMessages]. now rewrite decodeAll_messageJson.
Qed.

Lemma element_imageMessage (m : Message) :
  Json.element Json.serialize (messageToJs (imageMessage m))
  = Json.element Json.serialize (messageToJs m).
Proof.
  unfold Json.element, messageToJs, imageMessage.
  cbn [id sender content type pluginName pluginData timestamp Json.serialize Json.members].
  rewrite serialize_image. reflexivity.
Qed.

Lemma persist_image (msgs : list Message) :
  persist (map imageMessage msgs) = persist msgs.
Proof.
  unfold persist, Json.stringify. cbn [Json.serialize]. rewrite !map_map.
  rewrite (map_ext _ _ element_imageMessage). reflexivity.
Qed.

Lemma storable_imageMessage (m : Message) :
  payloadModelled m -> storable (imageMessage m).
Proof.
  unfold payloadModelled, storable. intros H. cbn [imageMessage pluginData].
  destruct (pluginData m) as [| |b|n|s|l|o] eqn:E; [now left| | | | | |];
    right; apply image_jsonValue; (exact H || discriminate).
Qed.

Lemma imageMessage_storable (m : Message) : storable m -> imageMessage m = m.
Proof.
  destruct m as [i s c t pn pd ts]. unfold storable, imageMessage.
  cbn [id sender content type pluginName pluginData timestamp].
  intros [->|H]; [reflexivity|]. now rewrite image_jsonValue_fixed.
Qed.

Lemma reload_image (msgs : list Message) :
  Forall payloadModelled msgs ->
  initialMessages (persist msgs) = Loaded (map imageMessage msgs).
Proof.
  intros H. rewrite <- persist_image. apply reload_storable.
  apply Forall_map. revert H. apply Forall_impl, storable_imageMessage.
Qed.

Lemma persist_some (msgs : list Message) : exists text, persist msgs = Some text.
Proof. eexists. reflexivity. Qed.

(** X8: what the initialiser reads from the slot that the effect wrote.
    For every transcript whose payloads are values of the model, the
    effect writes a text, and the initialiser reads from it the same
    messages in the same order with each payload replaced by its image in
    JSON: NaN and the infinities become [null], [undefined] becomes [null]
    inside an array and drops the property that holds it inside an
    object.  In particular what the effect writes never makes
    [JSON.parse] throw. *)
Theorem reload_reads_json_image (msgs : list Message) :
  Forall payloadModelled msgs ->
  exists text : string,
    persist msgs = Some text
    /\ initialMessages (Some text) = Loaded (map imageMessage msgs).
Proof.
  intros H. destruct (persist_some msgs) as [text Htext].
  exists text. split; [exact Htext|]. rewrite <- Htext. apply reload_image, H.
Qed.

Lemma reload_reads_json_image_witness :
  Forall payloadModelled [infinite]
  /\ exists text : string,
       persist [infinite] = Some text
       /\ initialMessages (Some text) = Loaded (map imageMessage [infinite]).
Proof.
  assert (H : Forall payloadModelled [infinite])
    by (constructor; [reflexivity|constructor]).
  split; [exact H|]. exact (reload_reads_json_image [infinite] H).
Defined.

Lemma imageMessage_idem (m : Message) :
  payloadModelled m -> imageMessage (imageMessage m) = imageMessage m.
Proof. intros H. apply imageMessage_storable, storable_imageMessage, H. Qed.

(** X9: reloading is idempotent.  The transcript that the initialiser
    reads from the slot is written back by the effect as the very same
    text, and read again as itself. *)
Theorem reload_is_idempotent (msgs msgs' : list Message) :
  Forall payloadModelled msgs ->
  initialMessages (persist msgs) = Loaded msgs' ->
  persist msgs' = persist msgs
  /\ initialMessages (persist msgs') = Loaded msgs'.
Proof.
  intros H Hload. rewrite (reload_image msgs H) in Hload. injection Hload as <-.
  split; [apply persist_image|].
  apply reload_storable, Forall_map. revert H. apply Forall_impl, storable_imageMessage.
Qed.

Lemma reload_is_idempotent_witness :
  persist (map imageMessage [infinite]) = persist [infinite]
  /\ initialMessages (persist (map imageMessage [infinite]))
     = Loaded (map imageMessage [infinite]).
Proof.
  apply (reload_is_idempotent [infinite] (map imageMessage [infinite])).
  - constructor; [reflexivity|constructor].
  - vm_compute. reflexivity.
Defined.

(** *** The payloads that a session gathers *)

Lemma exact_modelled (z : Z) (n : JsNum) :
  Calc.exact z = Some n -> modelled (JNum n) = true.
Proof.
  unfold Calc.exact. destruct (safeInt z) eqn:E; [|discriminate].
  intros H. injection H as <-. exact E.
Qed.

Lemma applyOp_modelled (op : Calc.BinOp) (a b : Z) (n : JsNum) :
  Calc.applyOp op a b = Some n -> modelled (JNum n) = true.
Proof.
  destruct op; cbn [Calc.applyOp]; try apply exact_modelled.
  - destruct (_ || _)%bool; [discriminate|apply exact_modelled].
  - destruct (b =? 0)%Z.
    + intros H. injection H as <-. destruct (a =? 0)%Z; reflexivity.
    + destruct (_ && _)%bool; [discriminate|].
      destruct (a mod b =? 0)%Z; [apply exact_modelled|discriminate].
Qed.

Lemma evalExpr_modelled (e : Calc.Expr) (n : JsNum) :
  Calc.evalExpr e = Some n -> modelled (JNum n) = true.
Proof.
  destruct e as [k|op l r]; cbn [Calc.evalExpr]; [apply exact_modelled|].
  destruct (Calc.evalExpr l) as [[a| | |]|]; try discriminate.
  destruct (Calc.evalExpr r) as [[b| | |]|]; try discriminate.
  apply applyOp_modelled.
Qed.

Lemma evalArith_modelled (e : string) (v : JsVal) :
  Calc.evalArith e = Some (Calc.Normal v) -> modelled v = true.
Proof.
  unfold Calc.evalArith.
  destruct (Calc.tokenize _ _) as [[|t ts]|]; try discriminate.
  destruct (Calc.parseSum _ _) as [[x [|? ?]]|]; try discriminate.
  destruct (Calc.evalExpr x) as [n|] eqn:E; [|discriminate].
  intros H. injection H as <-. exact (evalExpr_modelled x n E).
Qed.

Lemma evalJs_modelled (env : Env) (n : nat) (e : string) (v : JsVal) :
  envModelled env -> evalJs env n e = Calc.Normal v -> modelled v = true.
Proof.
  intros [_ Hscript]. unfold evalJs.
  destruct (Calc.evalArith e) as [c|] eqn:E.
  - intros ->. exact (evalArith_modelled e v E).
  - apply Hscript.
Qed.

(** The reply of a dispatch carries no payload, or the payload of the
    request, or the result of the evaluation. *)
Lemma dispatch_reply_payload (env : Env) (st : State) (command : string) :
  envModelled env ->
  exists (st' : State) (c : string) (t : MsgType) (pn : option string) (pd : JsVal),
    exec env (dispatch command) st = replied st' (created env st Assistant c t pn pd)
    /\ messages st' = messages st
    /\ modelled pd = true.
Proof.
  intros Henv. pose proof Henv as [Hhttp _]. unfold dispatch.
  destruct (JsString.startsWith "/weather" command).
  { destruct (JsString.isEmpty _).
    - exists st. do 4 eexists. rewrite exec_reply. repeat split; reflexivity.
    - match goal with |- context [HttpGet ?u _] => exists (asked st u) end.
      unfold exec; cbn [run].
      destruct (http env _ _) as [weather|] eqn:E.
      + destruct (weatherContent _ weather).
        * do 4 eexists. split; [reflexivity|]. split; [reflexivity|].
          exact (Hhttp _ _ _ E).
        * do 4 eexists. repeat split; reflexivity.
      + do 4 eexists. repeat split; reflexivity. }
  destruct (JsString.startsWith "/calc" command).
  { match goal with |- context [EvalJs ?e _] => exists (evaluated st e) end.
    unfold exec; cbn [run].
    destruct (evalJs env _ _) as [result|] eqn:E.
    - do 4 eexists. split; [reflexivity|]. split; [reflexivity|].
      exact (evalJs_modelled _ _ _ _ Henv E).
    - do 4 eexists. repeat split; reflexivity. }
  destruct (JsString.startsWith "/define" command).
  { match goal with |- context [HttpGet ?u _] => exists (asked st u) end.
    unfold exec; cbn [run].
    destruct (http env _ _) as [data|] eqn:E.
    - destruct (definitionChain data).
      + do 4 eexists. split; [reflexivity|]. split; [reflexivity|].
        exact (Hhttp _ _ _ E).
      + do 4 eexists. repeat split; reflexivity.
    - do 4 eexists. repeat split; reflexivity. }
  exists st. do 4 eexists. rewrite exec_reply. repeat split; reflexivity.
Qed.

Lemma step_payloads (env : Env) (st st' : State) :
  envModelled env -> Forall payloadModelled (messages st) -> step env st st' ->
  Forall payloadModelled (messages st').
Proof.
  intros Henv H Hstep. destruct Hstep as [st text _|st _|st before after p d Htimers].
  - exact H.
  - destruct (string_dec (JsString.trim (input st)) EmptyString) as [Hblank|Hfull].
    + rewrite exec_handleSend_blank by exact Hblank. exact H.
    + rewrite exec_handleSend by exact Hfull. cbn [submitted messages].
      repeat (apply Forall_app; split); auto; repeat constructor.
  - rewrite exec_timeoutCallback.
    match goal with |- context [dispatch ?c] => set (cmd := c) end.
    match goal with |- context [removed ?s ?i] => set (st0 := removed s i) end.
    destruct (dispatch_reply_payload env st0 cmd Henv)
      as (st1 & c & t & pn & pd & -> & Hm & Hr).
    cbn [replied messages]. rewrite Hm. apply Forall_app. split.
    + subst st0. cbn [removed messages applyUpdate].
      rewrite Forall_forall in *. intros m Hin. apply filter_In in Hin. apply H, Hin.
    + constructor; [exact Hr|constructor].
Qed.

Lemma reachable_storage (env : Env) (msgs : list Message) (st : State) :
  reachable env msgs st -> storage st = persist (messages st).
Proof.
  induction 1 as [|st st' _ IH Hstep]; [reflexivity|].
  exact (step_storage env st st' IH Hstep).
Qed.

Lemma reachable_payloads (env : Env) (msgs : list Message) (st : State) :
  envModelled env -> Forall payloadModelled msgs -> reachable env msgs st ->
  Forall payloadModelled (messages st).
Proof.
  intros Henv Hmsgs. induction 1 as [|st st' _ IH Hstep]; [exact Hmsgs|].
  exact (step_payloads env st st' Henv IH Hstep).
Qed.

Lemma envOffline_modelled : envModelled Sample.envOffline.
Proof. split; intros n x v H; discriminate H. Qed.



Lemma textOf_not_empty (v : JsVal) :
  jsonValue v = true -> JsString.isEmpty (string_of_list_ascii (textOf v)) = false.
Proof.
  intros H. destruct (textOf_starts v H) as (c & t & -> & _). reflexivity.
Qed.

(** X11: the initialiser does not check what it parses.  Whatever value
    of JSON the slot holds the text of becomes the state of the component:
    a sequence of messages is loaded as such, and any other value (an
    object, [null], a number) is taken as it is. *)
Theorem initialiser_takes_any_json (v : JsVal) :
  jsonValue v = true ->
  exists text : string,
    Json.stringify v = Some text
    /\ initialMessages (Some text)
       = match decodeMessages v with
         | Some msgs => Loaded msgs
         | None => Foreign v
         end.
Proof.
  intros Hv. destruct (parse_stringify v Hv) as (text & Htext & Hparse).
  exists text. split; [exact Htext|].
  unfold initialMessages. rewrite Hparse.
  assert (Hne : JsString.isEmpty text = false).
  { unfold Json.stringify in Htext. rewrite (serialize_textOf v Hv) in Htext.
    injection Htext as <-. apply textOf_not_empty, Hv. }
  rewrite Hne. reflexivity.
Qed.

Lemma initialiser_takes_any_json_witness :
  exists text : string,
    Json.stringify (JObj []) = Some text
    /\ initialMessages (Some text) = Foreign (JObj []).
Proof.
  exact (initialiser_takes_any_json (JObj []) eq_refl).
Defined.

(** *** What stays in a loaded transcript *)

Lemma step_keeps_loaded (env : Env) (msgs : list Message) (st st' : State) :
  (forall j, ~ In (uuid env j) (map id msgs)) ->
  incl msgs (messages st) -> pendingDrawn env st -> step env st st' ->
  incl msgs (messages st') /\ pendingDrawn env st'.
Proof.
  intros Hfresh Hincl Hpend Hstep.
  destruct Hstep as [st text _|st _|st before after p d Htimers].
  - split; assumption.
  - destruct (string_dec (JsString.trim (input st)) EmptyString) as [Hblank|Hfull].
    + rewrite exec_handleSend_blank by exact Hblank. split; assumption.
    + rewrite exec_handleSend by exact Hfull. split.
      * cbn [submitted messages]. intros m Hm. apply in_or_app. left.
        apply in_or_app. left. apply Hincl, Hm.
      * intros q e Hin. cbn [submitted timers] in Hin. apply in_app_or in Hin.
        destruct Hin as [Hin|[Heq|[]]]; [exact (Hpend q e Hin)|].
        injection Heq as <- _. eexists. reflexivity.
  - match goal with |- context [exec env ?c ?s] =>
      destruct (callback_frame env s (p_input p) (p_loading p))
        as (Ht & _ & _ & _ & r & Hm & _) end.
    split.
    + intros m Hin. rewrite Hm. apply in_or_app. left.
      cbn [messages applyUpdate]. apply filter_In. split; [apply Hincl, Hin|].
      destruct (Hpend p d) as [j Hj]; [rewrite Htimers; apply in_elt|].
      destruct (String.eqb_spec (id m) (id (p_loading p))) as [E|E]; [|reflexivity].
      exfalso. apply (Hfresh j). rewrite <- Hj, <- E. apply in_map, Hin.
    + intros q e Hin. rewrite Ht in Hin. cbn [timers] in Hin.
      apply (Hpend q e). rewrite Htimers. apply in_app_or in Hin.
      apply in_or_app. destruct Hin; [now left|right; now right].
Qed.

Lemma reachable_keeps_loaded (env : Env) (msgs : list Message) (st : State) :
  (forall j, ~ In (uuid env j) (map id msgs)) ->
  reachable env msgs st ->
  incl msgs (messages st) /\ pendingDrawn env st.
Proof.
  intros Hfresh. induction 1 as [|st st' _ [IH1 IH2] Hstep].
  - split; [apply incl_refl|]. intros p d [].
  - exact (step_keeps_loaded env msgs st st' Hfresh IH1 IH2 Hstep).
Qed.

Lemma unary_not_stored (j : nat) : ~ In (uuid Sample.envOffline j) (map id [stored]).
Proof. intros [H|[]]. destruct j; discriminate H. Qed.

(** X12: a message loaded from the slot stays in the transcript through
    everything that happens later, provided [uuidv4] does not return the
    id of a loaded message: the only removal is that of a placeholder by
    the id that was drawn for it. *)
Theorem loaded_messages_stay (env : Env) (msgs : list Message) (st : State)
    (m : Message) :
  (forall j, ~ In (uuid env j) (map id msgs)) ->
  reachable env msgs st -> In m msgs -> In m (messages st).
Proof.
  intros Hfresh Hreach Hin.
  destruct (reachable_keeps_loaded env msgs st Hfresh Hreach) as [Hincl _].
  apply Hincl, Hin.
Qed.

Lemma loaded_messages_stay_witness :
  In stored (messages (sent Sample.envOffline [stored] "hello")).
Proof.
  apply (loaded_messages_stay Sample.envOffline [stored]).
  - exact unary_not_stored.
  - exact (reachable_sent Sample.envOffline [stored] "hello").
  - now left.
Defined.

(** X13: a reload between a send and its timer.  After a send the slot
    holds the transcript with the user message and the [Typing...]
    placeholder at its end; a component mounted on it has no pending
    timer, and the placeholder stays in its transcript through everything
    that happens later (with the ids that [uuidv4] then returns not among
    the loaded ones). *)
Theorem reload_mid_submission (env : Env) (st : State) (text : string) :
  JsString.trim text <> EmptyString ->
  Forall payloadModelled (messages st) ->
  let st1 := exec env (handleSend text) st in
  let loaded := map imageMessage (messages st)
                ++ [userMessage env st text; placeholder env st] in
  timers st1 <> []
  /\ reload st1 = Loaded loaded
  /\ timers (mounted loaded) = []
  /\ (forall (env' : Env) (st2 : State),
        (forall j, ~ In (uuid env' j) (map id loaded)) ->
        reachable env' loaded st2 ->
        In (placeholder env st) (messages st2)).
Proof.
  intros Hfull Hmsgs st1 loaded.
  assert (Hst1 : st1 = submitted env st text) by (apply exec_handleSend, Hfull).
  split; [rewrite Hst1; cbn [submitted timers]; intros H; now apply app_eq_nil in H|].
  split; [|split; [reflexivity|]].
  - unfold reload. rewrite Hst1. cbn [submitted storage].
    rewrite reload_image.
    + rewrite !map_app. subst loaded. rewrite <- List.app_assoc. reflexivity.
    + repeat (apply Forall_app; split); auto; repeat constructor.
  - intros env' st2 Hfresh Hreach.
    destruct (reachable_keeps_loaded env' loaded st2 Hfresh Hreach) as [Hincl _].
    apply Hincl. subst loaded. apply in_or_app. right. right. now left.
Qed.

Lemma reload_mid_submission_witness :
  let env := Sample.envOffline in
  let st := composed [] "hello" in
  let loaded := [userMessage env st "hello"; placeholder env st] in
  timers (sent env [] "hello") <> []
  /\ reload (sent env [] "hello") = Loaded loaded
  /\ timers (mounted loaded) = []
  /\ (forall (env' : Env) (st2 : State),
        (forall j, ~ In (uuid env' j) (map id loaded)) ->
        reachable env' loaded st2 ->
        In (placeholder env st) (messages st2)).
Proof.
  intros env st loaded.
  apply (reload_mid_submission env st "hello").
  - vm_compute. discriminate.
  - constructor.
Defined.

(** *** The replies to the payloads *)

Lemma getProp_field (v : JsVal) (name : string) :
  getProp v name = if nullish v then None else Some (fieldOf name v).
Proof. unfold fieldOf. destruct v; reflexivity. Qed.

Lemma getIndex0_first (v : JsVal) :
  getIndex0 v = if nullish v then None else Some (firstOf v).
Proof. unfold firstOf. destruct v; reflexivity. Qed.

Lemma field_nullish (v : JsVal) (name : string) :
  nullish v = true -> fieldOf name v = JUndefined.
Proof. destruct v; try discriminate; reflexivity. Qed.

Lemma first_nullish (v : JsVal) : nullish v = true -> firstOf v = JUndefined.
Proof. destruct v; try discriminate; reflexivity. Qed.

Lemma weatherContent_cases (city : string) (w : JsVal) :
  weatherContent city w
  = if weatherReadable w then Some (weatherText city w) else None.
Proof.
  unfold weatherContent, weatherReadable, weatherText.
  rewrite (getProp_field w "weather"), (getProp_field w "main").
  destruct (nullish w) eqn:Hw.
  { rewrite (field_nullish w "weather" Hw). reflexivity. }
  cbn [obind]. rewrite getIndex0_first.
  destruct (nullish (fieldOf "weather" w)) eqn:Hws.
  { rewrite (first_nullish _ Hws). reflexivity. }
  cbn [obind]. rewrite getProp_field.
  destruct (nullish (firstOf (fieldOf "weather" w))) eqn:Hw0; [reflexivity|].
  cbn [obind negb andb]. rewrite getProp_field.
  destruct (nullish (fieldOf "main" w)); reflexivity.
Qed.



Lemma definitionChain_throws (data : JsVal) :
  definitionChain data = None <-> defineThrows data = true.
Proof.
  unfold definitionChain, defineThrows. cbv zeta.
  rewrite getIndex0_first.
  destruct (nullish data) eqn:Hd; [split; reflexivity|].
  cbn [obind orb]. destruct (nullish (firstOf data)) eqn:He; [split; discriminate|].
  cbn [negb andb]. rewrite getProp_field, He. cbn [obind]. rewrite getIndex0_first.
  destruct (nullish (fieldOf "meanings" (firstOf data))) eqn:Hms; [split; reflexivity|].
  cbn [obind orb].
  destruct (nullish (firstOf (fieldOf "meanings" (firstOf data)))) eqn:Hm;
    [split; discriminate|].
  cbn [negb andb]. rewrite getProp_field, Hm. cbn [obind]. rewrite getIndex0_first.
  destruct (nullish (fieldOf "definitions" (firstOf (fieldOf "meanings" (firstOf data)))))
    eqn:Hds; [split; reflexivity|].
  cbn [obind].
  destruct (nullish (firstOf (fieldOf "definitions" (firstOf (fieldOf "meanings" (firstOf data))))))
    eqn:Hdf; [split; discriminate|].
  rewrite getProp_field, Hdf. split; discriminate.
Qed.





(** *** The calculator on two literals *)

Lemma tokenize_literal (f : nat) (n : N) (rest : list ascii) :
  noDigit rest = true ->
  Calc.tokenize (S f) (uintChars (N.to_uint n) ++ rest)
  = option_map (cons (Calc.TNum n)) (Calc.tokenize f rest).
Proof.
  intros Hrest. pose proof (to_uint_shape n) as Hshape.
  pose proof (DecimalN.Unsigned.of_to n) as Hof.
  pose proof (readDigits_uintChars (N.to_uint n) rest Hrest) as Hread.
  destruct (N.to_uint n) as [|d|d|d|d|d|d|d|d|d|d]; try contradiction;
    cbn [uintChars List.app] in *; cbn [Calc.tokenize];
    rewrite Hread;
    try (destruct d; try contradiction);
    rewrite <- Hof; reflexivity.
Qed.

Lemma uintChars_length (n : N) : (1 <= List.length (uintChars (N.to_uint n)))%nat.
Proof.
  destruct (uintChars_head n) as (c & t & -> & _). simpl. lia.
Qed.

Lemma noDigit_opChar (op : Calc.BinOp) (rest : list ascii) :
  noDigit (opChar op :: rest) = true.
Proof. destruct op; reflexivity. Qed.

Lemma tokenize_operator (f : nat) (op : Calc.BinOp) (rest : list ascii) :
  Calc.tokenize (S f) (opChar op :: rest)
  = option_map (cons (opToken op)) (Calc.tokenize f rest).
Proof. destruct op; reflexivity. Qed.

Lemma tokenize_binary (f : nat) (op : Calc.BinOp) (a b : N) :
  (3 <= f)%nat ->
  Calc.tokenize (S f) (uintChars (N.to_uint a) ++ opChar op :: uintChars (N.to_uint b))
  = Some [Calc.TNum a; opToken op; Calc.TNum b].
Proof.
  intros Hf. rewrite tokenize_literal by apply noDigit_opChar.
  destruct f as [|[|[|f]]]; try lia.
  assert (Hb : Calc.tokenize (S (S f)) (uintChars (N.to_uint b))
               = Some [Calc.TNum b]).
  { rewrite <- (List.app_nil_r (uintChars (N.to_uint b))).
    rewrite tokenize_literal by reflexivity. reflexivity. }
  rewrite tokenize_operator, Hb. reflexivity.
Qed.

Lemma evalArith_binary (op : Calc.BinOp) (a b : N) :
  (Z.of_N a <= maxSafe)%Z -> (Z.of_N b <= maxSafe)%Z ->
  Calc.evalArith (binaryText op a b)
  = option_map (fun n => Calc.Normal (JNum n)) (Calc.applyOp op (Z.of_N a) (Z.of_N b)).
Proof.
  intros Ha Hb. unfold Calc.evalArith, binaryText. cbv zeta.
  rewrite list_ascii_of_string_of_list_ascii.
  rewrite tokenize_binary.
  - assert (Hparse : forall f, Calc.parseSum (S (S (S (S (S (S f))))))
                       [Calc.TNum a; opToken op; Calc.TNum b]
                     = Some (Calc.Bin op (Calc.Lit a) (Calc.Lit b), [])).
    { intros f. destruct op; reflexivity. }
    cbn [List.length Nat.mul Nat.add]. rewrite Hparse.
    cbn [Calc.evalExpr]. unfold Calc.exact, safeInt.
    rewrite !Z.abs_eq by lia.
    apply Z.leb_le in Ha, Hb. rewrite Ha, Hb. reflexivity.
  - rewrite length_app. cbn [List.length].
    pose proof (uintChars_length a). pose proof (uintChars_length b). lia.
Qed.

Lemma applyOp_exact (op : Calc.BinOp) (a b : N) :
  exactOperation op a b ->
  Calc.applyOp op (Z.of_N a) (Z.of_N b) = Some (NInt (valueOf op a b)).
Proof.
  intros (Ha & Hb & Hv & Hdiv).
  assert (Hsafe : safeInt (valueOf op a b) = true) by (apply Z.leb_le, Hv).
  destruct op; cbn [Calc.applyOp valueOf] in *; unfold Calc.exact.
  - now rewrite Hsafe.
  - now rewrite Hsafe.
  - replace (Z.of_N b <? 0)%Z with false by (symmetry; apply Z.ltb_ge; lia).
    replace (Z.of_N a <? 0)%Z with false by (symmetry; apply Z.ltb_ge; lia).
    rewrite !andb_false_r. cbn [orb]. now rewrite Hsafe.
  - destruct (Hdiv eq_refl) as [Hb0 Hmod].
    replace (Z.of_N b =? 0)%Z with false by (symmetry; apply Z.eqb_neq; lia).
    replace (Z.of_N b <? 0)%Z with false by (symmetry; apply Z.ltb_ge; lia).
    rewrite andb_false_r. apply Z.eqb_eq in Hmod. rewrite Hmod. now rewrite Hsafe.
Qed.

Lemma dispatch_calc (env : Env) (st : State) (command : string) :
  JsString.startsWith "/weather" command = false ->
  JsString.startsWith "/calc" command = true ->
  let e := JsString.trim (JsString.replaceFirst "/calc" command) in
  exec env (dispatch command) st
  = replied (evaluated st e)
      match evalJs env (List.length (evals st)) e with
      | Calc.Normal v =>
          created env st Assistant ("Result: " ++ toString v) Plugin (Some "calc") v
      | Calc.Throw => textReply env st "Invalid expression"
      end.
Proof.
  intros Hw Hc e. unfold dispatch. rewrite Hw, Hc. fold e.
  unfold exec; cbn [run]. destruct (evalJs env _ e); reflexivity.
Qed.

(** X17: the calculator on one operation.  For a command whose
    expression is [a op b], with [a] and [b] decimal literals and [op]
    one of [+ - * /], where the operands and the result are integers of
    magnitude at most 2^53 - 1 and a division leaves no remainder, the
    reply is the plugin message [Result: <value>] with the value as its
    data, in every environment. *)
Theorem calc_binary_operation (env : Env) (st : State) (command : string)
    (op : Calc.BinOp) (a b : N) :
  JsString.startsWith "/weather" command = false ->
  JsString.startsWith "/calc" command = true ->
  JsString.trim (JsString.replaceFirst "/calc" command) = binaryText op a b ->
  exactOperation op a b ->
  exec env (dispatch command) st
  = replied (evaluated st (binaryText op a b))
      (numberReply env st (NInt (valueOf op a b))).
Proof.
  intros Hw Hc He Hexact. rewrite (dispatch_calc env st command Hw Hc). cbv zeta.
  rewrite He. unfold evalJs.
  pose proof Hexact as (Ha & Hb & _).
  rewrite (evalArith_binary op a b Ha Hb), (applyOp_exact op a b Hexact).
  reflexivity.
Qed.

Lemma calc_binary_operation_witness :
  exec Sample.envOffline (dispatch "/calc 6*7") (Sample.typed "")
  = replied (evaluated (Sample.typed "") "6*7")
      (numberReply Sample.envOffline (Sample.typed "") (NInt 42)).
Proof.
  apply (calc_binary_operation Sample.envOffline (Sample.typed "") "/calc 6*7"
           Calc.Mul 6 7).
  - reflexivity.
  - reflexivity.
  - reflexivity.
  - repeat split; vm_compute; discriminate.
Defined.



(** X19: the calculator has no guard for a missing expression.  A
    command that starts with [/calc] and has nothing but white space after
    it (as the rewriting of [what is] alone has) is handed to the
    evaluator with the empty expression, and the reply is [Invalid
    expression]. *)
Theorem calc_blank_expression (env : Env) (st : State) (command : string) :
  JsString.startsWith "/weather" command = false ->
  JsString.startsWith "/calc" command = true ->
  JsString.trim (JsString.replaceFirst "/calc" command) = EmptyString ->
  exec env (dispatch command) st
  = replied (evaluated st "") (textReply env st "Invalid expression").
Proof.
  intros Hw Hc He. rewrite (dispatch_calc env st command Hw Hc). cbv zeta.
  rewrite He. reflexivity.
Qed.

Lemma calc_blank_expression_witness :
  commandOf "what is" = "/calc "%string
  /\ exec Sample.envOffline (dispatch (commandOf "what is")) (Sample.typed "")
     = replied (evaluated (Sample.typed "") "")
         (textReply Sample.envOffline (Sample.typed "") "Invalid expression").
Proof.
  split; [reflexivity|].
  apply (calc_blank_expression Sample.envOffline (Sample.typed "") (commandOf "what is"));
    reflexivity.
Defined.

(** *** From the question to the handler *)

Lemma trimEnd_idem (s : string) : JsString.trimEnd (JsString.trimEnd s) = JsString.trimEnd s.
Proof.
  induction s as [|c s IH]; [reflexivity|]. cbn [JsString.trimEnd].
  destruct (JsString.isWhiteSpace c && JsString.isEmpty (JsString.trimEnd s)) eqn:E;
    [reflexivity|].
  cbn [JsString.trimEnd]. rewrite IH, E. reflexivity.
Qed.

Lemma trimStart_head (s : string) :
  JsString.trimStart s = EmptyString
  \/ exists c r, JsString.trimStart s = String c r /\ JsString.isWhiteSpace c = false.
Proof.
  induction s as [|c s IH]; [now left|]. cbn [JsString.trimStart].
  destruct (JsString.isWhiteSpace c) eqn:E; [exact IH|].
  right. exists c, s. split; [reflexivity|exact E].
Qed.

Lemma trim_idem (s : string) : JsString.trim (JsString.trim s) = JsString.trim s.
Proof.
  unfold JsString.trim.
  destruct (trimStart_head s) as [->|(c & r & -> & Hc)]; [reflexivity|].
  cbn [JsString.trimEnd]. rewrite Hc. cbn [andb JsString.trimStart]. rewrite Hc.
  cbn [JsString.trimEnd]. rewrite Hc. cbn [andb]. rewrite trimEnd_idem. reflexivity.
Qed.

Lemma dispatch_effects (env : Env) (st : State) (command : string) :
  let st' := exec env (dispatch command) st in
  evals st'
  = evals st
    ++ (if negb (JsString.startsWith "/weather" command)
           && JsString.startsWith "/calc" command
        then [JsString.trim (JsString.replaceFirst "/calc" command)]
        else [])
  /\ requests st'
     = requests st
       ++ (if JsString.startsWith "/weather" command then
             let city := JsString.trim (JsString.replaceFirst "/weather" command) in
             if JsString.isEmpty city then [] else [weatherUrl city]
           else if JsString.startsWith "/calc" command then []
           else if JsString.startsWith "/define" command then
             [defineUrl (JsString.trim (JsString.replaceFirst "/define" command))]
           else []).
Proof.
  unfold dispatch.
  destruct (JsString.startsWith "/weather" command).
  { cbv zeta. destruct (JsString.isEmpty _).
    - rewrite exec_reply. cbn [replied evals requests]. rewrite !List.app_nil_r.
      split; reflexivity.
    - unfold exec; cbn [run].
      destruct (http env _ _) as [weather|]; [destruct (weatherContent _ weather)|];
        cbn; rewrite ?List.app_nil_r; split; reflexivity. }
  destruct (JsString.startsWith "/calc" command).
  { unfold exec; cbn [run]. destruct (evalJs env _ _);
      cbn; rewrite ?List.app_nil_r; split; reflexivity. }
  destruct (JsString.startsWith "/define" command).
  { unfold exec; cbn [run].
    destruct (http env _ _) as [data|]; [destruct (definitionChain data)|];
      cbn; rewrite ?List.app_nil_r; split; reflexivity. }
  rewrite exec_reply. cbn. rewrite !List.app_nil_r. split; reflexivity.
Qed.

Lemma callback_effects (env : Env) (st : State) (text : string) (lm : Message) :
  let st' := exec env (timeoutCallback text lm) st in
  let command := commandOf text in
  evals st'
  = evals st
    ++ (if negb (JsString.startsWith "/weather" command)
           && JsString.startsWith "/calc" command
        then [JsString.trim (JsString.replaceFirst "/calc" command)]
        else [])
  /\ requests st'
     = requests st
       ++ (if JsString.startsWith "/weather" command then
             let city := JsString.trim (JsString.replaceFirst "/weather" command) in
             if JsString.isEmpty city then [] else [weatherUrl city]
           else if JsString.startsWith "/calc" command then []
           else if JsString.startsWith "/define" command then
             [defineUrl (JsString.trim (JsString.replaceFirst "/define" command))]
           else []).
Proof.
  cbv zeta. rewrite exec_timeoutCallback.
  exact (dispatch_effects env (removed st (id lm)) (commandOf text)).
Qed.

Local Open Scope string_scope.

Lemma parse_weather_rule (t : string) :
  JsString.includes "weather in" (JsString.toLowerCase t) = true ->
  parseNaturalLanguage t
  = Some ("/weather "
          ++ match nth_error (JsString.split "weather in" (JsString.toLowerCase t)) 1 with
             | Some piece => JsString.stripPunct (JsString.trim piece)
             | None => "undefined"
             end).
Proof.
  intros H. unfold parseNaturalLanguage, phraseWeather. rewrite H. reflexivity.
Qed.

Lemma parse_calc_rule (t : string) :
  JsString.includes "weather in" (JsString.toLowerCase t) = false ->
  JsString.startsWith "what is" (JsString.toLowerCase t)
  || JsString.startsWith "calculate" (JsString.toLowerCase t) = true ->
  parseNaturalLanguage t
  = Some ("/calc " ++ JsString.trim (JsString.removeAllCI ["what is"; "calculate"] t)).
Proof.
  intros Hw Hc. unfold parseNaturalLanguage, phraseWeather. rewrite Hw, Hc. reflexivity.
Qed.

Lemma parse_define_rule (t : string) :
  JsString.includes "weather in" (JsString.toLowerCase t) = false ->
  JsString.startsWith "what is" (JsString.toLowerCase t)
  || JsString.startsWith "calculate" (JsString.toLowerCase t) = false ->
  JsString.startsWith "define" (JsString.toLowerCase t)
  || JsString.startsWith "what does" (JsString.toLowerCase t) = true ->
  parseNaturalLanguage t
  = Some ("/define "
          ++ JsString.stripPunct
               (JsString.trim
                  (JsString.removeAllCI ["define"; "what does"; "mean"] t))).
Proof.
  intros Hw Hc Hd. unfold parseNaturalLanguage, phraseWeather.
  rewrite Hw, Hc, Hd. reflexivity.
Qed.

Lemma parse_no_rule (t : string) :
  JsString.includes "weather in" (JsString.toLowerCase t) = false ->
  JsString.startsWith "what is" (JsString.toLowerCase t)
  || JsString.startsWith "calculate" (JsString.toLowerCase t) = false ->
  JsString.startsWith "define" (JsString.toLowerCase t)
  || JsString.startsWith "what does" (JsString.toLowerCase t) = false ->
  parseNaturalLanguage t = None.
Proof.
  intros Hw Hc Hd. unfold parseNaturalLanguage, phraseWeather.
  rewrite Hw, Hc, Hd. reflexivity.
Qed.

Lemma commandOf_weather (text : string) :
  JsString.includes "weather in" (JsString.toLowerCase (JsString.trim text)) = true ->
  commandOf text
  = "/weather "
    ++ match nth_error (JsString.split "weather in"
                          (JsString.toLowerCase (JsString.trim text))) 1 with
       | Some piece => JsString.stripPunct (JsString.trim piece)
       | None => "undefined"
       end.
Proof.
  intros Hw. unfold commandOf. rewrite (parse_weather_rule _ Hw). reflexivity.
Qed.

Lemma commandOf_calc (text : string) :
  JsString.includes "weather in" (JsString.toLowerCase (JsString.trim text)) = false ->
  JsString.startsWith "what is" (JsString.toLowerCase (JsString.trim text))
  || JsString.startsWith "calculate" (JsString.toLowerCase (JsString.trim text)) = true ->
  commandOf text
  = "/calc "
    ++ JsString.trim (JsString.removeAllCI ["what is"; "calculate"] (JsString.trim text)).
Proof.
  intros Hw Hc. unfold commandOf. rewrite (parse_calc_rule _ Hw Hc). reflexivity.
Qed.

Lemma commandOf_define (text : string) :
  JsString.includes "weather in" (JsString.toLowerCase (JsString.trim text)) = false ->
  JsString.startsWith "what is" (JsString.toLowerCase (JsString.trim text))
  || JsString.startsWith "calculate" (JsString.toLowerCase (JsString.trim text)) = false ->
  JsString.startsWith "define" (JsString.toLowerCase (JsString.trim text))
  || JsString.startsWith "what does" (JsString.toLowerCase (JsString.trim text)) = true ->
  commandOf text
  = "/define "
    ++ JsString.stripPunct
         (JsString.trim
            (JsString.removeAllCI ["define"; "what does"; "mean"] (JsString.trim text))).
Proof.
  intros Hw Hc Hd. unfold commandOf. rewrite (parse_define_rule _ Hw Hc Hd). reflexivity.
Qed.

Lemma commandOf_plain (text : string) :
  JsString.includes "weather in" (JsString.toLowerCase (JsString.trim text)) = false ->
  JsString.startsWith "what is" (JsString.toLowerCase (JsString.trim text))
  || JsString.startsWith "calculate" (JsString.toLowerCase (JsString.trim text)) = false ->
  JsString.startsWith "define" (JsString.toLowerCase (JsString.trim text))
  || JsString.startsWith "what does" (JsString.toLowerCase (JsString.trim text)) = false ->
  commandOf text = JsString.trim text.
Proof.
  intros Hw Hc Hd. unfold commandOf. rewrite (parse_no_rule _ Hw Hc Hd). reflexivity.
Qed.

(** X20: from a question to the evaluator.  When the trimmed input,
    lower-cased, does not contain [weather in] and starts with [what is]
    or [calculate], the command is [/calc] followed by the input without
    the two phrases, trimmed, and that expression is exactly what the
    timer callback evaluates; no request is issued. *)
Theorem calc_rule_feeds_evaluator (env : Env) (st : State) (text : string)
    (lm : Message) :
  let command := JsString.trim text in
  let lower := JsString.toLowerCase command in
  JsString.includes "weather in" lower = false ->
  JsString.startsWith "what is" lower || JsString.startsWith "calculate" lower = true ->
  let expression :=
    JsString.trim (JsString.removeAllCI ["what is"; "calculate"] command) in
  commandOf text = "/calc " ++ expression
  /\ evals (exec env (timeoutCallback text lm) st) = (evals st ++ [expression])%list
  /\ requests (exec env (timeoutCallback text lm) st) = requests st.
Proof.
  intros command lower Hw Hc expression.
  pose proof (commandOf_calc text Hw Hc) as Hcmd. fold command expression in Hcmd.
  split; [exact Hcmd|].
  destruct (callback_effects env st text lm) as [He Hr].
  rewrite Hcmd in He, Hr.
  change (JsString.startsWith "/weather" ("/calc " ++ expression)) with false in He, Hr.
  change (JsString.startsWith "/calc" ("/calc " ++ expression)) with true in He, Hr.
  change (JsString.trim (JsString.replaceFirst "/calc" ("/calc " ++ expression)))
    with (JsString.trim expression) in He.
  cbn [negb andb] in He.
  assert (Htrim : JsString.trim expression = expression) by apply trim_idem.
  rewrite Htrim in He.
  split; [exact He|]. rewrite Hr. apply List.app_nil_r.
Qed.

Lemma calc_rule_feeds_evaluator_witness :
  let lm := placeholder Sample.envOffline (Sample.typed "Calculate 6*7") in
  let st := sent Sample.envOffline [] "Calculate 6*7" in
  commandOf "Calculate 6*7" = "/calc 6*7"
  /\ evals (exec Sample.envOffline (timeoutCallback "Calculate 6*7" lm) st)
     = (evals st ++ ["6*7"])%list
  /\ requests (exec Sample.envOffline (timeoutCallback "Calculate 6*7" lm) st)
     = requests st.
Proof.
  intros lm st.
  apply (calc_rule_feeds_evaluator Sample.envOffline st "Calculate 6*7" lm);
    reflexivity.
Defined.





Lemma snoc_differs {A : Type} (l : list A) (x : A) : (l ++ [x])%list <> l.
Proof.
  intros H. apply (f_equal (@List.length A)) in H.
  rewrite length_app in H. simpl in H. lia.
Qed.

Lemma slash_calc_is_no_phrase (command : string) :
  JsString.startsWith "/calc" command = true ->
  JsString.startsWith "/weather" command = false
  /\ JsString.startsWith "what is" (JsString.toLowerCase command) = false
  /\ JsString.startsWith "calculate" (JsString.toLowerCase command) = false
  /\ JsString.startsWith "define" (JsString.toLowerCase command) = false
  /\ JsString.startsWith "what does" (JsString.toLowerCase command) = false.
Proof.
  intros H. destruct (startsWith_split _ _ H) as [r ->]. repeat split; reflexivity.
Qed.

(** X23: when text of the user reaches [Function].  The timer callback
    evaluates a script exactly when the trimmed input, lower-cased, does
    not contain [weather in] and the trimmed input starts with [/calc] or,
    whatever the case of its letters, with [what is] or [calculate]. *)
Theorem evaluation_needs_calc_input (env : Env) (st : State) (text : string)
    (lm : Message) :
  let command := JsString.trim text in
  let lower := JsString.toLowerCase command in
  evals (exec env (timeoutCallback text lm) st) <> evals st
  <-> JsString.includes "weather in" lower = false
      /\ (JsString.startsWith "/calc" command
          || JsString.startsWith "what is" lower
          || JsString.startsWith "calculate" lower = true).
Proof.
  intros command lower.
  destruct (callback_effects env st text lm) as [He _]. rewrite He. clear He.
  destruct (JsString.includes "weather in" lower) eqn:Hw.
  { rewrite (commandOf_weather text Hw).
    set (city := match nth_error _ 1 with Some _ => _ | None => _ end).
    change (JsString.startsWith "/weather" ("/weather " ++ city)) with true.
    cbn [negb andb]. rewrite List.app_nil_r.
    split; [intros H; contradiction|intros [H _]; discriminate H]. }
  destruct (JsString.startsWith "what is" lower || JsString.startsWith "calculate" lower)
    eqn:Hc.
  { rewrite (commandOf_calc text Hw Hc).
    set (e := JsString.trim (JsString.removeAllCI _ _)).
    change (JsString.startsWith "/weather" ("/calc " ++ e)) with false.
    change (JsString.startsWith "/calc" ("/calc " ++ e)) with true.
    cbn [negb andb]. split.
    - intros _. split; [reflexivity|]. rewrite <- orb_assoc, Hc. apply orb_true_r.
    - intros _. apply snoc_differs. }
  destruct (JsString.startsWith "define" lower || JsString.startsWith "what does" lower)
    eqn:Hd.
  { rewrite (commandOf_define text Hw Hc Hd).
    set (w := JsString.stripPunct _).
    change (JsString.startsWith "/weather" ("/define " ++ w)) with false.
    change (JsString.startsWith "/calc" ("/define " ++ w)) with false.
    cbn [negb andb]. rewrite List.app_nil_r.
    split; [intros H; contradiction|]. intros [_ H].
    rewrite <- orb_assoc, Hc, orb_false_r in H.
    destruct (slash_calc_is_no_phrase command H) as (_ & _ & _ & H1 & H2).
    fold lower in H1, H2. rewrite H1, H2 in Hd. discriminate Hd. }
  rewrite (commandOf_plain text Hw Hc Hd). fold command.
  rewrite <- orb_assoc, Hc, orb_false_r.
  destruct (JsString.startsWith "/calc" command) eqn:Hcalc.
  - destruct (slash_calc_is_no_phrase command Hcalc) as (-> & _). cbn [negb andb].
    split; [intros _; split; reflexivity|intros _; apply snoc_differs].
  - rewrite andb_false_r, List.app_nil_r.
    split; [intros H; contradiction|intros [_ H]; discriminate H].
Qed.

Lemma dispatch_handled (env : Env) (st : State) (command : string) :
  JsString.startsWith "/weather" command
  || JsString.startsWith "/calc" command
  || JsString.startsWith "/define" command = true ->
  exists (st' : State) (r : Message),
    exec env (dispatch command) st = replied st' r
    /\ sender r = Assistant
    /\ content r <> "Unrecognized command.".
Proof.
  intros H. unfold dispatch.
  destruct (JsString.startsWith "/weather" command).
  { destruct (JsString.isEmpty _).
    - rewrite exec_reply. do 2 eexists. split; [reflexivity|].
      split; [reflexivity|discriminate].
    - unfold exec; cbn [run].
      destruct (http env _ _) as [weather|];
        [rewrite weatherContent_cases; destruct (weatherReadable weather)|];
        (eexists (asked st _); eexists; split; [reflexivity|]);
        (split; [reflexivity|]); cbn [content created]; unfold weatherText;
        intros E; simpl in E; discriminate E. }
  destruct (JsString.startsWith "/calc" command).
  { unfold exec; cbn [run].
    destruct (evalJs env _ _);
      (eexists (evaluated st _); eexists; split; [reflexivity|]);
      (split; [reflexivity|]); cbn [content created];
      intros E; simpl in E; discriminate E. }
  destruct (JsString.startsWith "/define" command); [|discriminate H].
  unfold exec; cbn [run].
  destruct (http env _ _) as [data|]; [destruct (definitionChain data)|];
    (eexists (asked st _); eexists; split; [reflexivity|]);
    (split; [reflexivity|]); cbn [content created];
    intros E; simpl in E; discriminate E.
Qed.

(** X24: whatever [parseNaturalLanguage] returns is [/weather ],
    [/calc ] or [/define ] followed by an argument: it is never the empty
    string (so [if (parsed)] always takes it), and its dispatch is never
    answered with [Unrecognized command.]. *)
Theorem rewritten_commands_reach_a_handler (env : Env) (st : State)
    (text command : string) :
  parseNaturalLanguage text = Some command ->
  (exists argument : string,
     command = "/weather " ++ argument
     \/ command = "/calc " ++ argument
     \/ command = "/define " ++ argument)
  /\ JsString.isEmpty command = false
  /\ (exists (st' : State) (r : Message),
        exec env (dispatch command) st = replied st' r
        /\ sender r = Assistant
        /\ content r <> "Unrecognized command.").
Proof.
  intros H.
  assert (Hshape : exists argument : string,
            command = "/weather " ++ argument
            \/ command = "/calc " ++ argument
            \/ command = "/define " ++ argument).
  { unfold parseNaturalLanguage in H.
    destruct (JsString.includes _ _); [injection H as <-; eexists; left; reflexivity|].
    destruct (_ || _)%bool; [injection H as <-; eexists; right; left; reflexivity|].
    destruct (_ || _)%bool; [injection H as <-; eexists; right; right; reflexivity|].
    discriminate H. }
  split; [exact Hshape|].
  destruct Hshape as [argument [-> | [-> | ->]]];
    (split; [reflexivity|apply dispatch_handled; reflexivity]).
Qed.

Lemma rewritten_commands_reach_a_handler_witness :
  let env := Sample.envOffline in
  let st := Sample.typed "" in
  (exists argument : string,
     "/define cat" = "/weather " ++ argument
     \/ "/define cat" = "/calc " ++ argument
     \/ "/define cat" = "/define " ++ argument)
  /\ JsString.isEmpty "/define cat" = false
  /\ (exists (st' : State) (r : Message),
        exec env (dispatch "/define cat") st = replied st' r
        /\ sender r = Assistant
        /\ content r <> "Unrecognized command.").
Proof.
  intros env st.
  apply (rewritten_commands_reach_a_handler env st "Define cat." "/define cat").
  reflexivity.
Defined.

(** X25: white space around the input does not count.  The command
    that is dispatched for an input, and with it everything the timer
    callback does, is the same for the input and for the input trimmed. *)
Theorem surrounding_space_is_ignored (env : Env) (st : State) (text : string)
    (lm : Message) :
  commandOf (JsString.trim text) = commandOf text
  /\ exec env (timeoutCallback (JsString.trim text) lm) st
     = exec env (timeoutCallback text lm) st.
Proof.
  assert (H : commandOf (JsString.trim text) = commandOf text)
    by (unfold commandOf; rewrite trim_idem; reflexivity).
  split; [exact H|]. unfold timeoutCallback. rewrite H. reflexivity.
Qed.

(** *** Lower case *)

Ltac each_ascii c :=
  destruct c as [b0 b1 b2 b3 b4 b5 b6 b7];
  destruct b0, b1, b2, b3, b4, b5, b6, b7.

Lemma lowerChar_idem (c : ascii) :
  JsString.lowerChar (JsString.lowerChar c) = JsString.lowerChar c.
Proof. each_ascii c; vm_compute; reflexivity. Qed.

Lemma lowerChar_whitespace (c : ascii) :
  JsString.isWhiteSpace (JsString.lowerChar c) = JsString.isWhiteSpace c.
Proof. each_ascii c; vm_compute; reflexivity. Qed.

Lemma lowerChar_punct (c : ascii) :
  JsString.isPunct (JsString.lowerChar c) = JsString.isPunct c.
Proof. each_ascii c; vm_compute; reflexivity. Qed.

(** Below 128 the fold of the [i] flag does not tell a letter from its
    lower case; from 128 on it leaves both where they are. *)
Lemma canon_lowerChar (c : ascii) :
  JsString.canon (JsString.lowerChar c) = JsString.canon c
  \/ ((128 <=? JsString.code (JsString.canon c))%nat = true
      /\ (128 <=? JsString.code (JsString.canon (JsString.lowerChar c)))%nat = true).
Proof. each_ascii c; vm_compute; auto. Qed.

Lemma toLowerCase_idem (s : string) :
  JsString.toLowerCase (JsString.toLowerCase s) = JsString.toLowerCase s.
Proof.
  induction s as [|c s IH]; [reflexivity|]. cbn [JsString.toLowerCase].
  now rewrite lowerChar_idem, IH.
Qed.

Lemma toLowerCase_append (a b : string) :
  JsString.toLowerCase (a ++ b) = JsString.toLowerCase a ++ JsString.toLowerCase b.
Proof. induction a as [|c a IH]; [reflexivity|]. simpl. now rewrite IH. Qed.

Lemma toLowerCase_isEmpty (s : string) :
  JsString.isEmpty (JsString.toLowerCase s) = JsString.isEmpty s.
Proof. destruct s; reflexivity. Qed.

Lemma toLowerCase_trimStart (s : string) :
  JsString.trimStart (JsString.toLowerCase s) = JsString.toLowerCase (JsString.trimStart s).
Proof.
  induction s as [|c s IH]; [reflexivity|]. cbn [JsString.toLowerCase JsString.trimStart].
  rewrite lowerChar_whitespace. destruct (JsString.isWhiteSpace c); [exact IH|reflexivity].
Qed.

Lemma toLowerCase_trimEnd (s : string) :
  JsString.trimEnd (JsString.toLowerCase s) = JsString.toLowerCase (JsString.trimEnd s).
Proof.
  induction s as [|c s IH]; [reflexivity|]. cbn [JsString.toLowerCase JsString.trimEnd].
  rewrite lowerChar_whitespace, IH, toLowerCase_isEmpty.
  destruct (JsString.isWhiteSpace c && JsString.isEmpty (JsString.trimEnd s)); reflexivity.
Qed.

Lemma toLowerCase_trim (s : string) :
  JsString.trim (JsString.toLowerCase s) = JsString.toLowerCase (JsString.trim s).
Proof. unfold JsString.trim. now rewrite toLowerCase_trimStart, toLowerCase_trimEnd. Qed.

Lemma toLowerCase_stripPunct (s : string) :
  JsString.stripPunct (JsString.toLowerCase s) = JsString.toLowerCase (JsString.stripPunct s).
Proof.
  induction s as [|c s IH]; [reflexivity|]. cbn [JsString.toLowerCase JsString.stripPunct].
  rewrite lowerChar_punct, IH. destruct (JsString.isPunct c); reflexivity.
Qed.

Lemma eqb_across_128 (x y : ascii) :
  (JsString.code x <? 128)%nat = true -> (128 <=? JsString.code y)%nat = true ->
  Ascii.eqb x y = false.
Proof.
  intros Hx Hy. destruct (Ascii.eqb_spec x y) as [->|]; [|reflexivity].
  apply Nat.ltb_lt in Hx. apply Nat.leb_le in Hy. lia.
Qed.

Lemma matchCI_lower (p s : string) :
  asciiPattern p = true ->
  JsString.matchCI p (JsString.toLowerCase s) = JsString.matchCI p s.
Proof.
  revert s. induction p as [|x p IH]; intros [|c s] Hp; try reflexivity.
  cbn [asciiPattern] in Hp. apply andb_prop in Hp. destruct Hp as [Hx Hp].
  cbn [JsString.toLowerCase JsString.matchCI]. rewrite (IH s Hp). f_equal.
  destruct (canon_lowerChar c) as [->|[H1 H2]]; [reflexivity|].
  rewrite !eqb_across_128; auto.
Qed.

Lemma firstAlt_lower (alts : list string) (s : string) :
  forallb asciiPattern alts = true ->
  JsString.firstAlt alts (JsString.toLowerCase s) = JsString.firstAlt alts s.
Proof.
  induction alts as [|p alts IH]; intros H; [reflexivity|].
  cbn [forallb] in H. apply andb_prop in H. destruct H as [Hp Halts].
  cbn [JsString.firstAlt]. rewrite (matchCI_lower p s Hp), (IH Halts). reflexivity.
Qed.

Lemma removeAllGo_lower (alts : list string) (skip : nat) (s : string) :
  forallb asciiPattern alts = true ->
  JsString.removeAllGo alts skip (JsString.toLowerCase s)
  = JsString.toLowerCase (JsString.removeAllGo alts skip s).
Proof.
  intros Halts. revert skip. induction s as [|c s IH]; intros skip; [reflexivity|].
  cbn [JsString.toLowerCase JsString.removeAllGo]. destruct skip as [|k]; [|apply IH].
  change (String (JsString.lowerChar c) (JsString.toLowerCase s))
    with (JsString.toLowerCase (String c s)).
  rewrite (firstAlt_lower alts (String c s) Halts).
  destruct (JsString.firstAlt alts (String c s)) as [p|]; [apply IH|].
  cbn [JsString.toLowerCase]. now rewrite IH.
Qed.

Lemma lowered_of_rev (acc : list ascii) :
  Forall (fun c => JsString.lowerChar c = c) acc ->
  lowered (string_of_list_ascii (List.rev acc)).
Proof.
  intros H. apply Forall_rev in H. unfold lowered.
  induction H as [|c l Hc Hl IH]; [reflexivity|].
  cbn [string_of_list_ascii JsString.toLowerCase]. now rewrite Hc, IH.
Qed.

Lemma splitGo_lowered (sep : string) (s : string) :
  lowered s ->
  forall (skip : nat) (acc : list ascii),
    Forall (fun c => JsString.lowerChar c = c) acc ->
    Forall lowered (JsString.splitGo sep skip acc s).
Proof.
  induction s as [|c s IH]; intros Hs skip acc Hacc.
  - constructor; [apply lowered_of_rev, Hacc|constructor].
  - unfold lowered in Hs. cbn [JsString.toLowerCase] in Hs. injection Hs as Hc Hs.
    cbn [JsString.splitGo]. destruct skip as [|k]; [|apply IH; assumption].
    destruct (JsString.startsWith sep (String c s)).
    + constructor; [apply lowered_of_rev, Hacc|]. apply IH; [exact Hs|constructor].
    + apply IH; [exact Hs|]. constructor; assumption.
Qed.

Lemma split_piece_lowered (sep s piece : string) (n : nat) :
  lowered s -> nth_error (JsString.split sep s) n = Some piece -> lowered piece.
Proof.
  intros Hs Hn. apply nth_error_In in Hn.
  pose proof (splitGo_lowered sep s Hs 0 [] (Forall_nil _)) as H.
  rewrite Forall_forall in H. apply H, Hn.
Qed.

